(** * Sona Mang server: session engine, word validator and lobby manager

    A shallow embedding of the TypeScript server
    (game-logic.ts, game-session.ts, lobby-manager.ts, messages.ts,
    types.ts, shared/protocol.ts) together with the properties of the
    turn state machine that the design document states.

    Conventions of the embedding:
    - a JavaScript [Map<string, V>] is an association list in insertion
      order with the semantics of [get]/[set]/[delete] written out; a
      [Set<string>] is a duplicate-free list in insertion order;
    - the objects stored in a map are mutated in place by the source; here
      the entry stored under the key is rewritten ([JsMap.modify]);
    - JavaScript numbers holding lives and scores are integers ([Z]); the
      ones holding seconds are idealised as rationals ([Q]); [Date.now()] is
      an argument of the operations that read the clock (milliseconds);
    - [Math.random], [String.prototype.toUpperCase] and the word lists read
      at boot are the fields of an environment [Env];
    - every [ws.send] is appended to the log [sent] of the session. *)

From Stdlib Require Import String Ascii List ZArith QArith Qminmax Bool Arith Lia
  Permutation.
Import ListNotations.

Close Scope Q_scope.
Local Open Scope list_scope.

(** ** JavaScript containers *)

Module JsSet.

Definition t := list string.

Definition has (x : string) (s : t) : bool := existsb (String.eqb x) s.

Definition add (x : string) (s : t) : t := if has x s then s else s ++ [x].

Definition clear (s : t) : t := [].

End JsSet.

Module JsMap.

Section Entries.

Variable V : Type.

Definition t := list (string * V).

Fixpoint get (k : string) (m : t) : option V :=
  match m with
  | [] => None
  | (k', v) :: m' => if String.eqb k k' then Some v else get k m'
  end.

(** [set] on a key that is present keeps the position of the entry. *)
Fixpoint set (k : string) (v : V) (m : t) : t :=
  match m with
  | [] => [(k, v)]
  | (k', v') :: m' =>
      if String.eqb k k' then (k, v) :: m' else (k', v') :: set k v m'
  end.

Definition delete (k : string) (m : t) : t :=
  filter (fun kv => negb (String.eqb k (fst kv))) m.

Definition keys (m : t) : list string := map fst m.

Definition values (m : t) : list V := map snd m.

Definition size (m : t) : nat := length m.

(** In-place mutation of the object stored under [k]. *)
Definition modify (k : string) (f : V -> V) (m : t) : t :=
  map (fun kv => if String.eqb k (fst kv) then (fst kv, f (snd kv)) else kv) m.

(** In-place mutation of every stored object, in iteration order. *)
Definition forEach (f : V -> V) (m : t) : t :=
  map (fun kv => (fst kv, f (snd kv))) m.

End Entries.

Arguments get {V} k m.
Arguments set {V} k v m.
Arguments delete {V} k m.
Arguments keys {V} m.
Arguments values {V} m.
Arguments size {V} m.
Arguments modify {V} k f m.
Arguments forEach {V} f m.

End JsMap.

(** [Array.prototype.indexOf]: the first index holding [x], or [-1]. *)
Fixpoint indexOf (x : string) (l : list string) : Z :=
  match l with
  | [] => (-1)%Z
  | y :: l' =>
      if String.eqb x y then 0%Z
      else let i := indexOf x l' in if (i <? 0)%Z then (-1)%Z else (i + 1)%Z
  end.

(** [String.prototype.includes]: [needle] occurs in [hay] as a substring. *)
Fixpoint includes (needle hay : string) : bool :=
  if String.prefix needle hay then true
  else match hay with
       | EmptyString => false
       | String _ hay' => includes needle hay'
       end.

(** ** shared/protocol.ts *)

Definition MAX_PLAYERS : nat := 8.
Definition MIN_PLAYERS : nat := 2.
Definition DEFAULT_LIVES : Z := 3.
Definition DEFAULT_TURN_DURATION : Q := (10 # 1)%Q.

Inductive PlayerState := CONNECTED | READY | ALIVE | ELIMINATED | DISCONNECTED.

Inductive TurnResult := CORRECT | WRONG | ALREADY_USED | TIMEOUT.

Inductive GamePhase := LOBBY | PLAYING | GAME_OVER.

Definition PlayerState_eqb (a b : PlayerState) : bool :=
  match a, b with
  | CONNECTED, CONNECTED | READY, READY | ALIVE, ALIVE
  | ELIMINATED, ELIMINATED | DISCONNECTED, DISCONNECTED => true
  | _, _ => false
  end.

Definition GamePhase_eqb (a b : GamePhase) : bool :=
  match a, b with
  | LOBBY, LOBBY | PLAYING, PLAYING | GAME_OVER, GAME_OVER => true
  | _, _ => false
  end.

(** A socket: its identity and the [readyState] the server reads when it
    sends ([WebSocket.OPEN] is 1). *)
Record WebSocket := mkWebSocket { wsId : nat; readyState : nat }.

Definition WebSocket_OPEN : nat := 1.

Record PlayerInfo := mkPlayerInfo {
  info_id : string;
  info_name : string;
  info_state : PlayerState;
  info_lives : Z;
  info_score : Z;
  info_isHost : bool;
  info_currentInput : string
}.

Inductive ServerMessage :=
| MsgPLAYER_LIST (players : list PlayerInfo) (hostId : string)
| MsgGAME_START (firstPlayerId : string) (turnDuration : Q) (combo : string)
| MsgTURN_START (playerId : string) (duration : Q)
| MsgTURN_INPUT (playerId input : string)
| MsgTURN_RESULT (playerId : string) (result : TurnResult)
    (nextPlayerId newCombo word : string) (remainingTime : option Q)
| MsgPLAYER_UPDATE (playerId : string) (lives score : Z) (state : PlayerState)
| MsgPLAYER_ELIMINATED (playerId : string)
| MsgGAME_OVER (winnerId : option string)
    (failedCombos : list (string * list string)).

(** One [ws.send]: the socket and the message. *)
Definition Send : Type := WebSocket * ServerMessage.

(** ** The environment of the process *)

Record Env := mkEnv {
  (** [String.prototype.toUpperCase] *)
  toUpperCase : string -> string;
  (** the dictionary loaded by [loadWordList], upper-cased *)
  wordSet : JsSet.t;
  (** the combos loaded by [loadComboList], upper-cased *)
  comboList : list string;
  (** [random_index k len], taken modulo [len], is
      [Math.floor(Math.random() * len)] at the [k]-th call of
      [generateNewCombo] *)
  random_index : nat -> nat -> nat;
  (** the order in which [sort(() => Math.random() - 0.5)] leaves a list *)
  random_shuffle : list string -> list string
}.

(** ** game-logic.ts *)

Section GameLogic.

Variable E : Env.

(** The [k]-th call of [generateNewCombo]. *)
Definition generateNewCombo (k : nat) : string :=
  if Nat.eqb (length (comboList E)) 0 then "???"%string
  else
    let index := random_index E k (length (comboList E)) mod length (comboList E) in
    nth index (comboList E) "???"%string.

Definition validateWord (word currentCombo : string) (usedWords : JsSet.t)
  : TurnResult :=
  if Nat.eqb (String.length word) 0 then WRONG
  else
    let upperWord := toUpperCase E word in
    if JsSet.has upperWord usedWords then ALREADY_USED
    else if negb (includes (toUpperCase E currentCombo) upperWord) then WRONG
    else if negb (JsSet.has upperWord (wordSet E)) then WRONG
    else CORRECT.

Definition wordExists (word : string) : bool :=
  JsSet.has (toUpperCase E word) (wordSet E).

Definition getRandomWordsForCombo (combo : string) (count : nat) : list string :=
  let upperCombo := toUpperCase E combo in
  let matchingWords := filter (includes upperCombo) (wordSet E) in
  firstn count (random_shuffle E matchingWords).

End GameLogic.

(** ** types.ts *)

Record Player := mkPlayer {
  id : string;
  name : string;
  state : PlayerState;
  lives : Z;
  score : Z;
  isHost : bool;
  currentInput : string;
  ws : WebSocket
}.

Definition set_state (v : PlayerState) (x : Player) : Player :=
  mkPlayer (id x) (name x) v (lives x) (score x) (isHost x) (currentInput x) (ws x).

Definition set_lives (v : Z) (x : Player) : Player :=
  mkPlayer (id x) (name x) (state x) v (score x) (isHost x) (currentInput x) (ws x).

Definition set_score (v : Z) (x : Player) : Player :=
  mkPlayer (id x) (name x) (state x) (lives x) v (isHost x) (currentInput x) (ws x).

Definition set_isHost (v : bool) (x : Player) : Player :=
  mkPlayer (id x) (name x) (state x) (lives x) (score x) v (currentInput x) (ws x).

Definition set_currentInput (v : string) (x : Player) : Player :=
  mkPlayer (id x) (name x) (state x) (lives x) (score x) (isHost x) v (ws x).

(** [createPlayer] *)
Definition createPlayer (id0 name0 : string) (ws0 : WebSocket) (isHost0 : bool)
  : Player :=
  mkPlayer id0 name0 CONNECTED DEFAULT_LIVES 0%Z isHost0 ""%string ws0.

(** The state of a [GameSession]: the fields of [GameState] ([id] and
    [name] are [game_id] and [game_name] here; [turnTimerHandle] is never
    assigned and is left out), the private
    fields [tickInterval] (an interval is armed) and [turnStartTime] of the
    class, the number [comboCalls] of calls of [generateNewCombo] made so
    far, and the log [sent] of the messages sent. *)
Record GameSession := mkGameSession {
  game_id : string;
  game_name : string;
  phase : GamePhase;
  players : JsMap.t Player;
  hostId : string;
  currentCombo : string;
  currentTurnPlayerId : string;
  turnTimer : Q;
  turnDuration : Q;
  usedWords : JsSet.t;
  comboChangePerRound : bool;
  roundStartPlayerId : string;
  failedCombos : JsSet.t;
  tickInterval : bool;
  turnStartTime : Z;
  comboCalls : nat;
  sent : list Send
}.

Definition set_phase (v : GamePhase) (x : GameSession) : GameSession :=
  mkGameSession (game_id x) (game_name x) v (players x) (hostId x) (currentCombo x) (currentTurnPlayerId x) (turnTimer x) (turnDuration x) (usedWords x) (comboChangePerRound x) (roundStartPlayerId x) (failedCombos x) (tickInterval x) (turnStartTime x) (comboCalls x) (sent x).

Definition set_players (v : JsMap.t Player) (x : GameSession) : GameSession :=
  mkGameSession (game_id x) (game_name x) (phase x) v (hostId x) (currentCombo x) (currentTurnPlayerId x) (turnTimer x) (turnDuration x) (usedWords x) (comboChangePerRound x) (roundStartPlayerId x) (failedCombos x) (tickInterval x) (turnStartTime x) (comboCalls x) (sent x).

Definition set_hostId (v : string) (x : GameSession) : GameSession :=
  mkGameSession (game_id x) (game_name x) (phase x) (players x) v (currentCombo x) (currentTurnPlayerId x) (turnTimer x) (turnDuration x) (usedWords x) (comboChangePerRound x) (roundStartPlayerId x) (failedCombos x) (tickInterval x) (turnStartTime x) (comboCalls x) (sent x).

Definition set_currentCombo (v : string) (x : GameSession) : GameSession :=
  mkGameSession (game_id x) (game_name x) (phase x) (players x) (hostId x) v (currentTurnPlayerId x) (turnTimer x) (turnDuration x) (usedWords x) (comboChangePerRound x) (roundStartPlayerId x) (failedCombos x) (tickInterval x) (turnStartTime x) (comboCalls x) (sent x).

Definition set_currentTurnPlayerId (v : string) (x : GameSession) : GameSession :=
  mkGameSession (game_id x) (game_name x) (phase x) (players x) (hostId x) (currentCombo x) v (turnTimer x) (turnDuration x) (usedWords x) (comboChangePerRound x) (roundStartPlayerId x) (failedCombos x) (tickInterval x) (turnStartTime x) (comboCalls x) (sent x).

Definition set_turnTimer (v : Q) (x : GameSession) : GameSession :=
  mkGameSession (game_id x) (game_name x) (phase x) (players x) (hostId x) (currentCombo x) (currentTurnPlayerId x) v (turnDuration x) (usedWords x) (comboChangePerRound x) (roundStartPlayerId x) (failedCombos x) (tickInterval x) (turnStartTime x) (comboCalls x) (sent x).

Definition set_usedWords (v : JsSet.t) (x : GameSession) : GameSession :=
  mkGameSession (game_id x) (game_name x) (phase x) (players x) (hostId x) (currentCombo x) (currentTurnPlayerId x) (turnTimer x) (turnDuration x) v (comboChangePerRound x) (roundStartPlayerId x) (failedCombos x) (tickInterval x) (turnStartTime x) (comboCalls x) (sent x).

Definition set_comboChangePerRound (v : bool) (x : GameSession) : GameSession :=
  mkGameSession (game_id x) (game_name x) (phase x) (players x) (hostId x) (currentCombo x) (currentTurnPlayerId x) (turnTimer x) (turnDuration x) (usedWords x) v (roundStartPlayerId x) (failedCombos x) (tickInterval x) (turnStartTime x) (comboCalls x) (sent x).

Definition set_roundStartPlayerId (v : string) (x : GameSession) : GameSession :=
  mkGameSession (game_id x) (game_name x) (phase x) (players x) (hostId x) (currentCombo x) (currentTurnPlayerId x) (turnTimer x) (turnDuration x) (usedWords x) (comboChangePerRound x) v (failedCombos x) (tickInterval x) (turnStartTime x) (comboCalls x) (sent x).

Definition set_failedCombos (v : JsSet.t) (x : GameSession) : GameSession :=
  mkGameSession (game_id x) (game_name x) (phase x) (players x) (hostId x) (currentCombo x) (currentTurnPlayerId x) (turnTimer x) (turnDuration x) (usedWords x) (comboChangePerRound x) (roundStartPlayerId x) v (tickInterval x) (turnStartTime x) (comboCalls x) (sent x).

Definition set_tickInterval (v : bool) (x : GameSession) : GameSession :=
  mkGameSession (game_id x) (game_name x) (phase x) (players x) (hostId x) (currentCombo x) (currentTurnPlayerId x) (turnTimer x) (turnDuration x) (usedWords x) (comboChangePerRound x) (roundStartPlayerId x) (failedCombos x) v (turnStartTime x) (comboCalls x) (sent x).

Definition set_turnStartTime (v : Z) (x : GameSession) : GameSession :=
  mkGameSession (game_id x) (game_name x) (phase x) (players x) (hostId x) (currentCombo x) (currentTurnPlayerId x) (turnTimer x) (turnDuration x) (usedWords x) (comboChangePerRound x) (roundStartPlayerId x) (failedCombos x) (tickInterval x) v (comboCalls x) (sent x).

Definition set_comboCalls (v : nat) (x : GameSession) : GameSession :=
  mkGameSession (game_id x) (game_name x) (phase x) (players x) (hostId x) (currentCombo x) (currentTurnPlayerId x) (turnTimer x) (turnDuration x) (usedWords x) (comboChangePerRound x) (roundStartPlayerId x) (failedCombos x) (tickInterval x) (turnStartTime x) v (sent x).

Definition set_sent (v : list Send) (x : GameSession) : GameSession :=
  mkGameSession (game_id x) (game_name x) (phase x) (players x) (hostId x) (currentCombo x) (currentTurnPlayerId x) (turnTimer x) (turnDuration x) (usedWords x) (comboChangePerRound x) (roundStartPlayerId x) (failedCombos x) (tickInterval x) (turnStartTime x) (comboCalls x) v.

(** ** messages.ts *)

(** [broadcastToGame]: one send per stored player whose socket is open, in
    iteration order. *)
Definition broadcastToGame (players0 : JsMap.t Player) (message : ServerMessage)
  : list Send :=
  map (fun p => (ws p, message))
      (filter (fun p => Nat.eqb (readyState (ws p)) WebSocket_OPEN)
              (JsMap.values players0)).

(** ** game-session.ts *)

Section Session.

Variable E : Env.

(** [new GameSession(id, name, hostId)] *)
Definition newGameSession (id0 name0 hostId0 : string) : GameSession :=
  mkGameSession id0 name0 LOBBY [] hostId0 ""%string ""%string
    DEFAULT_TURN_DURATION DEFAULT_TURN_DURATION [] true ""%string [] false 0%Z
    0%nat [].

Definition playerCount (s : GameSession) : nat := JsMap.size (players s).

Definition toPlayerInfo (p : Player) : PlayerInfo :=
  mkPlayerInfo (id p) (name p) (state p) (lives p) (score p) (isHost p)
    (currentInput p).

Definition getPlayersInfo (s : GameSession) : list PlayerInfo :=
  map toPlayerInfo (JsMap.values (players s)).

(** [broadcastToGame(this.state.players, message)] *)
Definition broadcast (message : ServerMessage) (s : GameSession) : GameSession :=
  set_sent (sent s ++ broadcastToGame (players s) message) s.

Definition broadcastPlayerList (s : GameSession) : GameSession :=
  broadcast (MsgPLAYER_LIST (getPlayersInfo s) (hostId s)) s.

Definition isEmpty (s : GameSession) : bool := Nat.eqb (JsMap.size (players s)) 0.

Definition getPlayer (playerId : string) (s : GameSession) : option Player :=
  JsMap.get playerId (players s).

(** The method [isHost(playerId)] of the class; [isHost] is the field of
    [Player] here. *)
Definition isHostOf (playerId : string) (s : GameSession) : bool :=
  String.eqb (hostId s) playerId.

(** In-place mutation of the player object stored under [k]. *)
Definition modifyPlayer (k : string) (f : Player -> Player) (s : GameSession)
  : GameSession :=
  set_players (JsMap.modify k f (players s)) s.

Definition addPlayer (id0 name0 : string) (ws0 : WebSocket) (s : GameSession)
  : option Player * GameSession :=
  if MAX_PLAYERS <=? JsMap.size (players s) then (None, s)
  else if negb (GamePhase_eqb (phase s) LOBBY) then (None, s)
  else
    let isHost0 := Nat.eqb (JsMap.size (players s)) 0 in
    let player := createPlayer id0 name0 ws0 isHost0 in
    let s1 := set_players (JsMap.set id0 player (players s)) s in
    let s2 := if isHost0 then set_hostId id0 s1 else s1 in
    (Some player, s2).

Definition stopTurnTimer (s : GameSession) : GameSession :=
  if tickInterval s then set_tickInterval false s else s.

Definition startTurnTimer (now : Z) (s : GameSession) : GameSession :=
  let s1 := stopTurnTimer s in
  let s2 := set_turnStartTime now s1 in
  let s3 := set_turnTimer (turnDuration s2) s2 in
  let s4 := broadcast (MsgTURN_START (currentTurnPlayerId s3) (turnDuration s3)) s3 in
  set_tickInterval true s4.

(** The branch of the scan of [advanceToNextPlayer] taken at the first
    key [nextPlayerId] whose player is ALIVE. *)
Definition selectNextPlayer (mayChangeCombo : bool) (nextPlayerId : string)
    (s : GameSession) : GameSession :=
  let s1 :=
    match JsMap.get (roundStartPlayerId s) (players s) with
    | Some roundStartPlayer =>
        if negb (PlayerState_eqb (state roundStartPlayer) ALIVE)
        then set_roundStartPlayerId nextPlayerId s else s
    | None => set_roundStartPlayerId nextPlayerId s
    end in
  let everyoneTriedCombo := String.eqb nextPlayerId (roundStartPlayerId s1) in
  let s2 :=
    if mayChangeCombo || everyoneTriedCombo then
      set_roundStartPlayerId nextPlayerId
        (set_comboCalls (S (comboCalls s1))
           (set_currentCombo (generateNewCombo E (comboCalls s1)) s1))
    else s1 in
  let s3 := set_currentTurnPlayerId nextPlayerId s2 in
  let s4 := set_turnTimer (turnDuration s3) s3 in
  modifyPlayer nextPlayerId (set_currentInput ""%string) s4.

(** The [while (attempts < playerIds.length)] loop; [remaining] is
    [playerIds.length - attempts]. *)
Fixpoint advanceLoop (mayChangeCombo : bool) (playerIds : list string)
    (remaining nextIndex : nat) (s : GameSession) : GameSession :=
  match remaining with
  | O => s
  | S remaining' =>
      let nextPlayerId := nth nextIndex playerIds ""%string in
      match JsMap.get nextPlayerId (players s) with
      | Some nextPlayer =>
          if PlayerState_eqb (state nextPlayer) ALIVE
          then selectNextPlayer mayChangeCombo nextPlayerId s
          else advanceLoop mayChangeCombo playerIds remaining'
                 ((nextIndex + 1) mod length playerIds) s
      | None =>
          advanceLoop mayChangeCombo playerIds remaining'
            ((nextIndex + 1) mod length playerIds) s
      end
  end.

Definition advanceToNextPlayer (mayChangeCombo : bool) (s : GameSession)
  : GameSession :=
  let playerIds := JsMap.keys (players s) in
  if Nat.eqb (length playerIds) 0 then s
  else
    let currentIndex := indexOf (currentTurnPlayerId s) playerIds in
    let nextIndex :=
      Z.to_nat ((currentIndex + 1) mod Z.of_nat (length playerIds)) in
    advanceLoop mayChangeCombo playerIds (length playerIds) nextIndex s.

Definition endGame (winnerId : option string) (s : GameSession) : GameSession :=
  let s1 := stopTurnTimer s in
  let s2 := set_phase GAME_OVER s1 in
  let failedCombosWithWords :=
    map (fun combo => (combo, getRandomWordsForCombo E combo 3)) (failedCombos s2) in
  broadcast (MsgGAME_OVER winnerId failedCombosWithWords) s2.

(** The loop of [checkWinCondition]: the number of ALIVE players and the
    last of them in iteration order. *)
Definition aliveCount (s : GameSession) : nat :=
  length (filter (fun p => PlayerState_eqb (state p) ALIVE) (JsMap.values (players s))).

Definition lastAlivePlayer (s : GameSession) : option Player :=
  last (map Some (filter (fun p => PlayerState_eqb (state p) ALIVE)
                         (JsMap.values (players s)))) None.

(** [lastAlivePlayer?.id || null]: the empty string is falsy. *)
Definition winnerOf (p : option Player) : option string :=
  match p with
  | Some q => if String.eqb (id q) ""%string then None else Some (id q)
  | None => None
  end.

Definition checkWinCondition (s : GameSession) : bool * GameSession :=
  if Nat.eqb (JsMap.size (players s)) 1 && Nat.eqb (aliveCount s) 0
  then (true, endGame None s)
  else if (1 <? JsMap.size (players s)) && (aliveCount s <=? 1)
  then (true, endGame (winnerOf (lastAlivePlayer s)) s)
  else (false, s).

Definition removePlayer (playerId : string) (s : GameSession) : GameSession :=
  match JsMap.get playerId (players s) with
  | None => s
  | Some player =>
      let s1 := set_players (JsMap.delete playerId (players s)) s in
      let s2 :=
        if isHost player && (0 <? JsMap.size (players s1)) then
          match players s1 with
          | (k, newHost) :: rest =>
              set_hostId (id newHost)
                (set_players ((k, set_isHost true newHost) :: rest) s1)
          | [] => s1
          end
        else s1 in
      let s3 :=
        if GamePhase_eqb (phase s2) PLAYING then
          let s' :=
            if String.eqb (currentTurnPlayerId s2) playerId
            then advanceToNextPlayer false s2 else s2 in
          snd (checkWinCondition s')
        else s2 in
      broadcastPlayerList s3
  end.

Definition setPlayerReady (playerId : string) (ready : bool) (s : GameSession)
  : GameSession :=
  match JsMap.get playerId (players s) with
  | None => s
  | Some _ =>
      broadcastPlayerList
        (modifyPlayer playerId (set_state (if ready then READY else CONNECTED)) s)
  end.

Definition canStartGame (s : GameSession) : bool :=
  let readyCount :=
    length (filter (fun p => PlayerState_eqb (state p) READY)
                   (JsMap.values (players s))) in
  MIN_PLAYERS <=? readyCount.

(** The body of the first loop of [startGame]. *)
Definition readyToAlive (p : Player) : Player :=
  if PlayerState_eqb (state p) READY
  then set_currentInput ""%string
         (set_score 0%Z (set_lives DEFAULT_LIVES (set_state ALIVE p)))
  else p.

Definition startGame (now : Z) (s : GameSession) : bool * GameSession :=
  if negb (canStartGame s) then (false, s)
  else
    let s1 := set_players (JsMap.forEach readyToAlive (players s)) s in
    let s2 := set_usedWords (JsSet.clear (usedWords s1)) s1 in
    let s3 := set_failedCombos (JsSet.clear (failedCombos s2)) s2 in
    let s4 := set_phase PLAYING s3 in
    let s5 := set_comboCalls (S (comboCalls s4))
                (set_currentCombo (generateNewCombo E (comboCalls s4)) s4) in
    let s6 := set_turnTimer (turnDuration s5) s5 in
    let s7 :=
      match find (fun p => PlayerState_eqb (state p) ALIVE)
                 (JsMap.values (players s6)) with
      | Some player =>
          set_roundStartPlayerId (id player)
            (set_currentTurnPlayerId (id player) s6)
      | None => s6
      end in
    let s8 := broadcast (MsgGAME_START (currentTurnPlayerId s7) (turnDuration s7)
                           (currentCombo s7)) s7 in
    (true, startTurnTimer now s8).

Definition handleTurnInput (playerId input : string) (s : GameSession)
  : GameSession :=
  if negb (GamePhase_eqb (phase s) PLAYING) then s
  else if negb (String.eqb playerId (currentTurnPlayerId s)) then s
  else
    match JsMap.get playerId (players s) with
    | None => s
    | Some player =>
        if negb (PlayerState_eqb (state player) ALIVE) then s
        else
          let s1 := modifyPlayer playerId (set_currentInput input) s in
          broadcast (MsgTURN_INPUT playerId input) s1
    end.

(** [processTurnResult(player, result, word)], where [player] is the
    object stored under the key [k] of [players] (both callers pass the
    result of [players.get(k)]). *)
Definition processTurnResult (k : string) (result : TurnResult) (word : string)
    (now : Z) (s : GameSession) : GameSession :=
  let s0 := stopTurnTimer s in
  let s1 :=
    match result with
    | CORRECT =>
        let a := modifyPlayer k (fun p => set_score (score p + 1)%Z p) s0 in
        let b := set_usedWords (JsSet.add (toUpperCase E word) (usedWords a)) a in
        let c := modifyPlayer k (set_currentInput ""%string) b in
        advanceToNextPlayer true c
    | TIMEOUT =>
        let a := set_failedCombos (JsSet.add (currentCombo s0) (failedCombos s0)) s0 in
        let b := modifyPlayer k (fun p => set_lives (lives p - 1)%Z p) a in
        let c :=
          match JsMap.get k (players b) with
          | Some player =>
              if (lives player <=? 0)%Z then
                broadcast (MsgPLAYER_ELIMINATED (id player))
                  (modifyPlayer k (set_state ELIMINATED) b)
              else b
          | None => b
          end in
        let d := modifyPlayer k (set_currentInput ""%string) c in
        advanceToNextPlayer false d
    | WRONG | ALREADY_USED => s0
    end in
  let s2 :=
    match JsMap.get k (players s1) with
    | Some player =>
        broadcast (MsgPLAYER_UPDATE (id player) (lives player) (score player)
                     (state player)) s1
    | None => s1
    end in
  let s3 :=
    match JsMap.get k (players s2) with
    | Some player =>
        broadcast (MsgTURN_RESULT (id player) result (currentTurnPlayerId s2)
                     (currentCombo s2) word None) s2
    | None => s2
    end in
  let (won, s4) := checkWinCondition s3 in
  if won then s4 else startTurnTimer now s4.

(** [(Date.now() - this.turnStartTime) / 1000] *)
Definition elapsedSeconds (now : Z) (s : GameSession) : Q :=
  ((now - turnStartTime s)%Z # 1000)%Q.

Definition handleTurnSubmit (playerId word : string) (now : Z) (s : GameSession)
  : GameSession :=
  if negb (GamePhase_eqb (phase s) PLAYING) then s
  else if negb (String.eqb playerId (currentTurnPlayerId s)) then s
  else
    match JsMap.get playerId (players s) with
    | None => s
    | Some player =>
        if negb (PlayerState_eqb (state player) ALIVE) then s
        else
          let result := validateWord E word (currentCombo s) (usedWords s) in
          match result with
          | WRONG | ALREADY_USED =>
              let elapsed := elapsedSeconds now s in
              let remaining := Qmax 0%Q (turnDuration s - elapsed)%Q in
              broadcast (MsgTURN_RESULT (id player) result (id player)
                           (currentCombo s) word (Some remaining)) s
          | CORRECT | TIMEOUT => processTurnResult playerId result word now s
          end
    end.

Definition handleTimeout (now : Z) (s : GameSession) : GameSession :=
  let s1 := stopTurnTimer s in
  match JsMap.get (currentTurnPlayerId s1) (players s1) with
  | Some _ => processTurnResult (currentTurnPlayerId s1) TIMEOUT ""%string now s1
  | None => s1
  end.

(** The callback armed with [setInterval] by [startTurnTimer]; it runs
    only while the interval is armed. *)
Definition tick (now : Z) (s : GameSession) : GameSession :=
  if tickInterval s then
    let s1 := set_turnTimer (turnDuration s - elapsedSeconds now s)%Q s in
    if Qle_bool (turnTimer s1) 0%Q then handleTimeout now s1 else s1
  else s.

(** The body of the loop of [returnToLobby]. *)
Definition resetPlayer (p : Player) : Player :=
  set_currentInput ""%string
    (set_score 0%Z (set_lives DEFAULT_LIVES (set_state CONNECTED p))).

Definition returnToLobby (s : GameSession) : GameSession :=
  let s1 := stopTurnTimer s in
  let s2 := set_phase LOBBY s1 in
  let s3 := set_usedWords (JsSet.clear (usedWords s2)) s2 in
  let s4 := set_currentCombo ""%string s3 in
  let s5 := set_currentTurnPlayerId ""%string s4 in
  let s6 := set_roundStartPlayerId ""%string s5 in
  let s7 := set_players (JsMap.forEach resetPlayer (players s6)) s6 in
  broadcastPlayerList s7.

Definition setComboChangePerRound (enabled : bool) (s : GameSession)
  : GameSession :=
  set_comboChangePerRound enabled s.

Definition cleanup (s : GameSession) : GameSession := stopTurnTimer s.

End Session.

(** ** lobby-manager.ts *)

Record ClientInfo := mkClientInfo {
  client_ws : WebSocket;
  client_playerId : string;
  client_gameId : option string
}.

(** [clients] is keyed by the identity of the socket. *)
Record LobbyManager := mkLobbyManager {
  games : JsMap.t GameSession;
  clients : list (nat * ClientInfo)
}.

(** The object [{ success, reason? }] returned by [joinGame]. *)
Record JoinResult := mkJoinResult { success : bool; reason : option string }.

Fixpoint clients_get (w : WebSocket) (cs : list (nat * ClientInfo))
  : option ClientInfo :=
  match cs with
  | [] => None
  | (k, c) :: cs' => if Nat.eqb (wsId w) k then Some c else clients_get w cs'
  end.

Fixpoint clients_set (w : WebSocket) (c : ClientInfo) (cs : list (nat * ClientInfo))
  : list (nat * ClientInfo) :=
  match cs with
  | [] => [(wsId w, c)]
  | (k, c') :: cs' =>
      if Nat.eqb (wsId w) k then (k, c) :: cs' else (k, c') :: clients_set w c cs'
  end.

Section Lobby.

Variable E : Env.

(** [registerClient(ws)]; [uuid] is the value [uuidv4()] returns. *)
Definition registerClient (uuid : string) (w : WebSocket) (m : LobbyManager)
  : string * LobbyManager :=
  (uuid, mkLobbyManager (games m) (clients_set w (mkClientInfo w uuid None) (clients m))).

(** [createGame(ws, hostName, gameName)]; [gameId0] is
    [uuidv4().slice(0, 8)]. *)
Definition createGame (gameId0 : string) (w : WebSocket) (hostName gameName : string)
    (m : LobbyManager) : option GameSession * LobbyManager :=
  match clients_get w (clients m) with
  | None => (None, m)
  | Some client =>
      let game := newGameSession gameId0 gameName (client_playerId client) in
      match addPlayer (client_playerId client) hostName w game with
      | (None, _) => (None, m)
      | (Some _, game') =>
          let client' := mkClientInfo (client_ws client) (client_playerId client)
                           (Some gameId0) in
          (Some game',
           mkLobbyManager (JsMap.set gameId0 game' (games m))
             (clients_set w client' (clients m)))
      end
  end.

Definition joinGame (w : WebSocket) (gameId0 playerName : string) (m : LobbyManager)
  : JoinResult * LobbyManager :=
  match clients_get w (clients m) with
  | None => (mkJoinResult false (Some "Not registered"%string), m)
  | Some client =>
      match JsMap.get gameId0 (games m) with
      | None => (mkJoinResult false (Some "Game not found"%string), m)
      | Some game =>
          if negb (GamePhase_eqb (phase game) LOBBY)
          then (mkJoinResult false (Some "Game already started"%string), m)
          else if MAX_PLAYERS <=? playerCount game
          then (mkJoinResult false (Some "Game is full"%string), m)
          else
            match addPlayer (client_playerId client) playerName w game with
            | (None, _) => (mkJoinResult false (Some "Failed to join"%string), m)
            | (Some _, game') =>
                let client' := mkClientInfo (client_ws client)
                                 (client_playerId client) (Some gameId0) in
                (mkJoinResult true None,
                 mkLobbyManager (JsMap.set gameId0 game' (games m))
                   (clients_set w client' (clients m)))
            end
      end
  end.

End Lobby.

(** ** The operations of one session as a transition system *)

(** The public methods of [GameSession] and the timer callback. *)
Inductive Op :=
| OpAddPlayer (id0 name0 : string) (ws0 : WebSocket)
| OpRemovePlayer (playerId : string)
| OpSetPlayerReady (playerId : string) (ready : bool)
| OpStartGame (now : Z)
| OpHandleTurnInput (playerId input : string)
| OpHandleTurnSubmit (playerId word : string) (now : Z)
| OpTick (now : Z)
| OpReturnToLobby
| OpSetComboChangePerRound (enabled : bool).

Definition step (E : Env) (op : Op) (s : GameSession) : GameSession :=
  match op with
  | OpAddPlayer id0 name0 ws0 => snd (addPlayer id0 name0 ws0 s)
  | OpRemovePlayer playerId => removePlayer E playerId s
  | OpSetPlayerReady playerId ready => setPlayerReady playerId ready s
  | OpStartGame now => snd (startGame E now s)
  | OpHandleTurnInput playerId input => handleTurnInput playerId input s
  | OpHandleTurnSubmit playerId word now => handleTurnSubmit E playerId word now s
  | OpTick now => tick E now s
  | OpReturnToLobby => returnToLobby s
  | OpSetComboChangePerRound enabled => setComboChangePerRound enabled s
  end.

(** Running a list of operations, first to last. *)
Definition run (E : Env) (ops : list Op) (s : GameSession) : GameSession :=
  fold_left (fun acc op => step E op acc) ops s.

(** The states a session goes through from its construction. *)
Inductive reachable (E : Env) : GameSession -> Prop :=
| reachable_new id0 name0 hostId0 :
    reachable E (newGameSession id0 name0 hostId0)
| reachable_step op s :
    reachable E s -> reachable E (step E op s).

(** ** A concrete environment and concrete sessions, used to run the code *)

Module Sample.

(** Upper-casing of the 26 ASCII letters. *)
Definition upperAscii (c : ascii) : ascii :=
  let n := nat_of_ascii c in
  if (97 <=? n) && (n <=? 122) then ascii_of_nat (n - 32) else c.

Fixpoint upper (w : string) : string :=
  match w with
  | EmptyString => EmptyString
  | String c w' => String (upperAscii c) (upper w')
  end.

(** Three combos, a five-word dictionary, the [k]-th random draw is [k],
    and the shuffle leaves the order as it is. *)
Definition env : Env :=
  mkEnv upper
    ["KALA"; "SALAT"; "MAJA"; "RAAMAT"; "TALU"]%string
    ["AL"; "MA"; "TA"]%string
    (fun k _ => k)
    (fun l => l).

Definition sock (n : nat) : WebSocket := mkWebSocket n WebSocket_OPEN.

(** A session created for host [p1], joined by [p2] and [p3]. *)
Definition lobby3 : GameSession :=
  run env
    [OpAddPlayer "p1" "Ann" (sock 1); OpAddPlayer "p2" "Bob" (sock 2);
     OpAddPlayer "p3" "Cid" (sock 3)]%string
    (newGameSession "g1" "game" "p1").

(** All three are ready and the host starts the match at time 0. *)
Definition playing3 : GameSession :=
  run env
    [OpSetPlayerReady "p1" true; OpSetPlayerReady "p2" true;
     OpSetPlayerReady "p3" true; OpStartGame 0]%string
    lobby3.

(** The same with two players. *)
Definition lobby2 : GameSession :=
  run env
    [OpAddPlayer "p1" "Ann" (sock 1); OpAddPlayer "p2" "Bob" (sock 2)]%string
    (newGameSession "g1" "game" "p1").

Definition playing2 : GameSession :=
  run env
    [OpSetPlayerReady "p1" true; OpSetPlayerReady "p2" true; OpStartGame 0]%string
    lobby2.

End Sample.

(** ** Notions used by the statements and their proofs *)

(** The player stored under [k], if any, is not ALIVE. *)
Definition notAliveAt (k : string) (s : GameSession) : Prop :=
  forall p, JsMap.get k (players s) = Some p -> state p <> ALIVE.

(** The match-scoped part of a session: everything but the phase, the
    timer and the log of messages. *)
Definition core (s : GameSession) :=
  (players s, usedWords s, failedCombos s, currentCombo s, comboCalls s,
   currentTurnPlayerId s, roundStartPlayerId s, hostId s, turnDuration s).

(** The tests of the rule chain, in the design document's words. *)
Definition alreadyUsed (E : Env) (word : string) (usedWords0 : JsSet.t) : bool :=
  JsSet.has (toUpperCase E word) usedWords0.

Definition containsCombo (E : Env) (word combo : string) : bool :=
  includes (toUpperCase E combo) (toUpperCase E word).

Definition inDictionary (E : Env) (word : string) : bool :=
  JsSet.has (toUpperCase E word) (wordSet E).

(** The id of the only ALIVE player, when there is exactly one. *)
Definition soleAliveId (s : GameSession) : option string :=
  match filter (fun p => PlayerState_eqb (state p) ALIVE) (JsMap.values (players s)) with
  | [p] => Some (id p)
  | _ => None
  end.

(** Every id of the roster is a non-empty string (ids are UUIDs). *)
Definition idsNonEmpty (s : GameSession) : Prop :=
  forall p, In p (JsMap.values (players s)) -> id p <> ""%string.


(** The last three steps of [processTurnResult]: the two broadcasts, the
    win check and the restart of the timer leave the core as it is. *)
Definition finishTurn (E : Env) (k : string) (result : TurnResult) (word : string)
    (now : Z) (s1 : GameSession) : GameSession :=
  let s2 :=
    match JsMap.get k (players s1) with
    | Some player =>
        broadcast (MsgPLAYER_UPDATE (id player) (lives player) (score player)
                     (state player)) s1
    | None => s1
    end in
  let s3 :=
    match JsMap.get k (players s2) with
    | Some player =>
        broadcast (MsgTURN_RESULT (id player) result (currentTurnPlayerId s2)
                     (currentCombo s2) word None) s2
    | None => s2
    end in
  let (won, s4) := checkWinCondition E s3 in
  if won then s4 else startTurnTimer now s4.

(** The bookkeeping of a CORRECT result, before the turn moves. *)
Definition bookCorrect (E : Env) (k word : string) (s0 : GameSession) : GameSession :=
  let a := modifyPlayer k (fun p => set_score (score p + 1)%Z p) s0 in
  let b := set_usedWords (JsSet.add (toUpperCase E word) (usedWords a)) a in
  modifyPlayer k (set_currentInput ""%string) b.

(** The bookkeeping of a TIMEOUT, before the turn moves. *)
Definition bookTimeout (k : string) (s0 : GameSession) : GameSession :=
  let a := set_failedCombos (JsSet.add (currentCombo s0) (failedCombos s0)) s0 in
  let b := modifyPlayer k (fun p => set_lives (lives p - 1)%Z p) a in
  let c :=
    match JsMap.get k (players b) with
    | Some player =>
        if (lives player <=? 0)%Z then
          broadcast (MsgPLAYER_ELIMINATED (id player))
            (modifyPlayer k (set_state ELIMINATED) b)
        else b
    | None => b
    end in
  modifyPlayer k (set_currentInput ""%string) c.

(** [p1] and [p2] are ready, [p3] is not. *)
Definition Sample_two_ready : GameSession :=
  run Sample.env [OpSetPlayerReady "p1" true; OpSetPlayerReady "p2" true]%string
    Sample.lobby3.

(** The operations that reset the match-scoped state. *)
Definition isReset (op : Op) : bool :=
  match op with
  | OpStartGame _ | OpReturnToLobby => true
  | _ => false
  end.

(** The failures of [joinGame] under the names of the design document. *)
Definition SessionNotFound : option string := Some "Game not found"%string.
Definition SessionInProgress : option string := Some "Game already started"%string.
Definition SessionFull : option string := Some "Game is full"%string.

(** The claim as the design document states it, for a registered client. *)
Definition joinSession_as_stated : Prop :=
  forall (w : WebSocket) (gameId0 playerName : string) (m : LobbyManager)
         (c : ClientInfo),
    clients_get w (clients m) = Some c ->
    let r := joinGame w gameId0 playerName m in
    (JsMap.get gameId0 (games m) = None -> reason (fst r) = SessionNotFound) /\
    (forall g, JsMap.get gameId0 (games m) = Some g ->
       (reason (fst r) = SessionInProgress <->
        phase g <> LOBBY /\ phase g <> GAME_OVER)) /\
    (forall g, JsMap.get gameId0 (games m) = Some g ->
       MAX_PLAYERS <= playerCount g -> reason (fst r) = SessionFull) /\
    (success (fst r) = false -> snd r = m).

(** The two-player match after five timeouts: [p1] has lost its three
    lives and the match is over. *)
Definition Sample_over : GameSession :=
  run Sample.env
    [OpTick 10000; OpTick 20000; OpTick 30000; OpTick 40000; OpTick 50000]%Z
    Sample.playing2.

(** A registry holding that session and a registered client outside it. *)
Definition Sample_registry : LobbyManager :=
  mkLobbyManager [("g1"%string, Sample_over)]
    [(9, mkClientInfo (Sample.sock 9) "p9" None)].

(** The turn-ownership guard shared by [handleTurnInput] and
    [handleTurnSubmit]. *)
Definition ownsTurn (playerId : string) (s : GameSession) : Prop :=
  phase s = PLAYING /\ playerId = currentTurnPlayerId s /\
  exists p, JsMap.get playerId (players s) = Some p /\ state p = ALIVE.

(** The claim as the design document states it: under the guard the echo
    reaches the other participants and not the typist, and no game state
    changes. *)
Definition handleTurnInput_as_stated : Prop :=
  forall (s : GameSession) (playerId input : string) (p : Player),
    phase s = PLAYING -> playerId = currentTurnPlayerId s ->
    JsMap.get playerId (players s) = Some p -> state p = ALIVE ->
    let s' := handleTurnInput playerId input s in
    core s' = core s /\
    exists out, sent s' = sent s ++ out /\
                forall w m, In (w, m) out -> wsId w <> wsId (ws p).

(** The player stored under [k] is ALIVE. *)
Definition aliveKey (s : GameSession) (k : string) : bool :=
  match JsMap.get k (players s) with
  | Some p => PlayerState_eqb (state p) ALIVE
  | None => false
  end.

(** The keys in the order in which [n] rounds of the loop started at index
    [i] read them. *)
Definition scanOrder (ids : list string) (i n : nat) : list string :=
  map (fun j => nth ((i + j) mod length ids) ids ""%string) (seq 0 n).

(** The roster rotated so that it starts right after the holder of the
    turn and ends with that holder; the whole roster when the holder is no
    longer in it. *)
Definition roundRobin (s : GameSession) : list string :=
  let ids := JsMap.keys (players s) in
  let i := Z.to_nat ((indexOf (currentTurnPlayerId s) ids + 1)
                       mod Z.of_nat (length ids)) in
  skipn i ids ++ firstn i ids.

(** The first ALIVE player after the holder of the turn in that order. *)
Definition nextAlive (s : GameSession) : option string :=
  find (aliveKey s) (roundRobin s).

(** The round-start player the selection compares with: the tracked one
    if its player is still stored and ALIVE, the selected player
    otherwise. *)
Definition roundStartChecked (s : GameSession) (k : string) : string :=
  if aliveKey s (roundStartPlayerId s) then roundStartPlayerId s else k.

(** What a timeout does to the player who held the turn: one life less,
    ELIMINATED when none is left, transient input cleared. *)
Definition timeoutPlayer (p : Player) : Player :=
  let p1 := set_lives (lives p - 1)%Z p in
  let p2 := if (lives p1 <=? 0)%Z then set_state ELIMINATED p1 else p1 in
  set_currentInput ""%string p2.

(** The session once the timeout is booked and before the turn moves. *)
Definition timeoutBooked (s : GameSession) : GameSession :=
  set_failedCombos (JsSet.add (currentCombo s) (failedCombos s))
    (modifyPlayer (currentTurnPlayerId s) timeoutPlayer s).

(** The states a run goes through, the initial one left out. *)
Fixpoint history (E : Env) (ops : list Op) (s : GameSession) : list GameSession :=
  match ops with
  | [] => []
  | op :: ops' => step E op s :: history E ops' (step E op s)
  end.

(** Who holds the turn, how many combos have been generated and which one
    is current. *)
Definition turnView (s : GameSession) : string * nat * string :=
  (currentTurnPlayerId s, comboCalls s, currentCombo s).

(** What the invariant on lives reads of a player: id, state and lives. *)
Abbreviation Vital := (string * PlayerState * Z)%type.

Definition vital (p : Player) : Vital := (id p, state p, lives p).

Definition vitals (m : JsMap.t Player) : JsMap.t Vital :=
  map (fun kv => (fst kv, vital (snd kv))) m.

Definition vitalOk (k : string) (v : Vital) : Prop :=
  let '(i, st, n) := v in
  i = k /\ (0 <= n <= DEFAULT_LIVES)%Z /\ (st = ALIVE -> (1 <= n)%Z).

(** Keys are unique, every player is stored under its id, lives are
    between 0 and the default, and an ALIVE player has a life left. *)
Definition rosterOk (m : JsMap.t Vital) : Prop :=
  NoDup (JsMap.keys m) /\ forall k v, In (k, v) m -> vitalOk k v.

(** The player stored under [cur], if any, has a life left. *)
Definition holderOk (m : JsMap.t Vital) (cur : string) : Prop :=
  forall v, JsMap.get cur m = Some v -> (1 <= snd v)%Z.

(** The invariant: the roster is well formed and, while the interval is
    armed, the holder of the turn has a life left. *)
Definition Inv (s : GameSession) : Prop :=
  rosterOk (vitals (players s)) /\
  (tickInterval s = true -> holderOk (vitals (players s)) (currentTurnPlayerId s)).

(** What a timeout does to the vital part of the holder of the turn. *)
Definition timeoutVital (v : Vital) : Vital :=
  let '(i, st, n) := v in
  (i, if (n - 1 <=? 0)%Z then ELIMINATED else st, (n - 1)%Z).

(** What the first loop of [startGame] does to the vital part. *)
Definition readyVital (v : Vital) : Vital :=
  let '(i, st, n) := v in
  if PlayerState_eqb st READY then (i, ALIVE, DEFAULT_LIVES) else v.

(** ** More of game-logic.ts *)

Definition getValidWordsForCombo (E : Env) (combo : string) (usedWords0 : JsSet.t)
  : list string :=
  let upperCombo := toUpperCase E combo in
  filter (fun word => includes upperCombo word && negb (JsSet.has word usedWords0))
         (wordSet E).

(** The dictionary as [loadWordList] builds it: every entry is non-empty
    and already in upper case. *)
Definition dictionaryNormalised (E : Env) : Prop :=
  forall w, In w (wordSet E) -> w <> ""%string /\ toUpperCase E w = w.

(** The in-place [sort] of [getRandomWordsForCombo] only reorders the
    array it is given. *)
Definition shufflePermutes (E : Env) : Prop :=
  forall l, Permutation l (random_shuffle E l).

(** ** More of messages.ts *)

Definition sendMessage (w : WebSocket) (message : ServerMessage) : list Send :=
  if Nat.eqb (readyState w) WebSocket_OPEN then [(w, message)] else [].

Definition broadcastMessage (clients0 : list WebSocket) (message : ServerMessage)
  : list Send :=
  map (fun w => (w, message))
      (filter (fun w => Nat.eqb (readyState w) WebSocket_OPEN) clients0).

(** ** More of lobby-manager.ts *)

(** [clients.delete(ws)] *)
Definition clients_delete (w : WebSocket) (cs : list (nat * ClientInfo))
  : list (nat * ClientInfo) :=
  filter (fun kc => negb (Nat.eqb (wsId w) (fst kc))) cs.

(** The test [if (client.gameId)]: the id when it is neither [null] nor the
    empty string. *)
Definition truthyGameId (g : option string) : option string :=
  match g with
  | Some gid => if String.eqb gid ""%string then None else Some gid
  | None => None
  end.

(** The block that [unregisterClient] and [leaveGame] share: the player
    leaves the session stored under [gid], and the session is dropped from
    the registry once it is empty. *)
Definition removeFromGame (E : Env) (gid playerId : string)
    (gs : JsMap.t GameSession) : JsMap.t GameSession :=
  match JsMap.get gid gs with
  | Some game =>
      let game' := removePlayer E playerId game in
      if isEmpty game' then JsMap.delete gid gs else JsMap.set gid game' gs
  | None => gs
  end.

Definition unregisterClient (E : Env) (w : WebSocket) (m : LobbyManager)
  : LobbyManager :=
  match clients_get w (clients m) with
  | None => m
  | Some client =>
      let games1 :=
        match truthyGameId (client_gameId client) with
        | Some gid => removeFromGame E gid (client_playerId client) (games m)
        | None => games m
        end in
      mkLobbyManager games1 (clients_delete w (clients m))
  end.

Definition leaveGame (E : Env) (w : WebSocket) (m : LobbyManager) : LobbyManager :=
  match clients_get w (clients m) with
  | None => m
  | Some client =>
      match truthyGameId (client_gameId client) with
      | None => m
      | Some gid =>
          mkLobbyManager
            (removeFromGame E gid (client_playerId client) (games m))
            (clients_set w (mkClientInfo (client_ws client) (client_playerId client) None)
               (clients m))
      end
  end.

Definition getClientInfo (w : WebSocket) (m : LobbyManager) : option ClientInfo :=
  clients_get w (clients m).

Definition getGame (gameId0 : string) (m : LobbyManager) : option GameSession :=
  JsMap.get gameId0 (games m).

Definition getGameForClient (w : WebSocket) (m : LobbyManager) : option GameSession :=
  match clients_get w (clients m) with
  | None => None
  | Some client =>
      match truthyGameId (client_gameId client) with
      | None => None
      | Some gid => JsMap.get gid (games m)
      end
  end.

Record GameInfo := mkGameInfo {
  gi_id : string;
  gi_name : string;
  gi_hostName : string;
  gi_playerCount : nat;
  gi_maxPlayers : nat;
  gi_phase : GamePhase
}.

(** The entry [listGames] pushes for one session; [host?.name || 'Unknown']
    falls back on the empty name too. *)
Definition toGameInfo (game : GameSession) : GameInfo :=
  let players0 := getPlayersInfo game in
  let host := find info_isHost players0 in
  mkGameInfo (game_id game) (game_name game)
    (match host with
     | Some h => if String.eqb (info_name h) ""%string then "Unknown"%string
                 else info_name h
     | None => "Unknown"%string
     end)
    (playerCount game) MAX_PLAYERS (phase game).

Definition listGames (m : LobbyManager) : list GameInfo :=
  map toGameInfo
      (filter (fun game => GamePhase_eqb (phase game) LOBBY) (JsMap.values (games m))).

(** [LobbyManager.startGame(ws)]; the session mutated by [game.startGame()]
    is the one the registry holds. *)
Definition managerStartGame (E : Env) (w : WebSocket) (now : Z) (m : LobbyManager)
  : bool * LobbyManager :=
  match clients_get w (clients m) with
  | None => (false, m)
  | Some client =>
      match truthyGameId (client_gameId client) with
      | None => (false, m)
      | Some gid =>
          match JsMap.get gid (games m) with
          | None => (false, m)
          | Some game =>
              if negb (isHostOf (client_playerId client) game) then (false, m)
              else
                let r := startGame E now game in
                (fst r, mkLobbyManager (JsMap.set gid (snd r) (games m)) (clients m))
          end
      end
  end.

(** ** index.ts: the handlers that drive a session *)

(** The lookups every handler starts with: [getClientInfo(ws)], the test
    of [client.gameId] and [getGame(client.gameId)]. *)
Definition clientGame (w : WebSocket) (m : LobbyManager)
  : option (ClientInfo * string * GameSession) :=
  match clients_get w (clients m) with
  | None => None
  | Some client =>
      match truthyGameId (client_gameId client) with
      | None => None
      | Some gid =>
          match JsMap.get gid (games m) with
          | None => None
          | Some game => Some (client, gid, game)
          end
      end
  end.

(** The session object is mutated in place: the registry holds the new
    state under the same key. *)
Definition storeGame (gid : string) (game : GameSession) (m : LobbyManager)
  : LobbyManager :=
  mkLobbyManager (JsMap.set gid game (games m)) (clients m).

Definition handlePlayerReady (w : WebSocket) (ready : bool) (m : LobbyManager)
  : LobbyManager :=
  match clientGame w m with
  | None => m
  | Some (client, gid, game) =>
      storeGame gid (setPlayerReady (client_playerId client) ready game) m
  end.

Definition handleStartGame (E : Env) (w : WebSocket) (now : Z) (m : LobbyManager)
  : LobbyManager :=
  match clientGame w m with
  | None => m
  | Some (client, gid, game) =>
      if negb (isHostOf (client_playerId client) game) then m
      else if canStartGame game then storeGame gid (snd (startGame E now game)) m
      else m
  end.

Definition handleReturnToLobby (w : WebSocket) (m : LobbyManager) : LobbyManager :=
  match clientGame w m with
  | None => m
  | Some (client, gid, game) =>
      if negb (GamePhase_eqb (phase game) GAME_OVER) then m
      else storeGame gid (returnToLobby game) m
  end.

Definition gatewayTurnInput (w : WebSocket) (input : string) (m : LobbyManager)
  : LobbyManager :=
  match clientGame w m with
  | None => m
  | Some (client, gid, game) =>
      storeGame gid (handleTurnInput (client_playerId client) input game) m
  end.

Definition gatewayTurnSubmit (E : Env) (w : WebSocket) (word : string) (now : Z)
    (m : LobbyManager) : LobbyManager :=
  match clientGame w m with
  | None => m
  | Some (client, gid, game) =>
      storeGame gid (handleTurnSubmit E (client_playerId client) word now game) m
  end.

(** The interval callback of the session stored under [gid]. *)
Definition gatewayTick (E : Env) (gid : string) (now : Z) (m : LobbyManager)
  : LobbyManager :=
  match JsMap.get gid (games m) with
  | None => m
  | Some game => storeGame gid (tick E now game) m
  end.

(** ** The registry as a transition system *)

(** The calls that reach the registry: the methods of [LobbyManager], the
    handlers of index.ts and the timer of a stored session.
    [LReturnToLobby] is the handler [handleReturnToLobby]; the protocol files
    at hand declare no message type for it, so that it is listed here only
    makes the set of states a server is taken to reach larger. *)
Inductive LobbyOp :=
| LRegister (uuid : string) (w : WebSocket)
| LUnregister (w : WebSocket)
| LCreate (gameId0 : string) (w : WebSocket) (hostName gameName : string)
| LJoin (w : WebSocket) (gameId0 playerName : string)
| LLeave (w : WebSocket)
| LManagerStart (w : WebSocket) (now : Z)
| LReady (w : WebSocket) (ready : bool)
| LStart (w : WebSocket) (now : Z)
| LReturnToLobby (w : WebSocket)
| LTurnInput (w : WebSocket) (input : string)
| LTurnSubmit (w : WebSocket) (word : string) (now : Z)
| LTick (gid : string) (now : Z).

Definition lobbyStep (E : Env) (op : LobbyOp) (m : LobbyManager) : LobbyManager :=
  match op with
  | LRegister uuid w => snd (registerClient uuid w m)
  | LUnregister w => unregisterClient E w m
  | LCreate gameId0 w hostName gameName => snd (createGame gameId0 w hostName gameName m)
  | LJoin w gameId0 playerName => snd (joinGame w gameId0 playerName m)
  | LLeave w => leaveGame E w m
  | LManagerStart w now => snd (managerStartGame E w now m)
  | LReady w ready => handlePlayerReady w ready m
  | LStart w now => handleStartGame E w now m
  | LReturnToLobby w => handleReturnToLobby w m
  | LTurnInput w input => gatewayTurnInput w input m
  | LTurnSubmit w word now => gatewayTurnSubmit E w word now m
  | LTick gid now => gatewayTick E gid now m
  end.

(** [new LobbyManager()] *)
Definition newLobbyManager : LobbyManager := mkLobbyManager [] [].

Inductive lobbyReachable (E : Env) : LobbyManager -> Prop :=
| lobbyReachable_new : lobbyReachable E newLobbyManager
| lobbyReachable_step op m :
    lobbyReachable E m -> lobbyReachable E (lobbyStep E op m).

Definition lobbyRun (E : Env) (ops : list LobbyOp) (m : LobbyManager) : LobbyManager :=
  fold_left (fun acc op => lobbyStep E op acc) ops m.

(** ** Notions used by the further properties *)

(** Two player objects that differ at most in [isHost] and
    [currentInput]. *)
Definition samePlayerButFlags (p p' : Player) : Prop :=
  id p' = id p /\ name p' = name p /\ state p' = state p /\
  lives p' = lives p /\ score p' = score p /\ ws p' = ws p.

(** Two rosters with the same keys in the same order whose players
    differ at most in those two fields. *)
Definition sameRoster (m m' : JsMap.t Player) : Prop :=
  Forall2 (fun a b => fst b = fst a /\ samePlayerButFlags (snd a) (snd b)) m m'.

(** The host hand-over of [removePlayer], applied once the player is
    deleted. *)
Definition handOverHost (player : Player) (s1 : GameSession) : GameSession :=
  if isHost player && (0 <? JsMap.size (players s1)) then
    match players s1 with
    | (k, newHost) :: rest =>
        set_hostId (id newHost)
          (set_players ((k, set_isHost true newHost) :: rest) s1)
    | [] => s1
    end
  else s1.

(** What [removePlayer] does after the hand-over: the turn moves on when
    its holder left, the win condition is checked, the roster is
    announced. *)
Definition removePlayer_tail_state (E : Env) (k : string) (s2 : GameSession)
  : GameSession :=
  broadcastPlayerList
    (if GamePhase_eqb (phase s2) PLAYING then
       snd (checkWinCondition E
              (if String.eqb (currentTurnPlayerId s2) k
               then advanceToNextPlayer E false s2 else s2))
     else s2).

(** What a CORRECT answer does to the player who gave it: one point
    more, transient input cleared. *)
Definition awardPoint (p : Player) : Player :=
  set_currentInput ""%string (set_score (score p + 1)%Z p).

(** The words sent along with GAME_OVER. *)
Definition failedCombosWithWords (E : Env) (s : GameSession)
  : list (string * list string) :=
  map (fun combo => (combo, getRandomWordsForCombo E combo 3)) (failedCombos s).

(** A player as a lobby shows it: CONNECTED or READY, with the default
    lives, no score and no transient input. *)
Definition tidyPlayer (p : Player) : Prop :=
  (state p = CONNECTED \/ state p = READY) /\ lives p = DEFAULT_LIVES /\
  score p = 0%Z /\ currentInput p = ""%string.

(** How an operation other than [returnToLobby] may change the phase and
    the timer: not at all, or the timer is off afterwards with the phase kept
    or GAME_OVER, or a turn is running in a PLAYING session. *)
Definition statusOutcome (s s' : GameSession) : Prop :=
  (phase s' = phase s /\ tickInterval s' = tickInterval s) \/
  (tickInterval s' = false /\ (phase s' = GAME_OVER \/ phase s' = phase s)) \/
  (phase s' = PLAYING /\ tickInterval s' = true).

(** The registry is well formed: ids are unique, and every session it
    holds is stored under its own id, has a player, and is in a state the
    session can reach from its construction. *)
Definition registryOk (E : Env) (m : LobbyManager) : Prop :=
  NoDup (JsMap.keys (games m)) /\
  forall gid g, In (gid, g) (games m) ->
    reachable E g /\ game_id g = gid /\ isEmpty g = false.

(** A server on which Ann has created the game [g1] and Bob has joined
    it. *)
Definition Sample_server : LobbyManager :=
  lobbyRun Sample.env
    [LRegister "p1" (Sample.sock 1); LCreate "g1" (Sample.sock 1) "Ann" "game";
     LRegister "p2" (Sample.sock 2); LJoin (Sample.sock 2) "g1" "Bob"]%string
    newLobbyManager.

(** The same server once both players are ready. *)
Definition Sample_server_ready : LobbyManager :=
  lobbyRun Sample.env [LReady (Sample.sock 1) true; LReady (Sample.sock 2) true]
    Sample_server.

(** The game an operation of the registry addresses: the one named in the
    request, or the one the sender is in. *)
Definition addressedGame (op : LobbyOp) (m : LobbyManager) : option string :=
  match op with
  | LRegister _ _ => None
  | LCreate gameId0 _ _ _ => Some gameId0
  | LJoin _ gameId0 _ => Some gameId0
  | LTick gid _ => Some gid
  | LUnregister w | LLeave w | LManagerStart w _ | LReady w _ | LStart w _
  | LReturnToLobby w | LTurnInput w _ | LTurnSubmit w _ _ =>
      match clients_get w (clients m) with
      | Some c => truthyGameId (client_gameId c)
      | None => None
      end
  end.

(** The socket an operation of the registry comes from; the timer has
    none. *)
Definition senderOf (op : LobbyOp) : option WebSocket :=
  match op with
  | LTick _ _ => None
  | LRegister _ w | LUnregister w | LCreate _ w _ _ | LJoin w _ _ | LLeave w
  | LManagerStart w _ | LReady w _ | LStart w _ | LReturnToLobby w
  | LTurnInput w _ | LTurnSubmit w _ _ => Some w
  end.

(** The fields of a session that no operation assigns. *)
Definition fixedPart (s : GameSession) : string * string * Q :=
  (game_id s, game_name s, turnDuration s).

(** The three-player match after a correct answer of [p1], with [p1] and
    [p2] ready again while the match goes on. *)
Definition Sample_restart : GameSession :=
  run Sample.env
    [OpHandleTurnSubmit "p1" "kala" 500; OpSetPlayerReady "p1" true;
     OpSetPlayerReady "p2" true]%string%Z
    Sample.playing3.

(** The three-player match in which the holder of the turn, [p1], has
    declared itself ready. *)
Definition Sample_ready_holder : GameSession :=
  run Sample.env [OpSetPlayerReady "p1" true]%string Sample.playing3.

(** The three-player match after the first timeout. *)
Definition Sample_after_timeout : GameSession :=
  run Sample.env [OpTick 10000]%Z Sample.playing3.

(** The claim on the used words as the design document states it: empty
    after a start that succeeds and after a return to the lobby, and nothing
    removed by a step that begins and ends in PLAYING. *)
Definition usedWords_lifecycle_as_stated : Prop :=
  forall E : Env,
    (forall now s, fst (startGame E now s) = true ->
                   usedWords (snd (startGame E now s)) = []) /\
    (forall s, usedWords (returnToLobby s) = []) /\
    (forall op s, reachable E s ->
       phase s = PLAYING -> phase (step E op s) = PLAYING ->
       incl (usedWords s) (usedWords (step E op s))).

(** The claim on the lives as the design document states it: an ALIVE
    player has a life, and a life is only taken, on a timeout, from the player
    who holds the turn and is ALIVE. *)
Definition lives_as_stated : Prop :=
  forall (E : Env) (s : GameSession), reachable E s ->
    (forall k p, JsMap.get k (players s) = Some p ->
       state p = ALIVE -> (1 <= lives p)%Z) /\
    (forall op k p p',
       JsMap.get k (players s) = Some p ->
       JsMap.get k (players (step E op s)) = Some p' ->
       (lives p' < lives p)%Z ->
       (exists now, op = OpTick now) /\ k = currentTurnPlayerId s /\
       state p = ALIVE).

(** The first entry of a roster whose player is ALIVE. *)
Definition firstAlive (m : JsMap.t Player) : option (string * Player) :=
  find (fun kv => PlayerState_eqb (state (snd kv)) ALIVE) m.

(** ** Tactics *)

Ltac break_match :=
  match goal with
  | |- context [match ?x with _ => _ end] => destruct x eqn:?
  end.

(** Reading single fields off an equation between cores. *)
Ltac core_fields H :=
  unfold core in H; injection H as ? ? ? ? ? ? ? ? ?.

Ltac nodup_keys :=
  vm_compute; repeat constructor; simpl; intuition discriminate.

(** ** Decidable equalities of the enums *)

Lemma PlayerState_eqb_eq a b : PlayerState_eqb a b = true <-> a = b.
Proof. destruct a, b; simpl; split; congruence. Qed.

Lemma GamePhase_eqb_eq a b : GamePhase_eqb a b = true <-> a = b.
Proof. destruct a, b; simpl; split; congruence. Qed.

(** ** Lemmas on the containers *)

Lemma JsSet_has_In x s : JsSet.has x s = true <-> In x s.
Proof.
  unfold JsSet.has. rewrite existsb_exists. split.
  - intros [y [Hy He]]. apply String.eqb_eq in He. now subst.
  - intros H. exists x. split; [assumption | apply String.eqb_refl].
Qed.

Lemma JsSet_add_In x y s : In y (JsSet.add x s) <-> y = x \/ In y s.
Proof.
  unfold JsSet.add. destruct (JsSet.has x s) eqn:Hh.
  - apply JsSet_has_In in Hh. split; [now right | intros [-> | H]; assumption].
  - rewrite in_app_iff. simpl. split.
    + intros [H | [H | []]]; [now right | now left].
    + intros [-> | H]; [right; now left | now left].
Qed.

Lemma JsSet_add_incl x s : incl s (JsSet.add x s).
Proof. intros y Hy. apply JsSet_add_In. now right. Qed.

Section MapLemmas.

Variable V : Type.
Implicit Types (m : JsMap.t V) (k : string) (v : V).

Lemma get_In k m v : JsMap.get k m = Some v -> In (k, v) m.
Proof.
  induction m as [|[k' v'] m IH]; simpl; [discriminate|].
  destruct (String.eqb k k') eqn:He.
  - apply String.eqb_eq in He. intros [= ->]. subst. now left.
  - intros H. right. now apply IH.
Qed.

Lemma get_In_values k m v : JsMap.get k m = Some v -> In v (JsMap.values m).
Proof.
  intros H. apply get_In in H. unfold JsMap.values.
  change v with (snd (k, v)). now apply in_map.
Qed.

Lemma get_In_keys k m v : JsMap.get k m = Some v -> In k (JsMap.keys m).
Proof.
  intros H. apply get_In in H. unfold JsMap.keys.
  change k with (fst (k, v)). now apply in_map.
Qed.

Lemma In_keys_get k m : In k (JsMap.keys m) -> exists v, JsMap.get k m = Some v.
Proof.
  induction m as [|[k' v'] m IH]; simpl; [intros []|].
  destruct (String.eqb k k') eqn:He; [eauto|].
  intros [H | H]; [subst; now rewrite String.eqb_refl in He | now apply IH].
Qed.

Lemma get_modify k k' f m :
  JsMap.get k (JsMap.modify k' f m) =
  if String.eqb k' k then option_map f (JsMap.get k m) else JsMap.get k m.
Proof.
  induction m as [|[k1 v1] m IH]; simpl; [now destruct (String.eqb k' k)|].
  destruct (String.eqb k' k1) eqn:H1; simpl.
  - destruct (String.eqb k k1) eqn:H2.
    + apply String.eqb_eq in H1, H2. subst. now rewrite String.eqb_refl.
    + rewrite IH. reflexivity.
  - destruct (String.eqb k k1) eqn:H2.
    + apply String.eqb_eq in H2. subst. now rewrite H1.
    + apply IH.
Qed.

Lemma get_forEach k f m :
  JsMap.get k (JsMap.forEach f m) = option_map f (JsMap.get k m).
Proof.
  induction m as [|[k1 v1] m IH]; simpl; [reflexivity|].
  destruct (String.eqb k k1); [reflexivity | apply IH].
Qed.

Lemma keys_modify k f m : JsMap.keys (JsMap.modify k f m) = JsMap.keys m.
Proof.
  unfold JsMap.keys, JsMap.modify. rewrite map_map. apply map_ext.
  intros [k1 v1]. simpl. now destruct (String.eqb k k1).
Qed.

Lemma keys_forEach f m : JsMap.keys (JsMap.forEach f m) = JsMap.keys m.
Proof.
  unfold JsMap.keys, JsMap.forEach. rewrite map_map. now apply map_ext.
Qed.

Lemma values_forEach f m : JsMap.values (JsMap.forEach f m) = map f (JsMap.values m).
Proof.
  unfold JsMap.values, JsMap.forEach. now rewrite !map_map.
Qed.

Lemma size_modify k f m : JsMap.size (JsMap.modify k f m) = JsMap.size m.
Proof. unfold JsMap.size, JsMap.modify. apply length_map. Qed.

Lemma In_modify k f m k1 v :
  In (k1, v) (JsMap.modify k f m) ->
  exists v0, In (k1, v0) m /\ v = if String.eqb k k1 then f v0 else v0.
Proof.
  unfold JsMap.modify. rewrite in_map_iff. intros [[k2 v2] [He Hi]]. simpl in He.
  destruct (String.eqb k k2) eqn:H2; injection He as Hk Hv; exists v2;
    rewrite <- Hk, H2; auto.
Qed.

Lemma In_forEach f m k1 v :
  In (k1, v) (JsMap.forEach f m) -> exists v0, In (k1, v0) m /\ v = f v0.
Proof.
  unfold JsMap.forEach. rewrite in_map_iff. intros [[k2 v2] [He Hi]].
  simpl in He. inversion He; subst. eauto.
Qed.

Lemma In_delete k m k1 v :
  In (k1, v) (JsMap.delete k m) <-> In (k1, v) m /\ k <> k1.
Proof.
  unfold JsMap.delete. rewrite filter_In. simpl.
  rewrite negb_true_iff, String.eqb_neq. reflexivity.
Qed.

Lemma In_set k v m k1 v1 :
  In (k1, v1) (JsMap.set k v m) -> (k1 = k /\ v1 = v) \/ In (k1, v1) m.
Proof.
  induction m as [|[k2 v2] m IH]; simpl.
  - intros [H | []]. inversion H. auto.
  - destruct (String.eqb k k2) eqn:H2; simpl.
    + intros [H | H]; [inversion H; auto | auto].
    + intros [H | H]; [auto | destruct (IH H); auto].
Qed.

Lemma keys_set_incl k v m k1 :
  In k1 (JsMap.keys (JsMap.set k v m)) -> k1 = k \/ In k1 (JsMap.keys m).
Proof.
  induction m as [|[k2 v2] m IH]; simpl.
  - intros [H | []]; auto.
  - destruct (String.eqb k k2) eqn:H2; simpl.
    + apply String.eqb_eq in H2. subst. intros [H | H]; auto.
    + intros [H | H]; [auto | destruct (IH H); auto].
Qed.

Lemma NoDup_keys_set k v m :
  NoDup (JsMap.keys m) -> NoDup (JsMap.keys (JsMap.set k v m)).
Proof.
  induction m as [|[k2 v2] m IH]; simpl; intros H.
  - constructor; [intros [] | constructor].
  - inversion H as [|? ? Hn Hd]; subst.
    destruct (String.eqb k k2) eqn:H2; simpl.
    + apply String.eqb_eq in H2. subst. now constructor.
    + constructor; [|now apply IH].
      intros Hi. apply keys_set_incl in Hi. destruct Hi as [-> | Hi].
      * now rewrite String.eqb_refl in H2.
      * now apply Hn.
Qed.

Lemma NoDup_keys_delete k m :
  NoDup (JsMap.keys m) -> NoDup (JsMap.keys (JsMap.delete k m)).
Proof.
  induction m as [|[k2 v2] m IH]; simpl; intros H; [assumption|].
  inversion H as [|? ? Hn Hd]; subst.
  destruct (negb (String.eqb k k2)); simpl; [|now apply IH].
  constructor; [|now apply IH].
  intros Hi. apply Hn. unfold JsMap.keys, JsMap.delete in Hi.
  apply in_map_iff in Hi. destruct Hi as [[k3 v3] [He Hi]]. simpl in He. subst.
  apply filter_In in Hi. destruct Hi as [Hi _].
  unfold JsMap.keys. change k2 with (fst (k2, v3)). now apply in_map.
Qed.

Lemma get_delete_same k m : JsMap.get k (JsMap.delete k m) = None.
Proof.
  induction m as [|[k2 v2] m IH]; simpl; [reflexivity|].
  destruct (String.eqb k k2) eqn:H2; simpl; [assumption|].
  now rewrite H2.
Qed.

Lemma get_delete_other k k1 m :
  k <> k1 -> JsMap.get k1 (JsMap.delete k m) = JsMap.get k1 m.
Proof.
  intros Hne. induction m as [|[k2 v2] m IH]; simpl; [reflexivity|].
  destruct (String.eqb k k2) eqn:H2; simpl.
  - apply String.eqb_eq in H2. subst.
    destruct (String.eqb k1 k2) eqn:H3; [|assumption].
    apply String.eqb_eq in H3. congruence.
  - now rewrite IH.
Qed.

Lemma NoDup_In_get k v m :
  NoDup (JsMap.keys m) -> In (k, v) m -> JsMap.get k m = Some v.
Proof.
  induction m as [|[k2 v2] m IH]; simpl; intros Hd Hi; [contradiction|].
  inversion Hd as [|? ? Hn Hd']; subst.
  destruct Hi as [H | H].
  - inversion H; subst. now rewrite String.eqb_refl.
  - destruct (String.eqb k k2) eqn:H2.
    + apply String.eqb_eq in H2. subst. exfalso. apply Hn.
      unfold JsMap.keys. change k2 with (fst (k2, v)). now apply in_map.
    + now apply IH.
Qed.

Lemma In_values_entry v m : In v (JsMap.values m) -> exists k, In (k, v) m.
Proof.
  unfold JsMap.values. rewrite in_map_iff. intros [[k v'] [He Hi]].
  simpl in He. subst. eauto.
Qed.

Lemma In_entry_values k v m : In (k, v) m -> In v (JsMap.values m).
Proof.
  intros H. unfold JsMap.values. change v with (snd (k, v)). now apply in_map.
Qed.

End MapLemmas.

(** ** The scan of [advanceToNextPlayer] *)

Section Advance.

Variable E : Env.

Lemma advanceLoop_cases force ids n i s :
  i < length ids ->
  (advanceLoop E force ids n i s = s /\
   forall j, j < n -> notAliveAt (nth ((i + j) mod length ids) ids ""%string) s)
  \/ (exists k p, JsMap.get k (players s) = Some p /\ state p = ALIVE /\
                  advanceLoop E force ids n i s = selectNextPlayer E force k s).
Proof.
  revert i. induction n as [|n IH]; intros i Hi; simpl.
  - left. split; [reflexivity | intros j Hj; lia].
  - assert (Hlen : length ids <> 0) by lia.
    assert (Hi' : (i + 1) mod length ids < length ids)
      by (apply Nat.mod_upper_bound; exact Hlen).
    assert (Hshift : forall j, ((i + 1) mod length ids + j) mod length ids
                               = (i + S j) mod length ids).
    { intros j. rewrite Nat.Div0.add_mod_idemp_l. f_equal. lia. }
    assert (Hhere : forall j, j < S n ->
              (notAliveAt (nth i ids ""%string) s) ->
              (forall j', j' < n ->
                 notAliveAt (nth (((i + 1) mod length ids + j') mod length ids) ids ""%string) s) ->
              notAliveAt (nth ((i + j) mod length ids) ids ""%string) s).
    { intros j Hj H0 Hrest. destruct j as [|j].
      - rewrite Nat.add_0_r, Nat.mod_small by exact Hi. exact H0.
      - rewrite <- Hshift. apply Hrest. lia. }
    destruct (JsMap.get (nth i ids ""%string) (players s)) as [p|] eqn:Hg.
    + destruct (PlayerState_eqb (state p) ALIVE) eqn:Ha.
      * right. exists (nth i ids ""%string), p.
        apply PlayerState_eqb_eq in Ha. auto.
      * destruct (IH _ Hi') as [[Heq Hall] | Hsel]; [left | now right].
        split; [exact Heq|]. intros j Hj. apply (Hhere j Hj); [|exact Hall].
        intros p' Hp'. rewrite Hg in Hp'. injection Hp' as <-.
        intros Hst. apply PlayerState_eqb_eq in Hst. congruence.
    + destruct (IH _ Hi') as [[Heq Hall] | Hsel]; [left | now right].
      split; [exact Heq|]. intros j Hj. apply (Hhere j Hj); [|exact Hall].
      intros p' Hp'. congruence.
Qed.

(** The scan visits every index of the roster once. *)
Lemma scan_covers len i idx :
  i < len -> idx < len -> exists j, j < len /\ (i + j) mod len = idx.
Proof.
  intros Hi Hidx. exists ((idx + len - i) mod len). split.
  - apply Nat.mod_upper_bound. lia.
  - rewrite Nat.Div0.add_mod_idemp_r.
    replace (i + (idx + len - i)) with (idx + 1 * len) by lia.
    rewrite Nat.Div0.mod_add. now apply Nat.mod_small.
Qed.

(** Either no stored player is ALIVE and nothing changes, or the scan
    stops at an ALIVE player and takes the selection branch. *)
Lemma advanceToNextPlayer_cases force s :
  (advanceToNextPlayer E force s = s /\
   forall k p, JsMap.get k (players s) = Some p -> state p <> ALIVE)
  \/ (exists k p, JsMap.get k (players s) = Some p /\ state p = ALIVE /\
                  advanceToNextPlayer E force s = selectNextPlayer E force k s).
Proof.
  unfold advanceToNextPlayer.
  destruct (Nat.eqb (length (JsMap.keys (players s))) 0) eqn:Hz.
  - left. split; [reflexivity|]. intros k p Hg.
    apply get_In_keys in Hg. apply Nat.eqb_eq in Hz.
    destruct (JsMap.keys (players s)); [contradiction | discriminate].
  - apply Nat.eqb_neq in Hz.
    set (ids := JsMap.keys (players s)) in *.
    set (i := Z.to_nat ((indexOf (currentTurnPlayerId s) ids + 1)
                          mod Z.of_nat (length ids))).
    assert (Hi : i < length ids).
    { unfold i. pose proof (Z.mod_pos_bound
        (indexOf (currentTurnPlayerId s) ids + 1) (Z.of_nat (length ids))). lia. }
    destruct (advanceLoop_cases force ids (length ids) i s Hi)
      as [[Heq Hall] | Hsel]; [left | now right].
    split; [exact Heq|]. intros k p Hg.
    pose proof (get_In_keys _ _ _ _ Hg) as Hk.
    destruct (In_nth _ _ ""%string Hk) as [idx [Hidx Hnth]].
    destruct (scan_covers (length ids) i idx Hi Hidx) as [j [Hj Hmod]].
    specialize (Hall j Hj). subst ids. rewrite Hmod, Hnth in Hall.
    now apply Hall.
Qed.

End Advance.

(** ** What the helper methods leave untouched *)

Section Frames.

Variable E : Env.

Lemma core_broadcast m s : core (broadcast m s) = core s.
Proof. reflexivity. Qed.

Lemma core_stopTurnTimer s : core (stopTurnTimer s) = core s.
Proof. unfold stopTurnTimer. now destruct (tickInterval s). Qed.

Lemma core_startTurnTimer now s : core (startTurnTimer now s) = core s.
Proof. unfold startTurnTimer. apply core_stopTurnTimer. Qed.

Lemma core_endGame w s : core (endGame E w s) = core s.
Proof. unfold endGame. apply core_stopTurnTimer. Qed.

Lemma core_checkWinCondition s : core (snd (checkWinCondition E s)) = core s.
Proof.
  unfold checkWinCondition. repeat break_match; cbn [snd];
    try apply core_endGame; reflexivity.
Qed.

Lemma phase_stopTurnTimer s : phase (stopTurnTimer s) = phase s.
Proof. unfold stopTurnTimer. now destruct (tickInterval s). Qed.

Lemma sent_stopTurnTimer s : sent (stopTurnTimer s) = sent s.
Proof. unfold stopTurnTimer. now destruct (tickInterval s). Qed.

Lemma tickInterval_stopTurnTimer s : tickInterval (stopTurnTimer s) = false.
Proof. unfold stopTurnTimer. now destruct (tickInterval s) eqn:H. Qed.

End Frames.

(** ** The word validator *)

(** C5. [validateWord] applies the ordered rule chain: the empty word is
    WRONG; otherwise a word whose case-normalised form is in [usedWords] is
    ALREADY_USED; otherwise a word that does not contain the combo, compared
    after case normalisation, is WRONG; otherwise a word missing from the
    dictionary is WRONG; otherwise the word is CORRECT. The result is never
    TIMEOUT. *)
Theorem validateWord_rule_chain (E : Env) (word combo : string) (used : JsSet.t) :
  (word = ""%string -> validateWord E word combo used = WRONG) /\
  (word <> ""%string -> alreadyUsed E word used = true ->
   validateWord E word combo used = ALREADY_USED) /\
  (word <> ""%string -> alreadyUsed E word used = false ->
   containsCombo E word combo = false ->
   validateWord E word combo used = WRONG) /\
  (word <> ""%string -> alreadyUsed E word used = false ->
   containsCombo E word combo = true -> inDictionary E word = false ->
   validateWord E word combo used = WRONG) /\
  (word <> ""%string -> alreadyUsed E word used = false ->
   containsCombo E word combo = true -> inDictionary E word = true ->
   validateWord E word combo used = CORRECT) /\
  validateWord E word combo used <> TIMEOUT.
Proof.
  unfold validateWord, alreadyUsed, containsCombo, inDictionary.
  destruct word as [|c w]; simpl.
  - repeat split; try congruence; discriminate.
  - repeat split; intros; try congruence;
      repeat match goal with H : _ = _ |- _ => rewrite H end; simpl;
      try reflexivity.
    repeat break_match; discriminate.
Qed.

Lemma validateWord_rule_chain_witness :
  validateWord Sample.env "" "AL" [] = WRONG /\
  validateWord Sample.env "Kala" "AL" ["KALA"%string] = ALREADY_USED /\
  validateWord Sample.env "maja" "AL" [] = WRONG /\
  validateWord Sample.env "halb" "AL" [] = WRONG /\
  validateWord Sample.env "salat" "AL" ["KALA"%string] = CORRECT.
Proof.
  destruct (validateWord_rule_chain Sample.env "" "AL" []) as (H1 & _).
  destruct (validateWord_rule_chain Sample.env "Kala" "AL" ["KALA"%string])
    as (_ & H2 & _).
  destruct (validateWord_rule_chain Sample.env "maja" "AL" []) as (_ & _ & H3 & _).
  destruct (validateWord_rule_chain Sample.env "halb" "AL" [])
    as (_ & _ & _ & H4 & _).
  destruct (validateWord_rule_chain Sample.env "salat" "AL" ["KALA"%string])
    as (_ & _ & _ & _ & H5 & _).
  split; [apply H1; reflexivity|].
  split; [apply H2; [discriminate | reflexivity]|].
  split; [apply H3; [discriminate | reflexivity | reflexivity]|].
  split; [apply H4; [discriminate | reflexivity | reflexivity | reflexivity]|].
  apply H5; [discriminate | reflexivity | reflexivity | reflexivity].
Defined.


(** ** The win check *)

(** C2. The win check ends the game exactly when the session has one player
    and none is ALIVE, or has two or more players and at most one is ALIVE;
    it then moves to GAME_OVER and announces as winner the sole ALIVE player,
    or nobody when none is left (in particular in the one-player case).
    Otherwise it reports [false] and changes nothing. *)
Theorem checkWinCondition_spec (E : Env) (s : GameSession) :
  idsNonEmpty s ->
  let size := JsMap.size (players s) in
  let won := fst (checkWinCondition E s) in
  let s' := snd (checkWinCondition E s) in
  (size = 1 -> (won = true <-> aliveCount s = 0)) /\
  (2 <= size -> (won = true <-> aliveCount s <= 1)) /\
  (size = 0 -> won = false) /\
  (won = true ->
   phase s' = GAME_OVER /\ tickInterval s' = false /\ core s' = core s /\
   exists failed,
     sent s' = sent s ++ broadcastToGame (players s) (MsgGAME_OVER (soleAliveId s) failed)) /\
  (won = false -> s' = s).
Proof.
  intros Hid size won s'. subst size won s'. unfold checkWinCondition.
  assert (Hw : aliveCount s <= 1 -> winnerOf (lastAlivePlayer s) = soleAliveId s).
  { unfold aliveCount, lastAlivePlayer, soleAliveId. intros Hle.
    assert (Hin : forall p, In p (filter (fun p => PlayerState_eqb (state p) ALIVE)
                                        (JsMap.values (players s))) -> id p <> ""%string).
    { intros p Hp. apply filter_In in Hp. now apply Hid. }
    destruct (filter _ _) as [|p [|q l]]; simpl in *; try lia; [reflexivity|].
    destruct (String.eqb (id p) "") eqn:He; [|reflexivity].
    apply String.eqb_eq in He. exfalso. apply (Hin p); auto. }
  assert (H0 : aliveCount s = 0 -> soleAliveId s = None).
  { unfold aliveCount, soleAliveId. destruct (filter _ _); simpl; [reflexivity | discriminate]. }
  assert (Hend : forall w,
            phase (endGame E w s) = GAME_OVER /\ tickInterval (endGame E w s) = false /\
            core (endGame E w s) = core s /\
            sent (endGame E w s) = sent s ++ broadcastToGame (players s)
              (MsgGAME_OVER w (map (fun combo => (combo, getRandomWordsForCombo E combo 3))
                                   (failedCombos s)))).
  { intros w. pose proof (core_stopTurnTimer s) as Hc. core_fields Hc.
    repeat split.
    - unfold endGame. simpl. apply tickInterval_stopTurnTimer.
    - apply core_endGame.
    - unfold endGame, broadcast. simpl. rewrite sent_stopTurnTimer. congruence. }
  destruct (Nat.eqb_spec (JsMap.size (players s)) 1) as [H1|H1];
    destruct (Nat.eqb_spec (aliveCount s) 0) as [H2|H2];
    destruct (Nat.ltb_spec 1 (JsMap.size (players s))) as [H3|H3];
    destruct (Nat.leb_spec (aliveCount s) 1) as [H4|H4]; simpl;
    try lia;
    (split; [|split; [|split; [|split]]]); intros; try lia; try discriminate;
    try reflexivity; try (split; [reflexivity | lia]); try (split; [discriminate | lia]);
    try (rewrite <- (H0 H2));
    try (rewrite Hw by lia);
    destruct (Hend (soleAliveId s)) as [Ha [Hb [Hc Hd]]]; eauto 6.
Qed.

Lemma idsNonEmpty_check s :
  forallb (fun p => negb (String.eqb (id p) ""%string)) (JsMap.values (players s)) = true ->
  idsNonEmpty s.
Proof.
  intros H p Hp Hid. rewrite forallb_forall in H. specialize (H p Hp).
  rewrite Hid in H. discriminate H.
Qed.

Lemma checkWinCondition_spec_witness :
  idsNonEmpty Sample_over /\
  fst (checkWinCondition Sample.env Sample_over) = true /\
  phase (snd (checkWinCondition Sample.env Sample_over)) = GAME_OVER /\
  soleAliveId Sample_over = Some "p2"%string.
Proof.
  assert (H : idsNonEmpty Sample_over)
    by (apply idsNonEmpty_check; vm_compute; reflexivity).
  pose proof (checkWinCondition_spec Sample.env Sample_over H) as Hspec.
  cbv zeta in Hspec. destruct Hspec as [_ [Hmulti [_ [Hwon _]]]].
  assert (Hsize : 2 <= JsMap.size (players Sample_over)) by (vm_compute; lia).
  assert (Halive : aliveCount Sample_over <= 1) by (vm_compute; lia).
  assert (Hw : fst (checkWinCondition Sample.env Sample_over) = true)
    by (apply (Hmulti Hsize); exact Halive).
  split; [exact H|]. split; [exact Hw|].
  split; [exact (proj1 (Hwon Hw)) | vm_compute; reflexivity].
Defined.

(** ** A rejected submission *)

Lemma elapsedSeconds_div now s :
  (elapsedSeconds now s == inject_Z (now - turnStartTime s) / inject_Z 1000)%Q.
Proof. unfold elapsedSeconds. apply Qmake_Qdiv. Qed.

(** C3. When the current ALIVE player of a PLAYING session submits a word
    that validates as WRONG or ALREADY_USED, nothing changes but the log of
    messages: the turn, the combo, the used words, every player's lives and
    score and the running timer stay as they are. The reply names the same
    player as next and carries the time left, the turn duration minus the
    seconds elapsed since the turn started and never less than 0, so the
    same player may submit again. *)
Theorem handleTurnSubmit_rejected (E : Env) (s : GameSession)
    (playerId word : string) (now : Z) (p : Player) :
  phase s = PLAYING ->
  playerId = currentTurnPlayerId s ->
  JsMap.get playerId (players s) = Some p ->
  state p = ALIVE ->
  validateWord E word (currentCombo s) (usedWords s) = WRONG \/
  validateWord E word (currentCombo s) (usedWords s) = ALREADY_USED ->
  let s' := handleTurnSubmit E playerId word now s in
  let result := validateWord E word (currentCombo s) (usedWords s) in
  s' = set_sent (sent s') s /\
  phase s' = PLAYING /\
  currentTurnPlayerId s' = playerId /\
  currentCombo s' = currentCombo s /\
  usedWords s' = usedWords s /\
  players s' = players s /\
  JsMap.get playerId (players s') = Some p /\
  tickInterval s' = tickInterval s /\
  turnStartTime s' = turnStartTime s /\
  turnTimer s' = turnTimer s /\
  exists remaining : Q,
    sent s' = sent s ++ broadcastToGame (players s)
                (MsgTURN_RESULT (id p) result (id p) (currentCombo s) word
                   (Some remaining)) /\
    (remaining ==
       Qmax 0 (turnDuration s - inject_Z (now - turnStartTime s) / inject_Z 1000))%Q /\
    (0 <= remaining)%Q.
Proof.
  intros Hphase Hcur Hget Halive Hres s' result. subst s' result.
  unfold handleTurnSubmit.
  rewrite Hphase, <- Hcur, String.eqb_refl, Hget, Halive. simpl.
  assert (Hrem : (Qmax 0 (turnDuration s - elapsedSeconds now s) ==
                  Qmax 0 (turnDuration s - inject_Z (now - turnStartTime s) / inject_Z 1000))%Q).
  { rewrite elapsedSeconds_div. reflexivity. }
  destruct s. destruct Hres as [-> | ->]; simpl in *;
    (repeat split; try assumption; try congruence;
     eexists; split; [reflexivity | split; [exact Hrem | apply Q.le_max_l]]).
Qed.

Lemma handleTurnSubmit_rejected_witness :
  let s := run Sample.env [OpHandleTurnSubmit "p1" "kala" 500]%string%Z Sample.playing3 in
  let s' := handleTurnSubmit Sample.env "p2" "Kala" 900 s in
  validateWord Sample.env "Kala" (currentCombo s) (usedWords s) = ALREADY_USED /\
  currentTurnPlayerId s' = "p2"%string /\ players s' = players s.
Proof.
  intros s s'.
  pose proof (handleTurnSubmit_rejected Sample.env s "p2" "Kala" 900
                (mkPlayer "p2" "Bob" ALIVE 3 0 false "" (Sample.sock 2))
                eq_refl eq_refl eq_refl eq_refl (or_intror eq_refl)) as H.
  cbv zeta in H. destruct H as [_ [_ [Hcur [_ [_ [Hpl _]]]]]].
  split; [reflexivity | split; [exact Hcur | exact Hpl]].
Defined.

(** ** Field-wise consequences of equal cores *)

Lemma players_core s s' : core s = core s' -> players s = players s'.
Proof. intros H. now core_fields H. Qed.

Lemma usedWords_core s s' : core s = core s' -> usedWords s = usedWords s'.
Proof. intros H. now core_fields H. Qed.

Lemma failedCombos_core s s' : core s = core s' -> failedCombos s = failedCombos s'.
Proof. intros H. now core_fields H. Qed.

Lemma currentCombo_core s s' : core s = core s' -> currentCombo s = currentCombo s'.
Proof. intros H. now core_fields H. Qed.

Lemma comboCalls_core s s' : core s = core s' -> comboCalls s = comboCalls s'.
Proof. intros H. now core_fields H. Qed.

Lemma currentTurnPlayerId_core s s' :
  core s = core s' -> currentTurnPlayerId s = currentTurnPlayerId s'.
Proof. intros H. now core_fields H. Qed.

Lemma roundStartPlayerId_core s s' :
  core s = core s' -> roundStartPlayerId s = roundStartPlayerId s'.
Proof. intros H. now core_fields H. Qed.

Lemma core_finishTurn E k result word now s1 :
  core (finishTurn E k result word now s1) = core s1.
Proof.
  unfold finishTurn.
  set (s2 := match JsMap.get k (players s1) with Some _ => _ | None => _ end).
  set (s3 := match JsMap.get k (players s2) with Some _ => _ | None => _ end).
  assert (H2 : core s2 = core s1) by (subst s2; now destruct (JsMap.get k (players s1))).
  assert (H3 : core s3 = core s2) by (subst s3; now destruct (JsMap.get k (players s2))).
  pose proof (core_checkWinCondition E s3) as H4.
  destruct (checkWinCondition E s3) as [won s4]. simpl in H4.
  destruct won; [|rewrite core_startTurnTimer]; congruence.
Qed.

Lemma usedWords_selectNextPlayer E force k s :
  usedWords (selectNextPlayer E force k s) = usedWords s.
Proof. unfold selectNextPlayer. repeat break_match; reflexivity. Qed.

Lemma failedCombos_selectNextPlayer E force k s :
  failedCombos (selectNextPlayer E force k s) = failedCombos s.
Proof. unfold selectNextPlayer. repeat break_match; reflexivity. Qed.

Lemma usedWords_advanceToNextPlayer E force s :
  usedWords (advanceToNextPlayer E force s) = usedWords s.
Proof.
  destruct (advanceToNextPlayer_cases E force s) as [[-> _] | [k [p [_ [_ ->]]]]];
    [reflexivity | apply usedWords_selectNextPlayer].
Qed.

Lemma failedCombos_advanceToNextPlayer E force s :
  failedCombos (advanceToNextPlayer E force s) = failedCombos s.
Proof.
  destruct (advanceToNextPlayer_cases E force s) as [[-> _] | [k [p [_ [_ ->]]]]];
    [reflexivity | apply failedCombos_selectNextPlayer].
Qed.

Lemma processTurnResult_finishTurn E k result word now s :
  processTurnResult E k result word now s =
  finishTurn E k result word now
    (match result with
     | CORRECT => advanceToNextPlayer E true (bookCorrect E k word (stopTurnTimer s))
     | TIMEOUT => advanceToNextPlayer E false (bookTimeout k (stopTurnTimer s))
     | WRONG | ALREADY_USED => stopTurnTimer s
     end).
Proof. unfold processTurnResult, finishTurn. destruct result; reflexivity. Qed.

Lemma usedWords_processTurnResult E k result word now s :
  usedWords (processTurnResult E k result word now s) =
  match result with
  | CORRECT => JsSet.add (toUpperCase E word) (usedWords s)
  | _ => usedWords s
  end.
Proof.
  rewrite processTurnResult_finishTurn.
  rewrite (usedWords_core _ _ (core_finishTurn _ _ _ _ _ _)).
  pose proof (usedWords_core _ _ (core_stopTurnTimer s)) as Hs.
  destruct result; rewrite ?usedWords_advanceToNextPlayer;
    unfold bookCorrect, bookTimeout; simpl; try congruence.
  repeat break_match; simpl; congruence.
Qed.

(** ** Starting a match and returning to the lobby *)

Lemma startGame_failure E now s :
  canStartGame s = false -> startGame E now s = (false, s).
Proof. unfold startGame. now intros ->. Qed.

Lemma startGame_success E now s :
  fst (startGame E now s) = true ->
  canStartGame s = true /\
  players (snd (startGame E now s)) = JsMap.forEach readyToAlive (players s) /\
  usedWords (snd (startGame E now s)) = [] /\
  failedCombos (snd (startGame E now s)) = [] /\
  phase (snd (startGame E now s)) = PLAYING /\
  tickInterval (snd (startGame E now s)) = true.
Proof.
  unfold startGame. destruct (canStartGame s) eqn:Hc; simpl; [intros _ | discriminate].
  split; [reflexivity|].
  set (s7 := match find _ _ with Some _ => _ | None => _ end).
  set (s8 := broadcast _ s7).
  pose proof (core_startTurnTimer now s8) as Ht. core_fields Ht.
  assert (Hs7 : players s7 = JsMap.forEach readyToAlive (players s) /\
                usedWords s7 = [] /\ failedCombos s7 = [] /\ phase s7 = PLAYING).
  { subst s7. break_match; simpl; auto. }
  destruct Hs7 as [Hp [Hu [Hf Hph]]].
  repeat split; try congruence.
  unfold startTurnTimer. simpl. rewrite phase_stopTurnTimer. exact Hph.
Qed.



Lemma usedWords_removePlayer E k s : usedWords (removePlayer E k s) = usedWords s.
Proof.
  unfold removePlayer. destruct (JsMap.get k (players s)); [|reflexivity].
  unfold broadcastPlayerList. simpl.
  repeat break_match; simpl;
    rewrite ?(usedWords_core _ _ (core_checkWinCondition _ _)),
            ?usedWords_advanceToNextPlayer; reflexivity.
Qed.

Lemma usedWords_handleTurnSubmit E playerId word now s :
  incl (usedWords s) (usedWords (handleTurnSubmit E playerId word now s)).
Proof.
  unfold handleTurnSubmit.
  repeat break_match; simpl; try apply incl_refl;
    rewrite usedWords_processTurnResult; try apply incl_refl.
  apply JsSet_add_incl.
Qed.

Lemma usedWords_tick E now s : usedWords (tick E now s) = usedWords s.
Proof.
  unfold tick, handleTimeout.
  pose proof (usedWords_core _ _ (core_stopTurnTimer
                (set_turnTimer (turnDuration s - elapsedSeconds now s)%Q s))) as Hs.
  repeat break_match; simpl; try reflexivity;
    try rewrite usedWords_processTurnResult; simpl in *; congruence.
Qed.

Lemma reachable_run E ops s : reachable E s -> reachable E (run E ops s).
Proof.
  revert s. induction ops as [|op ops IH]; intros s Hs; [exact Hs|].
  simpl. apply IH. now constructor.
Qed.

(** C8, counterexample. In the three-player match [p1] has answered
    "kala" and [p1] and [p2] have declared themselves ready again; the match
    is PLAYING and "KALA" is used. [startGame] succeeds there, the session is
    PLAYING afterwards and no word is used any more. *)
Lemma startGame_empties_usedWords_while_playing :
  reachable Sample.env Sample_restart /\
  phase Sample_restart = PLAYING /\
  usedWords Sample_restart = ["KALA"%string] /\
  fst (startGame Sample.env 1000 Sample_restart) = true /\
  phase (step Sample.env (OpStartGame 1000) Sample_restart) = PLAYING /\
  usedWords (step Sample.env (OpStartGame 1000) Sample_restart) = [] /\
  ~ usedWords_lifecycle_as_stated.
Proof.
  assert (Hr : reachable Sample.env Sample_restart)
    by (repeat apply reachable_run; apply reachable_new).
  assert (Hph : phase Sample_restart = PLAYING) by (vm_compute; reflexivity).
  assert (Hu : usedWords Sample_restart = ["KALA"%string]) by (vm_compute; reflexivity).
  assert (Hok : fst (startGame Sample.env 1000 Sample_restart) = true)
    by (vm_compute; reflexivity).
  assert (Hph' : phase (step Sample.env (OpStartGame 1000) Sample_restart) = PLAYING)
    by (vm_compute; reflexivity).
  assert (Hu' : usedWords (step Sample.env (OpStartGame 1000) Sample_restart) = [])
    by (vm_compute; reflexivity).
  repeat (split; [assumption|]).
  intros H. destruct (H Sample.env) as (_ & _ & H3).
  specialize (H3 (OpStartGame 1000) Sample_restart Hr Hph Hph').
  rewrite Hu, Hu' in H3. exact (H3 "KALA"%string (or_introl eq_refl)).
Qed.

(** C8, amended. [usedWords] is empty right after a successful [startGame]
    and right after [returnToLobby]; every other operation of the engine
    keeps all the words it holds, in whatever phase, and so does a [startGame]
    that fails; and a CORRECT submission adds the case-normalised word. *)
Theorem usedWords_lifecycle (E : Env) :
  (forall now s, fst (startGame E now s) = true ->
                 usedWords (snd (startGame E now s)) = []) /\
  (forall s, usedWords (returnToLobby s) = []) /\
  (forall op s, isReset op = false ->
                incl (usedWords s) (usedWords (step E op s))) /\
  (forall s playerId word now p,
      phase s = PLAYING ->
      playerId = currentTurnPlayerId s ->
      JsMap.get playerId (players s) = Some p ->
      state p = ALIVE ->
      validateWord E word (currentCombo s) (usedWords s) = CORRECT ->
      usedWords (handleTurnSubmit E playerId word now s)
      = JsSet.add (toUpperCase E word) (usedWords s) /\
      In (toUpperCase E word) (usedWords (handleTurnSubmit E playerId word now s))) /\
  (forall now s, fst (startGame E now s) = false -> snd (startGame E now s) = s).
Proof.
  split; [|split; [|split; [|split]]].
  5:{ intros now s. unfold startGame.
      destruct (negb (canStartGame s)); [reflexivity | discriminate]. }
  - intros now s H. now destruct (startGame_success E now s H) as [_ [_ [Hu _]]].
  - reflexivity.
  - intros op s Hop. destruct op; simpl in *; try discriminate.
    + unfold addPlayer. repeat break_match; simpl; apply incl_refl.
    + rewrite usedWords_removePlayer. apply incl_refl.
    + unfold setPlayerReady. break_match; simpl; apply incl_refl.
    + unfold handleTurnInput. repeat break_match; simpl; apply incl_refl.
    + apply usedWords_handleTurnSubmit.
    + rewrite usedWords_tick. apply incl_refl.
    + apply incl_refl.
  - intros s playerId word now p Hph Hcur Hget Hal Hv.
    assert (Heq : usedWords (handleTurnSubmit E playerId word now s)
                  = JsSet.add (toUpperCase E word) (usedWords s)).
    { unfold handleTurnSubmit.
      rewrite Hph, <- Hcur, String.eqb_refl, Hget, Hal, Hv. simpl.
      now rewrite usedWords_processTurnResult. }
    split; [exact Heq|]. rewrite Heq. apply JsSet_add_In. now left.
Qed.

Lemma usedWords_lifecycle_witness :
  let s := Sample.playing3 in
  validateWord Sample.env "kala" (currentCombo s) (usedWords s) = CORRECT /\
  usedWords (handleTurnSubmit Sample.env "p1" "kala" 500 s)
  = JsSet.add (toUpperCase Sample.env "kala") (usedWords s).
Proof.
  intros s.
  destruct (usedWords_lifecycle Sample.env) as (_ & _ & _ & Hcorrect & _).
  assert (Hph : phase s = PLAYING) by (vm_compute; reflexivity).
  assert (Hcur : "p1"%string = currentTurnPlayerId s) by (vm_compute; reflexivity).
  assert (Hget : JsMap.get "p1"%string (players s)
                 = Some (mkPlayer "p1" "Ann" ALIVE 3 0 true "" (Sample.sock 1)))
    by (vm_compute; reflexivity).
  assert (Hv : validateWord Sample.env "kala" (currentCombo s) (usedWords s) = CORRECT)
    by (vm_compute; reflexivity).
  split; [exact Hv|].
  exact (proj1 (Hcorrect s "p1"%string "kala"%string 500%Z _ Hph Hcur Hget eq_refl Hv)).
Defined.


(** ** Joining a session *)

(** C6, counterexample. A session in GAME_OVER phase with a free seat
    rejects the join with "Game already started". *)
Lemma joinGame_game_over_not_joinable :
  phase Sample_over = GAME_OVER /\
  playerCount Sample_over = 2 /\
  joinGame (Sample.sock 9) "g1" "Zed" Sample_registry
  = (mkJoinResult false SessionInProgress, Sample_registry) /\
  ~ joinSession_as_stated.
Proof.
  assert (Hph : phase Sample_over = GAME_OVER) by (vm_compute; reflexivity).
  assert (Hjoin : joinGame (Sample.sock 9) "g1" "Zed" Sample_registry
                  = (mkJoinResult false SessionInProgress, Sample_registry)).
  { unfold joinGame, Sample_registry. cbn [clients_get clients games JsMap.get
      Sample.sock wsId Nat.eqb String.eqb Ascii.eqb Bool.eqb].
    rewrite Hph. reflexivity. }
  split; [exact Hph|]. split; [vm_compute; reflexivity|]. split; [exact Hjoin|].
  intros H.
  specialize (H (Sample.sock 9) "g1"%string "Zed"%string Sample_registry
                (mkClientInfo (Sample.sock 9) "p9" None) eq_refl).
  cbv zeta in H. destruct H as [_ [H _]].
  specialize (H Sample_over eq_refl). destruct H as [H _].
  rewrite Hjoin in H. destruct (H eq_refl) as [_ Hne]. now apply Hne.
Qed.

Lemma addPlayer_accepts id0 name0 ws0 g :
  phase g = LOBBY -> JsMap.size (players g) < MAX_PLAYERS ->
  exists p g', addPlayer id0 name0 ws0 g = (Some p, g').
Proof.
  intros Hph Hsz. unfold addPlayer.
  destruct (Nat.leb_spec MAX_PLAYERS (JsMap.size (players g))); [lia|].
  rewrite Hph. simpl. eauto.
Qed.

(** C6, amended. [joinGame] fails with "Not registered" for an unknown
    socket; for a registered one it fails with "Game not found" when the id
    is unknown, with "Game already started" exactly when the session exists
    and its phase is not LOBBY (GAME_OVER included), with "Game is full"
    exactly when the session is in LOBBY with [MAX_PLAYERS] players, and
    succeeds otherwise. Every failure leaves the registry and its sessions
    as they were. *)
Theorem joinGame_failures (w : WebSocket) (gameId0 playerName : string)
    (m : LobbyManager) :
  let r := joinGame w gameId0 playerName m in
  (clients_get w (clients m) = None ->
   r = (mkJoinResult false (Some "Not registered"%string), m)) /\
  (forall c, clients_get w (clients m) = Some c ->
     (JsMap.get gameId0 (games m) = None ->
      r = (mkJoinResult false SessionNotFound, m)) /\
     (forall g, JsMap.get gameId0 (games m) = Some g ->
        (reason (fst r) = SessionInProgress <-> phase g <> LOBBY) /\
        (reason (fst r) = SessionFull <->
         phase g = LOBBY /\ MAX_PLAYERS <= playerCount g) /\
        (success (fst r) = true <->
         phase g = LOBBY /\ playerCount g < MAX_PLAYERS))) /\
  (success (fst r) = false -> snd r = m).
Proof.
  intros r. subst r. unfold joinGame, SessionNotFound, SessionInProgress, SessionFull.
  destruct (clients_get w (clients m)) as [c|] eqn:Hc.
  2:{ repeat split; intros; try discriminate; reflexivity. }
  destruct (JsMap.get gameId0 (games m)) as [g|] eqn:Hg.
  2:{ split; [discriminate|]. split; [|reflexivity].
      intros c0 _. split; [reflexivity | intros g; discriminate]. }
  destruct (GamePhase_eqb (phase g) LOBBY) eqn:Hph; cbn [negb].
  2:{ assert (Hne : phase g <> LOBBY).
      { intros Heq. apply GamePhase_eqb_eq in Heq. congruence. }
      split; [discriminate|]. split; [|reflexivity].
      intros c0 _. split; [discriminate|]. intros g0 [= <-].
      repeat split; simpl; try tauto; try discriminate; intros H;
        destruct H; congruence. }
  apply GamePhase_eqb_eq in Hph.
  unfold playerCount. destruct (Nat.leb_spec MAX_PLAYERS (JsMap.size (players g))) as [Hfull|Hfree].
  { split; [discriminate|]. split; [|reflexivity].
    intros c0 _. split; [discriminate|]. intros g0 [= <-].
    repeat split; simpl; try tauto; try discriminate; try congruence;
      intros H; destruct H; try congruence; lia. }
  destruct (addPlayer_accepts (client_playerId c) playerName w g Hph Hfree)
    as [p [g' Hadd]].
  rewrite Hadd. simpl.
  split; [discriminate|]. split; [|discriminate].
  intros c0 _. split; [discriminate|]. intros g0 [= <-].
  repeat split; simpl; try tauto; try discriminate; try congruence;
    intros H; destruct H; try congruence; lia.
Qed.

Lemma joinGame_failures_witness :
  reason (fst (joinGame (Sample.sock 9) "g1" "Zed" Sample_registry)) = SessionInProgress /\
  snd (joinGame (Sample.sock 9) "g1" "Zed" Sample_registry) = Sample_registry.
Proof.
  pose proof (joinGame_failures (Sample.sock 9) "g1" "Zed" Sample_registry) as H.
  cbv zeta in H. destruct H as (_ & Hreg & Hfail).
  destruct (Hreg (mkClientInfo (Sample.sock 9) "p9" None) eq_refl) as [_ Hfound].
  destruct (Hfound Sample_over eq_refl) as [Hprog _].
  assert (Hph : phase Sample_over <> LOBBY) by (vm_compute; discriminate).
  assert (Hf : success (fst (joinGame (Sample.sock 9) "g1" "Zed" Sample_registry)) = false)
    by (vm_compute; reflexivity).
  split; [exact (proj2 Hprog Hph) | exact (Hfail Hf)].
Defined.


(** ** Echo of the text being typed *)

(** C7, counterexample. In the three-player match [p1] holds the turn; its
    keystrokes are stored in its [currentInput] and the echo is sent to its
    own socket too. *)
Lemma handleTurnInput_echo_reaches_typist :
  let s := Sample.playing3 in
  let s' := handleTurnInput "p1" "ka" s in
  JsMap.get "p1"%string (players s)
  = Some (mkPlayer "p1" "Ann" ALIVE 3 0 true "" (Sample.sock 1)) /\
  JsMap.get "p1"%string (players s')
  = Some (mkPlayer "p1" "Ann" ALIVE 3 0 true "ka" (Sample.sock 1)) /\
  sent s' = sent s ++ [(Sample.sock 1, MsgTURN_INPUT "p1" "ka");
                       (Sample.sock 2, MsgTURN_INPUT "p1" "ka");
                       (Sample.sock 3, MsgTURN_INPUT "p1" "ka")] /\
  ~ handleTurnInput_as_stated.
Proof.
  cbv zeta. split; [vm_compute; reflexivity|]. split; [vm_compute; reflexivity|].
  split; [vm_compute; reflexivity|].
  intros H.
  assert (Hph : phase Sample.playing3 = PLAYING) by (vm_compute; reflexivity).
  assert (Hcur : "p1"%string = currentTurnPlayerId Sample.playing3)
    by (vm_compute; reflexivity).
  assert (Hget : JsMap.get "p1"%string (players Sample.playing3)
                 = Some (mkPlayer "p1" "Ann" ALIVE 3 0 true "" (Sample.sock 1)))
    by (vm_compute; reflexivity).
  specialize (H Sample.playing3 "p1"%string "ka"%string _ Hph Hcur Hget eq_refl).
  cbv zeta in H. destruct H as [Hcore _].
  assert (Hne : players (handleTurnInput "p1" "ka" Sample.playing3)
                <> players Sample.playing3) by (vm_compute; discriminate).
  apply Hne. now apply players_core.
Qed.

Lemma handleTurnInput_guarded playerId input s p :
  phase s = PLAYING -> playerId = currentTurnPlayerId s ->
  JsMap.get playerId (players s) = Some p -> state p = ALIVE ->
  handleTurnInput playerId input s
  = broadcast (MsgTURN_INPUT playerId input)
      (modifyPlayer playerId (set_currentInput input) s).
Proof.
  intros Hph Hcur Hget Hal. unfold handleTurnInput.
  now rewrite Hph, <- Hcur, String.eqb_refl, Hget, Hal.
Qed.

Lemma handleTurnInput_dropped playerId input s :
  ~ ownsTurn playerId s -> handleTurnInput playerId input s = s.
Proof.
  intros Hn. unfold handleTurnInput.
  destruct (GamePhase_eqb (phase s) PLAYING) eqn:Hph; [|reflexivity].
  destruct (String.eqb playerId (currentTurnPlayerId s)) eqn:Hcur; [|reflexivity].
  destruct (JsMap.get playerId (players s)) as [p|] eqn:Hget; [|reflexivity].
  destruct (PlayerState_eqb (state p) ALIVE) eqn:Hal; [|reflexivity].
  exfalso. apply Hn. apply GamePhase_eqb_eq in Hph. apply String.eqb_eq in Hcur.
  apply PlayerState_eqb_eq in Hal. repeat split; eauto.
Qed.

(** C7, amended. [handleTurnInput] does nothing unless the phase is
    PLAYING, the caller holds the turn and is ALIVE. Under that guard it
    stores the raw text in the typist's [currentInput] and changes nothing
    else but the log: every message it sends is the TURN_INPUT echo of that
    text, unvalidated, and every other participant whose socket is open
    receives it. *)
Theorem handleTurnInput_echo (s : GameSession) (playerId input : string) :
  let s' := handleTurnInput playerId input s in
  (~ ownsTurn playerId s -> s' = s) /\
  (ownsTurn playerId s ->
   s' = set_sent (sent s') (modifyPlayer playerId (set_currentInput input) s) /\
   JsMap.keys (players s') = JsMap.keys (players s) /\
   (forall k, k <> playerId ->
      JsMap.get k (players s') = JsMap.get k (players s)) /\
   (forall p, JsMap.get playerId (players s) = Some p ->
      JsMap.get playerId (players s') = Some (set_currentInput input p)) /\
   exists out,
     sent s' = sent s ++ out /\
     (forall w m, In (w, m) out -> m = MsgTURN_INPUT playerId input) /\
     (forall k q, In (k, q) (players s) -> k <> playerId ->
        readyState (ws q) = WebSocket_OPEN ->
        In (ws q, MsgTURN_INPUT playerId input) out)).
Proof.
  intros s'. subst s'. split; [apply handleTurnInput_dropped|].
  intros [Hph [Hcur [p [Hget Hal]]]].
  rewrite (handleTurnInput_guarded playerId input s p Hph Hcur Hget Hal).
  unfold broadcast, modifyPlayer. simpl.
  split; [reflexivity|]. split; [apply keys_modify|].
  split; [|split].
  - intros k Hk. rewrite get_modify.
    destruct (String.eqb playerId k) eqn:He; [|reflexivity].
    apply String.eqb_eq in He. congruence.
  - intros p0 Hp0. rewrite get_modify, String.eqb_refl, Hp0. reflexivity.
  - eexists. split; [reflexivity|]. split.
    + intros w m Hin. unfold broadcastToGame in Hin.
      apply in_map_iff in Hin. destruct Hin as [q [Hq _]]. congruence.
    + intros k q Hin Hk Hopen. unfold broadcastToGame.
      apply in_map_iff. exists q. split; [reflexivity|].
      apply filter_In. split; [|rewrite Hopen; reflexivity].
      apply In_entry_values with (k := k). unfold JsMap.modify.
      apply in_map_iff. exists (k, q). split; [|exact Hin]. simpl.
      destruct (String.eqb playerId k) eqn:He; [|reflexivity].
      apply String.eqb_eq in He. congruence.
Qed.

Lemma handleTurnInput_echo_witness :
  let s := Sample.playing3 in
  ownsTurn "p1" s /\
  (forall k, k <> "p1"%string ->
     JsMap.get k (players (handleTurnInput "p1" "ka" s)) = JsMap.get k (players s)).
Proof.
  intros s.
  assert (Hown : ownsTurn "p1" s).
  { split; [vm_compute; reflexivity|]. split; [vm_compute; reflexivity|].
    exists (mkPlayer "p1" "Ann" ALIVE 3 0 true "" (Sample.sock 1)).
    split; vm_compute; reflexivity. }
  split; [exact Hown|].
  pose proof (handleTurnInput_echo s "p1" "ka") as H. cbv zeta in H.
  destruct H as [_ H]. destruct (H Hown) as (_ & _ & Hothers & _). exact Hothers.
Defined.


(** ** The round-robin order of the scan *)

Lemma scanOrder_S ids i n :
  scanOrder ids i (S n)
  = nth (i mod length ids) ids ""%string :: scanOrder ids ((i + 1) mod length ids) n.
Proof.
  unfold scanOrder. simpl. rewrite Nat.add_0_r. f_equal.
  rewrite <- seq_shift, map_map. apply map_ext. intros j.
  rewrite Nat.Div0.add_mod_idemp_l. do 2 f_equal. lia.
Qed.

Lemma advanceLoop_find E force ids n i s :
  i < length ids ->
  advanceLoop E force ids n i s =
  match find (aliveKey s) (scanOrder ids i n) with
  | Some k => selectNextPlayer E force k s
  | None => s
  end.
Proof.
  revert i. induction n as [|n IH]; intros i Hi; [reflexivity|].
  rewrite scanOrder_S, Nat.mod_small by exact Hi. simpl.
  assert (Hi' : (i + 1) mod length ids < length ids)
    by (apply Nat.mod_upper_bound; lia).
  unfold aliveKey at 1.
  destruct (JsMap.get (nth i ids ""%string) (players s)) as [p|];
    [destruct (PlayerState_eqb (state p) ALIVE); [reflexivity|] |]; now apply IH.
Qed.

Lemma scanOrder_rotation ids i :
  i < length ids -> scanOrder ids i (length ids) = skipn i ids ++ firstn i ids.
Proof.
  intros Hi. apply (nth_ext _ _ ""%string ""%string).
  - unfold scanOrder. rewrite length_map, length_seq, length_app, length_skipn,
      length_firstn. lia.
  - unfold scanOrder. rewrite length_map, length_seq. intros j Hj.
    set (f := fun j0 => nth ((i + j0) mod length ids) ids ""%string).
    rewrite (nth_indep (map f (seq 0 (length ids))) ""%string (f 0))
      by (rewrite length_map, length_seq; exact Hj).
    rewrite map_nth, seq_nth by exact Hj. simpl. unfold f.
    destruct (Nat.lt_ge_cases j (length ids - i)) as [Hlt | Hge].
    + rewrite app_nth1 by (rewrite length_skipn; exact Hlt).
      rewrite nth_skipn, Nat.mod_small by lia. reflexivity.
    + rewrite app_nth2 by (rewrite length_skipn; exact Hge).
      rewrite length_skipn, nth_firstn.
      destruct (Nat.ltb_spec (j - (length ids - i)) i); [|lia].
      replace (i + j) with ((j - (length ids - i)) + 1 * length ids) by lia.
      rewrite Nat.Div0.mod_add, Nat.mod_small by lia. reflexivity.
Qed.

(** [advanceToNextPlayer] gives the turn to the first ALIVE player in
    round-robin order after the holder, and does nothing when there is
    none. *)
Lemma advanceToNextPlayer_nextAlive E force s :
  advanceToNextPlayer E force s =
  match nextAlive s with
  | Some k => selectNextPlayer E force k s
  | None => s
  end.
Proof.
  unfold advanceToNextPlayer, nextAlive, roundRobin.
  destruct (Nat.eqb_spec (length (JsMap.keys (players s))) 0) as [Hz|Hz].
  - destruct (JsMap.keys (players s)); [|discriminate].
    cbn [Nat.eqb length]. now rewrite skipn_nil, firstn_nil.
  - set (ids := JsMap.keys (players s)) in *.
    set (i := Z.to_nat ((indexOf (currentTurnPlayerId s) ids + 1)
                          mod Z.of_nat (length ids))).
    assert (Hi : i < length ids).
    { unfold i. pose proof (Z.mod_pos_bound
        (indexOf (currentTurnPlayerId s) ids + 1) (Z.of_nat (length ids))). lia. }
    rewrite advanceLoop_find by exact Hi. now rewrite scanOrder_rotation.
Qed.

(** ** The selection branch *)

Lemma selectNextPlayer_spec E force k s :
  let rotate := force || String.eqb k (roundStartChecked s k) in
  let s' := selectNextPlayer E force k s in
  currentTurnPlayerId s' = k /\
  players s' = JsMap.modify k (set_currentInput ""%string) (players s) /\
  comboCalls s' = (if rotate then S (comboCalls s) else comboCalls s) /\
  currentCombo s' = (if rotate then generateNewCombo E (comboCalls s) else currentCombo s) /\
  roundStartPlayerId s' = (if rotate then k else roundStartChecked s k) /\
  usedWords s' = usedWords s /\ failedCombos s' = failedCombos s /\
  phase s' = phase s /\ sent s' = sent s /\ tickInterval s' = tickInterval s /\
  hostId s' = hostId s.
Proof.
  unfold selectNextPlayer, roundStartChecked, aliveKey. cbv zeta.
  destruct (JsMap.get (roundStartPlayerId s) (players s)) as [r|];
    [destruct (PlayerState_eqb (state r) ALIVE)|]; simpl;
    rewrite ?String.eqb_refl, ?orb_true_r;
    repeat break_match; simpl; repeat split; reflexivity.
Qed.

Lemma selectNextPlayer_core_ext E force k s1 s2 :
  core s1 = core s2 ->
  core (selectNextPlayer E force k s1) = core (selectNextPlayer E force k s2).
Proof.
  intros H. core_fields H.
  destruct (selectNextPlayer_spec E force k s1) as (A1 & A2 & A3 & A4 & A5 & A6 & A7 & _ & _ & _ & A8).
  destruct (selectNextPlayer_spec E force k s2) as (B1 & B2 & B3 & B4 & B5 & B6 & B7 & _ & _ & _ & B8).
  assert (Hrs : roundStartChecked s1 k = roundStartChecked s2 k)
    by (unfold roundStartChecked, aliveKey; destruct s1, s2; simpl in *; subst;
        reflexivity).
  assert (Htd : turnDuration (selectNextPlayer E force k s1) = turnDuration s1)
    by (unfold selectNextPlayer; repeat break_match; reflexivity).
  assert (Htd' : turnDuration (selectNextPlayer E force k s2) = turnDuration s2)
    by (unfold selectNextPlayer; repeat break_match; reflexivity).
  unfold core. rewrite A1, A2, A3, A4, A5, A6, A7, A8, B1, B2, B3, B4, B5, B6, B7, B8,
    Htd, Htd', Hrs.
  clear A1 A2 A3 A4 A5 A6 A7 A8 B1 B2 B3 B4 B5 B6 B7 B8 Htd Htd' Hrs.
  destruct s1, s2; simpl in *; subst; reflexivity.
Qed.

Lemma nextAlive_core_ext s1 s2 : core s1 = core s2 -> nextAlive s1 = nextAlive s2.
Proof.
  intros H. core_fields H. unfold nextAlive, roundRobin, aliveKey.
  destruct s1, s2; simpl in *; subst; reflexivity.
Qed.

(** The core of the state after [advanceToNextPlayer] depends on the core
    of the state before only. *)
Lemma advanceToNextPlayer_core_ext E force s1 s2 :
  core s1 = core s2 ->
  core (advanceToNextPlayer E force s1) = core (advanceToNextPlayer E force s2).
Proof.
  intros H. rewrite !advanceToNextPlayer_nextAlive, (nextAlive_core_ext s1 s2 H).
  destruct (nextAlive s2); [now apply selectNextPlayer_core_ext | exact H].
Qed.

Section ModifyLemmas.

Variable V : Type.

Lemma modify_modify k (f g : V -> V) (m : JsMap.t V) :
  JsMap.modify k g (JsMap.modify k f m) = JsMap.modify k (fun v => g (f v)) m.
Proof.
  unfold JsMap.modify. rewrite map_map. apply map_ext. intros [k1 v1]. simpl.
  destruct (String.eqb k k1) eqn:He; simpl; now rewrite He.
Qed.

Lemma modify_ext_at k (f g : V -> V) (m : JsMap.t V) (v : V) :
  NoDup (JsMap.keys m) -> JsMap.get k m = Some v -> f v = g v ->
  JsMap.modify k f m = JsMap.modify k g m.
Proof.
  intros Hd Hg Hfg. unfold JsMap.modify. apply map_ext_in. intros [k1 v1] Hin. simpl.
  destruct (String.eqb k k1) eqn:He; [|reflexivity].
  apply String.eqb_eq in He. subst k1.
  rewrite (NoDup_In_get _ _ _ _ Hd Hin) in Hg. injection Hg as ->. now rewrite Hfg.
Qed.

End ModifyLemmas.

(** ** A timeout *)

Lemma bookTimeout_core s0 p :
  NoDup (JsMap.keys (players s0)) ->
  JsMap.get (currentTurnPlayerId s0) (players s0) = Some p ->
  core (bookTimeout (currentTurnPlayerId s0) s0) = core (timeoutBooked s0).
Proof.
  intros Hd Hget. unfold bookTimeout, timeoutBooked, modifyPlayer, core. cbv zeta.
  simpl. rewrite get_modify, String.eqb_refl, Hget. simpl.
  destruct (lives p - 1 <=? 0)%Z eqn:Hl; simpl;
    rewrite !modify_modify;
    (rewrite (modify_ext_at _ (currentTurnPlayerId s0) _ timeoutPlayer (players s0) p Hd Hget);
     [reflexivity | unfold timeoutPlayer; simpl; rewrite Hl; reflexivity]).
Qed.

Lemma timeoutBooked_core_ext s s' :
  core s = core s' -> core (timeoutBooked s) = core (timeoutBooked s').
Proof.
  intros H. core_fields H. unfold timeoutBooked, modifyPlayer, core.
  destruct s, s'; simpl in *; subst; reflexivity.
Qed.

Lemma handleTimeout_core E now s p :
  NoDup (JsMap.keys (players s)) ->
  JsMap.get (currentTurnPlayerId s) (players s) = Some p ->
  core (handleTimeout E now s) = core (advanceToNextPlayer E false (timeoutBooked s)).
Proof.
  intros Hd Hget. unfold handleTimeout.
  pose proof (core_stopTurnTimer s) as Hs.
  assert (Hk : currentTurnPlayerId (stopTurnTimer s) = currentTurnPlayerId s)
    by now apply currentTurnPlayerId_core.
  assert (Hp : players (stopTurnTimer s) = players s) by now apply players_core.
  rewrite Hk, Hp, Hget, processTurnResult_finishTurn, core_finishTurn.
  apply advanceToNextPlayer_core_ext.
  set (s0 := stopTurnTimer (stopTurnTimer s)).
  assert (H0 : core s0 = core s)
    by (unfold s0; rewrite core_stopTurnTimer; exact Hs).
  rewrite <- (currentTurnPlayerId_core _ _ H0).
  rewrite (bookTimeout_core s0 p).
  - now apply timeoutBooked_core_ext.
  - now rewrite (players_core _ _ H0).
  - now rewrite (players_core _ _ H0), (currentTurnPlayerId_core _ _ H0).
Qed.

Lemma get_players_advance E force s k p :
  JsMap.get k (players s) = Some p ->
  exists p', JsMap.get k (players (advanceToNextPlayer E force s)) = Some p' /\
             (p' = p \/ p' = set_currentInput ""%string p).
Proof.
  intros Hg. rewrite advanceToNextPlayer_nextAlive.
  destruct (nextAlive s) as [k'|]; [|eauto].
  destruct (selectNextPlayer_spec E force k' s) as (_ & -> & _).
  rewrite get_modify, Hg. destruct (String.eqb k' k); simpl; eauto.
Qed.

Lemma find_ext_in_keys {A} (f g : A -> bool) l :
  (forall x, In x l -> f x = g x) -> find f l = find g l.
Proof.
  induction l as [|a l IH]; intros H; [reflexivity|]. cbn [find].
  rewrite (H a (or_introl eq_refl)). destruct (g a); [reflexivity|].
  apply IH. intros x Hx. apply H. now right.
Qed.

(** C4. A TIMEOUT processed for the player who holds the turn of a PLAYING
    session adds the expiring combo to [failedCombos]; takes one life from
    that player; makes the player ELIMINATED when, and only when, no life is
    left; clears the player's transient input; and moves the turn as
    [advanceToNextPlayer(false)] does from the session so booked, so that the
    combo is kept whenever the round-start player is still ALIVE and is not
    the one who gets the turn. The player who gets the turn is the first one
    after the holder in roster order who is ALIVE, the holder itself coming
    last and counting as ALIVE only if it was ALIVE with a second life; the
    turn stays where it is when there is none. The combo is kept when that
    player is not the round-start player the selection compares with, and a
    fresh one is drawn when it is. *)
Theorem handleTimeout_spec (E : Env) (now : Z) (s : GameSession) (p : Player) :
  phase s = PLAYING ->
  NoDup (JsMap.keys (players s)) ->
  JsMap.get (currentTurnPlayerId s) (players s) = Some p ->
  (1 <= lives p)%Z ->
  let k := currentTurnPlayerId s in
  let s' := handleTimeout E now s in
  failedCombos s' = JsSet.add (currentCombo s) (failedCombos s) /\
  In (currentCombo s) (failedCombos s') /\
  (exists p', JsMap.get k (players s') = Some p' /\
              lives p' = (lives p - 1)%Z /\
              state p' = (if (lives p' =? 0)%Z then ELIMINATED else state p) /\
              currentInput p' = ""%string /\
              score p' = score p) /\
  core s' = core (advanceToNextPlayer E false (timeoutBooked s)) /\
  (aliveKey (timeoutBooked s) (roundStartPlayerId s) = true ->
   currentTurnPlayerId s' <> roundStartPlayerId s ->
   currentCombo s' = currentCombo s /\ comboCalls s' = comboCalls s /\
   roundStartPlayerId s' = roundStartPlayerId s) /\
  nextAlive (timeoutBooked s)
  = find (fun x => if String.eqb k x
                   then PlayerState_eqb (state p) ALIVE && (1 <? lives p)%Z
                   else aliveKey s x)
         (roundRobin s) /\
  (forall k', nextAlive (timeoutBooked s) = Some k' ->
     currentTurnPlayerId s' = k' /\
     (k' <> roundStartChecked (timeoutBooked s) k' ->
        currentCombo s' = currentCombo s /\ comboCalls s' = comboCalls s /\
        roundStartPlayerId s' = roundStartChecked (timeoutBooked s) k') /\
     (k' = roundStartChecked (timeoutBooked s) k' ->
        currentCombo s' = generateNewCombo E (comboCalls s) /\
        comboCalls s' = S (comboCalls s) /\ roundStartPlayerId s' = k')) /\
  (nextAlive (timeoutBooked s) = None ->
     currentTurnPlayerId s' = k /\ currentCombo s' = currentCombo s /\
     comboCalls s' = comboCalls s /\
     roundStartPlayerId s' = roundStartPlayerId s).
Proof.
  intros _ Hd Hget Hl k s'. subst k s'.
  pose proof (handleTimeout_core E now s p Hd Hget) as Hc.
  assert (Hf : failedCombos (handleTimeout E now s)
               = JsSet.add (currentCombo s) (failedCombos s)).
  { rewrite (failedCombos_core _ _ Hc), failedCombos_advanceToNextPlayer. reflexivity. }
  split; [exact Hf|]. split; [rewrite Hf; apply JsSet_add_In; now left|].
  split; [|split; [exact Hc|split; [|split; [|split]]]].
  - rewrite (players_core _ _ Hc).
    assert (Hb : JsMap.get (currentTurnPlayerId s) (players (timeoutBooked s))
                 = Some (timeoutPlayer p)).
    { unfold timeoutBooked. simpl. now rewrite get_modify, String.eqb_refl, Hget. }
    destruct (get_players_advance E false _ _ _ Hb) as [p' [Hp' Hor]].
    change (currentTurnPlayerId (timeoutBooked s)) with (currentTurnPlayerId s) in Hp'.
    exists p'. split; [exact Hp'|].
    assert (Ht : lives (timeoutPlayer p) = (lives p - 1)%Z /\
                 state (timeoutPlayer p)
                 = (if (lives p - 1 =? 0)%Z then ELIMINATED else state p) /\
                 currentInput (timeoutPlayer p) = ""%string /\
                 score (timeoutPlayer p) = score p).
    { unfold timeoutPlayer. simpl.
      destruct (Z.leb_spec (lives p - 1) 0); destruct (Z.eqb_spec (lives p - 1) 0);
        simpl; repeat split; try reflexivity; lia. }
    destruct Ht as (T1 & T2 & T3 & T4).
    destruct Hor as [-> | ->];
      cbn [lives state score currentInput set_currentInput];
      rewrite T1, T2, T4; auto.
  - intros Hrs Hne.
    rewrite (currentCombo_core _ _ Hc), (comboCalls_core _ _ Hc),
      (roundStartPlayerId_core _ _ Hc).
    rewrite (currentTurnPlayerId_core _ _ Hc) in Hne.
    rewrite advanceToNextPlayer_nextAlive in *.
    destruct (nextAlive (timeoutBooked s)) as [k'|]; [|auto].
    destruct (selectNextPlayer_spec E false k' (timeoutBooked s))
      as (S1 & _ & S3 & S4 & S5 & _).
    rewrite S1 in Hne. rewrite S3, S4, S5.
    unfold roundStartChecked.
    change (roundStartPlayerId (timeoutBooked s)) with (roundStartPlayerId s).
    rewrite Hrs. simpl.
    destruct (String.eqb k' (roundStartPlayerId s)) eqn:He;
      [apply String.eqb_eq in He; contradiction | auto].
  - unfold nextAlive.
    assert (Hrr : roundRobin (timeoutBooked s) = roundRobin s).
    { unfold roundRobin, timeoutBooked, modifyPlayer.
      cbn [players currentTurnPlayerId set_players set_failedCombos].
      now rewrite keys_modify. }
    rewrite Hrr. apply find_ext_in_keys. intros x _.
    unfold aliveKey at 1. unfold timeoutBooked, modifyPlayer.
    cbn [players set_players set_failedCombos]. rewrite get_modify.
    destruct (String.eqb (currentTurnPlayerId s) x) eqn:He; [|reflexivity].
    apply String.eqb_eq in He. subst x. rewrite Hget. cbn [option_map].
    unfold timeoutPlayer. cbn [lives state set_lives set_state set_currentInput].
    destruct (Z.leb_spec (lives p - 1) 0); destruct (Z.ltb_spec 1 (lives p)); try lia;
      cbn [state set_state set_lives]; rewrite ?andb_false_r, ?andb_true_r; reflexivity.
  - intros k' Hn.
    rewrite (currentTurnPlayerId_core _ _ Hc), (currentCombo_core _ _ Hc),
      (comboCalls_core _ _ Hc), (roundStartPlayerId_core _ _ Hc).
    rewrite advanceToNextPlayer_nextAlive, Hn.
    destruct (selectNextPlayer_spec E false k' (timeoutBooked s))
      as (S1 & _ & S3 & S4 & S5 & _).
    rewrite S1, S3, S4, S5. cbn [orb]. split; [reflexivity|]. split.
    + intros Hne.
      destruct (String.eqb_spec k' (roundStartChecked (timeoutBooked s) k'));
        [contradiction | auto].
    + intros He. rewrite <- He, String.eqb_refl. auto.
  - intros Hn.
    rewrite (currentTurnPlayerId_core _ _ Hc), (currentCombo_core _ _ Hc),
      (comboCalls_core _ _ Hc), (roundStartPlayerId_core _ _ Hc).
    rewrite advanceToNextPlayer_nextAlive, Hn. auto.
Qed.

Lemma handleTimeout_spec_witness :
  let s := Sample.playing3 in
  let s' := handleTimeout Sample.env 10000 s in
  currentTurnPlayerId s = "p1"%string /\
  failedCombos s' = ["AL"%string] /\
  currentCombo s' = currentCombo s /\
  currentTurnPlayerId s' = "p2"%string.
Proof.
  intros s s'.
  assert (Hd : NoDup (JsMap.keys (players s))) by nodup_keys.
  assert (Hl : (1 <= lives (mkPlayer "p1" "Ann" ALIVE 3 0 true "" (Sample.sock 1)))%Z)
    by (simpl; lia).
  assert (Hn : nextAlive (timeoutBooked s) = Some "p2"%string)
    by (vm_compute; reflexivity).
  pose proof (handleTimeout_spec Sample.env 10000 s
                (mkPlayer "p1" "Ann" ALIVE 3 0 true "" (Sample.sock 1))
                eq_refl Hd eq_refl Hl) as H.
  cbv zeta in H. destruct H as (Hf & _ & _ & _ & Hkeep & _ & Hturn & _).
  split; [reflexivity|]. split; [exact Hf|]. split.
  - apply Hkeep; [reflexivity | vm_compute; discriminate].
  - exact (proj1 (Hturn "p2"%string Hn)).
Defined.

(** ** Rotation of the combo *)

(** When the scan selects [k], a new combo is generated exactly when the
    advance is forced or [k] is the round-start player the selection
    compares with. *)
Lemma advanceToNextPlayer_rotation E force s k :
  nextAlive s = Some k ->
  let s' := advanceToNextPlayer E force s in
  currentTurnPlayerId s' = k /\
  (comboCalls s' = S (comboCalls s) /\
   currentCombo s' = generateNewCombo E (comboCalls s) /\
   roundStartPlayerId s' = k <->
   force = true \/ k = roundStartChecked s k) /\
  (comboCalls s' = comboCalls s /\ currentCombo s' = currentCombo s <->
   force = false /\ k <> roundStartChecked s k).
Proof.
  intros Hn s'. subst s'. rewrite advanceToNextPlayer_nextAlive, Hn.
  destruct (selectNextPlayer_spec E force k s) as (S1 & _ & S3 & S4 & S5 & _).
  rewrite S1, S3, S4, S5. split; [reflexivity|].
  assert (Hn1 : forall n : nat, S n = n -> False) by (intros; lia).
  assert (Hn2 : forall n : nat, n = S n -> False) by (intros; lia).
  destruct force; simpl;
    [|destruct (String.eqb_spec k (roundStartChecked s k)) as [He|He]];
    (split; split; intros H);
    first [ solve [repeat split; reflexivity]
          | solve [left; reflexivity]
          | solve [right; exact He]
          | solve [split; [reflexivity | exact He]]
          | solve [destruct H as [H _]; exfalso; eauto]
          | solve [destruct H as [H | H]; [discriminate | contradiction]]
          | solve [destruct H as [H H']; first [discriminate | contradiction]] ].
Qed.

(** C1. The rule that after a TIMEOUT the combo stays until every ALIVE
    player has had a turn at it does not hold on this run. In a three-player
    match where everybody lets the timer run out, the third combo, "TA", is
    handed to [p1], who starts its round with one life left. [p1] times out
    and is eliminated; the turn goes to [p2] with a fourth, freshly generated
    combo, although [p2] and [p3] are ALIVE and neither has held the turn
    under "TA". *)
Theorem timeout_of_round_starter_rotates_combo :
  let ticks := [OpTick 10000; OpTick 20000; OpTick 30000; OpTick 40000;
                OpTick 50000; OpTick 60000; OpTick 70000]%Z in
  let final := run Sample.env ticks Sample.playing3 in
  turnView Sample.playing3 :: map turnView (history Sample.env ticks Sample.playing3)
  = [("p1", 1, "AL"); ("p2", 1, "AL"); ("p3", 1, "AL");
     ("p1", 2, "MA"); ("p2", 2, "MA"); ("p3", 2, "MA");
     ("p1", 3, "TA"); ("p2", 4, "AL")]%string /\
  map (fun kv => (fst kv, state (snd kv), lives (snd kv))) (players final)
  = [("p1", ELIMINATED, 0); ("p2", ALIVE, 1); ("p3", ALIVE, 1)]%string%Z /\
  phase final = PLAYING.
Proof. vm_compute. repeat split; reflexivity. Qed.

(** ** Lives and states along the life of a session *)

Lemma keys_vitals m : JsMap.keys (vitals m) = JsMap.keys m.
Proof. unfold JsMap.keys, vitals. rewrite map_map. reflexivity. Qed.

Lemma get_vitals k m : JsMap.get k (vitals m) = option_map vital (JsMap.get k m).
Proof.
  induction m as [|[k1 v1] m IH]; simpl; [reflexivity|].
  destruct (String.eqb k k1); [reflexivity | apply IH].
Qed.

Lemma vitals_modify k f g m :
  (forall p, vital (f p) = g (vital p)) ->
  vitals (JsMap.modify k f m) = JsMap.modify k g (vitals m).
Proof.
  intros H. unfold vitals, JsMap.modify. rewrite !map_map. apply map_ext.
  intros [k1 v1]. simpl. destruct (String.eqb k k1); simpl; [now rewrite H | reflexivity].
Qed.

Lemma vitals_modify_same k f m :
  (forall p, vital (f p) = vital p) -> vitals (JsMap.modify k f m) = vitals m.
Proof.
  intros H. unfold vitals, JsMap.modify. rewrite !map_map. apply map_ext.
  intros [k1 v1]. simpl. destruct (String.eqb k k1); simpl; [now rewrite H | reflexivity].
Qed.

Lemma vitals_forEach f g m :
  (forall p, vital (f p) = g (vital p)) ->
  vitals (JsMap.forEach f m) = JsMap.forEach g (vitals m).
Proof.
  intros H. unfold vitals, JsMap.forEach. rewrite !map_map. apply map_ext.
  intros [k1 v1]. simpl. now rewrite H.
Qed.

Lemma vitals_set k v m : vitals (JsMap.set k v m) = JsMap.set k (vital v) (vitals m).
Proof.
  induction m as [|[k1 v1] m IH]; simpl; [reflexivity|].
  destruct (String.eqb k k1); simpl; [reflexivity | now rewrite IH].
Qed.

Lemma vitals_delete k m : vitals (JsMap.delete k m) = JsMap.delete k (vitals m).
Proof.
  induction m as [|[k1 v1] m IH]; simpl; [reflexivity|].
  destruct (String.eqb k k1); simpl; [exact IH | now rewrite IH].
Qed.

Lemma get_set (V : Type) k k1 (v : V) m :
  JsMap.get k1 (JsMap.set k v m) = if String.eqb k1 k then Some v else JsMap.get k1 m.
Proof.
  induction m as [|[k2 v2] m IH]; simpl.
  - reflexivity.
  - destruct (String.eqb k k2) eqn:H2; simpl.
    + apply String.eqb_eq in H2. subst k2. destruct (String.eqb k1 k); reflexivity.
    + rewrite IH. destruct (String.eqb k1 k2) eqn:H3; [|reflexivity].
      apply String.eqb_eq in H3. subst k2.
      destruct (String.eqb k1 k) eqn:H4; [|reflexivity].
      apply String.eqb_eq in H4. subst k1. now rewrite String.eqb_refl in H2.
Qed.

Lemma rosterOk_get m k v : rosterOk m -> JsMap.get k m = Some v -> vitalOk k v.
Proof. intros [_ H] Hg. apply H. now apply get_In. Qed.

Lemma rosterOk_set k v m : vitalOk k v -> rosterOk m -> rosterOk (JsMap.set k v m).
Proof.
  intros Hv [Hd Hall]. split; [now apply NoDup_keys_set|].
  intros k1 v1 Hin. apply In_set in Hin. destruct Hin as [[-> ->] | Hin]; auto.
Qed.

Lemma rosterOk_delete k m : rosterOk m -> rosterOk (JsMap.delete k m).
Proof.
  intros [Hd Hall]. split; [now apply NoDup_keys_delete|].
  intros k1 v1 Hin. apply In_delete in Hin. now apply Hall.
Qed.

Lemma rosterOk_modify k f m :
  rosterOk m ->
  (forall v, JsMap.get k m = Some v -> vitalOk k (f v)) ->
  rosterOk (JsMap.modify k f m).
Proof.
  intros [Hd Hall] Hf. split; [now rewrite keys_modify|].
  intros k1 v1 Hin. apply In_modify in Hin. destruct Hin as [v0 [Hin ->]].
  destruct (String.eqb k k1) eqn:He; [|now apply Hall].
  apply String.eqb_eq in He. subst k1. apply Hf. now apply NoDup_In_get.
Qed.

Lemma rosterOk_forEach f m :
  rosterOk m -> (forall k v, vitalOk k v -> vitalOk k (f v)) ->
  rosterOk (JsMap.forEach f m).
Proof.
  intros [Hd Hall] Hf. split; [now rewrite keys_forEach|].
  intros k1 v1 Hin. apply In_forEach in Hin. destruct Hin as [v0 [Hin ->]]. auto.
Qed.

Lemma vitals_selectNextPlayer E force k s :
  vitals (players (selectNextPlayer E force k s)) = vitals (players s).
Proof.
  destruct (selectNextPlayer_spec E force k s) as (_ & -> & _).
  now apply vitals_modify_same.
Qed.

Lemma vitals_advanceToNextPlayer E force s :
  vitals (players (advanceToNextPlayer E force s)) = vitals (players s).
Proof.
  rewrite advanceToNextPlayer_nextAlive.
  destruct (nextAlive s); [apply vitals_selectNextPlayer | reflexivity].
Qed.

Lemma tickInterval_advanceToNextPlayer E force s :
  tickInterval (advanceToNextPlayer E force s) = tickInterval s.
Proof.
  rewrite advanceToNextPlayer_nextAlive.
  destruct (nextAlive s) as [k|]; [|reflexivity].
  now destruct (selectNextPlayer_spec E force k s) as (_ & _ & _ & _ & _ & _ & _ & _ & _ & -> & _).
Qed.

Lemma phase_advanceToNextPlayer E force s :
  phase (advanceToNextPlayer E force s) = phase s.
Proof.
  rewrite advanceToNextPlayer_nextAlive.
  destruct (nextAlive s) as [k|]; [|reflexivity].
  now destruct (selectNextPlayer_spec E force k s) as (_ & _ & _ & _ & _ & _ & _ & -> & _).
Qed.

Lemma aliveCount_zero s :
  NoDup (JsMap.keys (players s)) ->
  (forall k p, JsMap.get k (players s) = Some p -> state p <> ALIVE) ->
  aliveCount s = 0.
Proof.
  intros Hd Hall. unfold aliveCount.
  destruct (filter _ _) as [|p l] eqn:Hf; [reflexivity|]. exfalso.
  assert (Hin : In p (filter (fun p => PlayerState_eqb (state p) ALIVE)
                        (JsMap.values (players s)))) by (rewrite Hf; now left).
  apply filter_In in Hin. destruct Hin as [Hin Ha].
  apply In_values_entry in Hin. destruct Hin as [k Hin].
  apply PlayerState_eqb_eq in Ha. apply (Hall k p); [|exact Ha].
  now apply NoDup_In_get.
Qed.

(** After the advance either nobody is ALIVE or the holder of the turn
    has a life left. *)
Lemma advanceToNextPlayer_holder E force d :
  rosterOk (vitals (players d)) ->
  let x := advanceToNextPlayer E force d in
  aliveCount x = 0 \/ holderOk (vitals (players x)) (currentTurnPlayerId x).
Proof.
  intros Hr x. subst x.
  destruct (advanceToNextPlayer_cases E force d) as [[Heq Hall] | [k [p [Hg [Ha Heq]]]]];
    rewrite Heq.
  - left. apply aliveCount_zero; [|exact Hall].
    destruct Hr as [Hd _]. now rewrite keys_vitals in Hd.
  - right. rewrite vitals_selectNextPlayer.
    destruct (selectNextPlayer_spec E force k d) as (-> & _).
    intros v Hv. rewrite get_vitals, Hg in Hv. injection Hv as <-.
    assert (Hok : vitalOk k (vital p)).
    { apply (rosterOk_get _ _ _ Hr). now rewrite get_vitals, Hg. }
    unfold vitalOk, vital in *. simpl. tauto.
Qed.

Lemma checkWinCondition_fst_players E s s' :
  players s = players s' ->
  fst (checkWinCondition E s) = fst (checkWinCondition E s').
Proof.
  intros H. unfold checkWinCondition, aliveCount. rewrite H.
  repeat break_match; reflexivity.
Qed.

Lemma tickInterval_endGame E w s : tickInterval (endGame E w s) = false.
Proof. unfold endGame. simpl. apply tickInterval_stopTurnTimer. Qed.

Lemma tickInterval_checkWinCondition E s :
  tickInterval (snd (checkWinCondition E s)) =
  if fst (checkWinCondition E s) then false else tickInterval s.
Proof.
  unfold checkWinCondition.
  destruct (Nat.eqb (JsMap.size (players s)) 1 && Nat.eqb (aliveCount s) 0);
    [cbn [fst snd]; apply tickInterval_endGame|].
  destruct ((1 <? JsMap.size (players s)) && (aliveCount s <=? 1));
    cbn [fst snd]; [apply tickInterval_endGame | reflexivity].
Qed.

Lemma tickInterval_finishTurn E k result word now x :
  tickInterval (finishTurn E k result word now x)
  = negb (fst (checkWinCondition E x)).
Proof.
  unfold finishTurn.
  set (s2 := match JsMap.get k (players x) with Some _ => _ | None => _ end).
  set (s3 := match JsMap.get k (players s2) with Some _ => _ | None => _ end).
  assert (H2 : players s2 = players x) by (subst s2; now destruct (JsMap.get k (players x))).
  assert (H3 : players s3 = players s2) by (subst s3; now destruct (JsMap.get k (players s2))).
  rewrite (checkWinCondition_fst_players E x s3) by congruence.
  pose proof (tickInterval_checkWinCondition E s3) as Ht.
  destruct (checkWinCondition E s3) as [won s4]. simpl in *.
  destruct won; [exact Ht | reflexivity].
Qed.

Lemma not_won_no_alive E x :
  fst (checkWinCondition E x) = false -> aliveCount x = 0 -> players x = [].
Proof.
  unfold checkWinCondition. intros Hw Ha. rewrite Ha in Hw. simpl in Hw.
  unfold JsMap.size in Hw.
  destruct (players x) as [|e1 [|e2 l]]; [reflexivity | discriminate | discriminate].
Qed.

Lemma aliveCount_players s s' : players s = players s' -> aliveCount s = aliveCount s'.
Proof. unfold aliveCount. now intros ->. Qed.

Lemma Inv_finishTurn E k result word now x :
  rosterOk (vitals (players x)) ->
  aliveCount x = 0 \/ holderOk (vitals (players x)) (currentTurnPlayerId x) ->
  Inv (finishTurn E k result word now x).
Proof.
  intros Hr Hh. pose proof (core_finishTurn E k result word now x) as Hc.
  pose proof (players_core _ _ Hc) as Hp.
  pose proof (currentTurnPlayerId_core _ _ Hc) as Hk.
  split; [now rewrite Hp|].
  rewrite tickInterval_finishTurn, Hp, Hk. intros Hw.
  apply negb_true_iff in Hw. destruct Hh as [Ha | Hh]; [|exact Hh].
  rewrite (not_won_no_alive E x Hw Ha). intros v Hv. discriminate Hv.
Qed.

Lemma Inv_ext s s' :
  vitals (players s') = vitals (players s) ->
  currentTurnPlayerId s' = currentTurnPlayerId s ->
  (tickInterval s' = true -> tickInterval s = true) ->
  Inv s -> Inv s'.
Proof.
  intros Hp Hk Ht [Hr Hh]. unfold Inv. rewrite Hp, Hk. split; auto.
Qed.

Lemma holderOk_modify k (g : Vital -> Vital) m cur :
  (forall v, snd (g v) = snd v) -> holderOk m cur -> holderOk (JsMap.modify k g m) cur.
Proof.
  intros Hg Hh v Hv. rewrite get_modify in Hv.
  destruct (String.eqb k cur); [|now apply Hh].
  destruct (JsMap.get cur m) as [v0|] eqn:H0; [|discriminate].
  injection Hv as <-. rewrite Hg. now apply Hh.
Qed.

Lemma Inv_new id0 name0 hostId0 : Inv (newGameSession id0 name0 hostId0).
Proof.
  split; [|discriminate]. split; [constructor | intros k v []].
Qed.

Lemma Inv_addPlayer id0 name0 ws0 s : Inv s -> Inv (snd (addPlayer id0 name0 ws0 s)).
Proof.
  intros [Hr Hh]. unfold addPlayer.
  destruct (MAX_PLAYERS <=? JsMap.size (players s)); [now split|].
  destruct (negb (GamePhase_eqb (phase s) LOBBY)); [now split|].
  cbn [snd].
  assert (Hgoal : Inv (set_players
            (JsMap.set id0 (createPlayer id0 name0 ws0 (Nat.eqb (JsMap.size (players s)) 0))
               (players s)) s)).
  { split; simpl; rewrite vitals_set.
    - apply rosterOk_set; [|exact Hr].
      unfold vitalOk, vital, createPlayer, DEFAULT_LIVES. cbn [id state lives].
      repeat split; first [reflexivity | lia | (intros; lia)].
    - intros Ht v Hv. rewrite get_set in Hv.
      destruct (String.eqb (currentTurnPlayerId s) id0).
      + injection Hv as <-. simpl. unfold DEFAULT_LIVES. lia.
      + now apply (Hh Ht). }
  destruct (Nat.eqb (JsMap.size (players s)) 0); [|exact Hgoal].
  revert Hgoal. apply Inv_ext; reflexivity || auto.
Qed.

Lemma Inv_setPlayerReady playerId ready s : Inv s -> Inv (setPlayerReady playerId ready s).
Proof.
  intros [Hr Hh]. unfold setPlayerReady.
  destruct (JsMap.get playerId (players s)) as [p|] eqn:Hg; [|now split].
  set (st := if ready then READY else CONNECTED).
  assert (Hst : st <> ALIVE) by (subst st; destruct ready; discriminate).
  assert (Hv : vitals (JsMap.modify playerId (set_state st) (players s))
               = JsMap.modify playerId (fun v => (fst (fst v), st, snd v)) (vitals (players s))).
  { apply vitals_modify. reflexivity. }
  split; simpl; rewrite Hv.
  - apply rosterOk_modify; [exact Hr|]. intros [[i st0] n] Hi.
    pose proof (rosterOk_get _ _ _ Hr Hi) as Hok. unfold vitalOk in *. simpl.
    destruct Hok as (H1 & H2 & _). repeat split; try tauto; try lia.
  - intros Ht. apply holderOk_modify; [reflexivity | auto].
Qed.

Lemma Inv_handleTurnInput playerId input s : Inv s -> Inv (handleTurnInput playerId input s).
Proof.
  intros Hi. unfold handleTurnInput. repeat break_match; try exact Hi.
  revert Hi. apply Inv_ext; simpl; auto. now apply vitals_modify_same.
Qed.

Lemma Inv_returnToLobby s : Inv s -> Inv (returnToLobby s).
Proof.
  intros [Hr _]. unfold returnToLobby, broadcastPlayerList, broadcast. simpl.
  pose proof (players_core _ _ (core_stopTurnTimer s)) as Hp.
  split; simpl; [|rewrite tickInterval_stopTurnTimer; discriminate].
  rewrite Hp.
  rewrite (vitals_forEach resetPlayer (fun v => (fst (fst v), CONNECTED, DEFAULT_LIVES)))
    by reflexivity.
  apply rosterOk_forEach; [exact Hr|]. intros k [[i st] n]. unfold vitalOk, DEFAULT_LIVES.
  simpl. intros (H1 & _). repeat split; try lia; assumption.
Qed.

Lemma validateWord_not_TIMEOUT E word combo used :
  validateWord E word combo used <> TIMEOUT.
Proof. unfold validateWord. repeat break_match; discriminate. Qed.

Lemma vitals_bookCorrect E k word s0 :
  vitals (players (bookCorrect E k word s0)) = vitals (players s0).
Proof.
  unfold bookCorrect, modifyPlayer. simpl.
  rewrite !vitals_modify_same; reflexivity.
Qed.

Lemma Inv_processTurnResult_correct E k word now s :
  Inv s -> Inv (processTurnResult E k CORRECT word now s).
Proof.
  intros [Hr _]. rewrite processTurnResult_finishTurn.
  assert (Hb : rosterOk (vitals (players (bookCorrect E k word (stopTurnTimer s))))).
  { rewrite vitals_bookCorrect, (players_core _ _ (core_stopTurnTimer s)). exact Hr. }
  apply Inv_finishTurn.
  - now rewrite vitals_advanceToNextPlayer.
  - now apply advanceToNextPlayer_holder.
Qed.

Lemma vital_timeoutPlayer p : vital (timeoutPlayer p) = timeoutVital (vital p).
Proof.
  unfold timeoutPlayer, timeoutVital, vital. simpl.
  destruct (lives p - 1 <=? 0)%Z; reflexivity.
Qed.

Lemma rosterOk_timeoutBooked s :
  rosterOk (vitals (players s)) ->
  holderOk (vitals (players s)) (currentTurnPlayerId s) ->
  rosterOk (vitals (players (timeoutBooked s))).
Proof.
  intros Hr Hh. unfold timeoutBooked, modifyPlayer. simpl.
  rewrite (vitals_modify _ timeoutPlayer timeoutVital) by apply vital_timeoutPlayer.
  apply rosterOk_modify; [exact Hr|]. intros [[i st] n] Hv.
  pose proof (rosterOk_get _ _ _ Hr Hv) as Hok. specialize (Hh _ Hv).
  unfold vitalOk, timeoutVital, DEFAULT_LIVES in *. simpl in *.
  destruct Hok as (H1 & H2 & _).
  destruct (Z.leb_spec (n - 1) 0); repeat split; try assumption; try lia;
    intros; try discriminate; lia.
Qed.

Lemma rosterOk_core s s' :
  core s = core s' -> rosterOk (vitals (players s)) -> rosterOk (vitals (players s')).
Proof. intros H. now rewrite (players_core _ _ H). Qed.

Lemma Inv_processTurnResult_timeout E now s p :
  rosterOk (vitals (players s)) ->
  holderOk (vitals (players s)) (currentTurnPlayerId s) ->
  JsMap.get (currentTurnPlayerId s) (players s) = Some p ->
  Inv (processTurnResult E (currentTurnPlayerId s) TIMEOUT ""%string now s).
Proof.
  intros Hr Hh Hget. rewrite processTurnResult_finishTurn.
  set (s0 := stopTurnTimer s).
  assert (H0 : core s0 = core s) by apply core_stopTurnTimer.
  assert (Hd : NoDup (JsMap.keys (players s0))).
  { rewrite (players_core _ _ H0). destruct Hr as [Hd _]. now rewrite keys_vitals in Hd. }
  assert (Hg0 : JsMap.get (currentTurnPlayerId s0) (players s0) = Some p)
    by now rewrite (players_core _ _ H0), (currentTurnPlayerId_core _ _ H0).
  assert (Hb : core (bookTimeout (currentTurnPlayerId s) s0) = core (timeoutBooked s)).
  { rewrite <- (currentTurnPlayerId_core _ _ H0), (bookTimeout_core s0 p Hd Hg0).
    now apply timeoutBooked_core_ext. }
  assert (Hrb : rosterOk (vitals (players (bookTimeout (currentTurnPlayerId s) s0)))).
  { rewrite (players_core _ _ Hb). now apply rosterOk_timeoutBooked. }
  apply Inv_finishTurn.
  - now rewrite vitals_advanceToNextPlayer.
  - now apply advanceToNextPlayer_holder.
Qed.

Lemma Inv_stopTurnTimer s : Inv s -> Inv (stopTurnTimer s).
Proof.
  intros [Hr _]. split.
  - now rewrite (players_core _ _ (core_stopTurnTimer s)).
  - rewrite tickInterval_stopTurnTimer. discriminate.
Qed.

Lemma Inv_handleTurnSubmit E playerId word now s :
  Inv s -> Inv (handleTurnSubmit E playerId word now s).
Proof.
  intros Hi. unfold handleTurnSubmit.
  destruct (negb (GamePhase_eqb (phase s) PLAYING)); [exact Hi|].
  destruct (negb (String.eqb playerId (currentTurnPlayerId s))); [exact Hi|].
  destruct (JsMap.get playerId (players s)) as [p|]; [|exact Hi].
  destruct (negb (PlayerState_eqb (state p) ALIVE)); [exact Hi|].
  pose proof (validateWord_not_TIMEOUT E word (currentCombo s) (usedWords s)) as Hnt.
  destruct (validateWord E word (currentCombo s) (usedWords s)).
  - now apply Inv_processTurnResult_correct.
  - revert Hi. apply Inv_ext; simpl; auto.
  - revert Hi. apply Inv_ext; simpl; auto.
  - contradiction.
Qed.

Lemma Inv_tick E now s : Inv s -> Inv (tick E now s).
Proof.
  intros Hi. unfold tick. destruct (tickInterval s) eqn:Ht; [|exact Hi].
  set (s1 := set_turnTimer (turnDuration s - elapsedSeconds now s)%Q s).
  assert (Hi1 : Inv s1) by (revert Hi; apply Inv_ext; simpl; auto).
  destruct (Qle_bool (turnTimer s1) 0); [|exact Hi1].
  unfold handleTimeout.
  pose proof (core_stopTurnTimer s1) as H0.
  destruct (JsMap.get (currentTurnPlayerId (stopTurnTimer s1)) (players (stopTurnTimer s1)))
    as [p|] eqn:Hg; [|now apply Inv_stopTurnTimer].
  destruct Hi1 as [Hr Hh]. specialize (Hh Ht).
  apply Inv_processTurnResult_timeout with (p := p).
  - now rewrite (players_core _ _ H0).
  - now rewrite (players_core _ _ H0), (currentTurnPlayerId_core _ _ H0).
  - exact Hg.
Qed.

Lemma vital_readyToAlive p : vital (readyToAlive p) = readyVital (vital p).
Proof.
  unfold readyToAlive, readyVital, vital.
  destruct (PlayerState_eqb (state p) READY); reflexivity.
Qed.

Lemma canStartGame_some_ready s :
  canStartGame s = true ->
  exists p, In p (JsMap.values (players s)) /\ state p = READY.
Proof.
  unfold canStartGame, MIN_PLAYERS. intros H. apply Nat.leb_le in H.
  destruct (filter _ _) as [|p l] eqn:Hf; [simpl in H; lia|].
  assert (Hin : In p (filter (fun p => PlayerState_eqb (state p) READY)
                        (JsMap.values (players s)))) by (rewrite Hf; now left).
  apply filter_In in Hin. destruct Hin as [Hin Hst].
  apply PlayerState_eqb_eq in Hst. eauto.
Qed.

Lemma Inv_startGame E now s : Inv s -> Inv (snd (startGame E now s)).
Proof.
  intros Hi. destruct (canStartGame s) eqn:Hc.
  2:{ now rewrite startGame_failure. }
  destruct Hi as [Hr _].
  unfold startGame. rewrite Hc. cbn [negb snd].
  set (m' := JsMap.forEach readyToAlive (players s)).
  assert (Hr' : rosterOk (vitals m')).
  { unfold m'. rewrite (vitals_forEach _ readyVital) by apply vital_readyToAlive.
    apply rosterOk_forEach; [exact Hr|]. intros k [[i st] n].
    unfold vitalOk, readyVital, DEFAULT_LIVES. simpl.
    destruct (PlayerState_eqb st READY); [|tauto].
    intros (H1 & _). repeat split; try assumption; intros; lia. }
  match goal with
  | |- Inv (startTurnTimer _ (broadcast _ ?x)) => set (s7 := x)
  end.
  set (s8 := broadcast _ s7).
  assert (Hp7 : players s7 = m') by (subst s7; break_match; reflexivity).
  assert (Hh7 : holderOk (vitals (players s7)) (currentTurnPlayerId s7)).
  { subst s7. cbn [players set_players set_usedWords set_failedCombos set_phase
                   set_comboCalls set_currentCombo set_turnTimer].
    fold m'.
    destruct (find (fun p => PlayerState_eqb (state p) ALIVE) (JsMap.values m'))
      as [player|] eqn:Hfind; simpl.
    - apply find_some in Hfind. destruct Hfind as [Hin Hal].
      apply PlayerState_eqb_eq in Hal.
      apply In_values_entry in Hin. destruct Hin as [k Hin].
      assert (Hinv : In (k, vital player) (vitals m')).
      { unfold vitals. apply in_map_iff. exists (k, player). auto. }
      destruct Hr' as [Hd Hall]. pose proof (Hall _ _ Hinv) as Hok.
      unfold vitalOk, vital in Hok. destruct Hok as (Hid & _ & Hlive).
      intros v Hv. rewrite Hid in Hv.
      rewrite (NoDup_In_get _ _ _ _ Hd Hinv) in Hv. injection Hv as <-.
      simpl. auto.
    - exfalso. destruct (canStartGame_some_ready s Hc) as [p0 [Hin0 Hst0]].
      assert (Hin' : In (readyToAlive p0) (JsMap.values m')).
      { unfold m'. rewrite values_forEach. now apply in_map. }
      pose proof (find_none _ _ Hfind _ Hin') as Hno.
      unfold readyToAlive in Hno. rewrite Hst0 in Hno. discriminate Hno. }
  pose proof (core_startTurnTimer now s8) as Hc8.
  split.
  - rewrite (players_core _ _ Hc8). subst s8. simpl. now rewrite Hp7.
  - intros _. rewrite (players_core _ _ Hc8), (currentTurnPlayerId_core _ _ Hc8).
    exact Hh7.
Qed.

Lemma holderOk_delete k (m : JsMap.t Vital) cur :
  holderOk m cur -> holderOk (JsMap.delete k m) cur.
Proof.
  intros Hh v Hv. destruct (String.eqb_spec k cur) as [->|Hne].
  - rewrite get_delete_same in Hv. discriminate.
  - rewrite get_delete_other in Hv by exact Hne. now apply Hh.
Qed.

Lemma Inv_removePlayer E playerId s : Inv s -> Inv (removePlayer E playerId s).
Proof.
  intros [Hr Hh]. unfold removePlayer.
  destruct (JsMap.get playerId (players s)) as [player|] eqn:Hg; [|now split].
  set (s1 := set_players (JsMap.delete playerId (players s)) s).
  set (s2 := if isHost player && (0 <? JsMap.size (players s1)) then _ else s1).
  assert (Hv2 : vitals (players s2) = JsMap.delete playerId (vitals (players s))).
  { rewrite <- vitals_delete. subst s2.
    destruct (isHost player && (0 <? JsMap.size (players s1))); [|reflexivity].
    subst s1. simpl. destruct (JsMap.delete playerId (players s)) as [|[k h] rest];
      reflexivity. }
  assert (Hk2 : currentTurnPlayerId s2 = currentTurnPlayerId s /\
                tickInterval s2 = tickInterval s /\ phase s2 = phase s).
  { subst s2. destruct (isHost player && (0 <? JsMap.size (players s1)));
      [|now subst s1]. subst s1. simpl.
    destruct (JsMap.delete playerId (players s)) as [|[k h] rest]; now simpl. }
  destruct Hk2 as (Hk2 & Ht2 & Hph2).
  assert (Hr2 : rosterOk (vitals (players s2))).
  { rewrite Hv2. now apply rosterOk_delete. }
  assert (Hh2 : tickInterval s2 = true ->
                holderOk (vitals (players s2)) (currentTurnPlayerId s2)).
  { rewrite Ht2, Hv2, Hk2. intros Ht. apply holderOk_delete. auto. }
  clearbody s2. clear Hv2 Hk2 Ht2 Hph2 s1.
  unfold broadcastPlayerList.
  match goal with |- Inv (broadcast ?m ?x) => apply (Inv_ext x); try reflexivity; auto end.
  destruct (GamePhase_eqb (phase s2) PLAYING); [|now split].
  set (s' := if String.eqb (currentTurnPlayerId s2) playerId
             then advanceToNextPlayer E false s2 else s2).
  assert (Hr' : rosterOk (vitals (players s'))).
  { subst s'. destruct (String.eqb (currentTurnPlayerId s2) playerId);
      [now rewrite vitals_advanceToNextPlayer | exact Hr2]. }
  assert (Ht' : tickInterval s' = tickInterval s2).
  { subst s'. destruct (String.eqb (currentTurnPlayerId s2) playerId);
      [apply tickInterval_advanceToNextPlayer | reflexivity]. }
  assert (Hh' : tickInterval s' = true ->
                aliveCount s' = 0 \/
                holderOk (vitals (players s')) (currentTurnPlayerId s')).
  { subst s'. destruct (String.eqb (currentTurnPlayerId s2) playerId).
    - intros _. now apply advanceToNextPlayer_holder.
    - intros Ht. right. auto. }
  clearbody s'.
  pose proof (core_checkWinCondition E s') as Hc.
  split.
  - now rewrite (players_core _ _ Hc).
  - rewrite tickInterval_checkWinCondition, (players_core _ _ Hc),
      (currentTurnPlayerId_core _ _ Hc).
    destruct (fst (checkWinCondition E s')) eqn:Hw; [discriminate|].
    intros Ht. destruct (Hh' Ht) as [Ha | Hok]; [|exact Hok].
    rewrite (not_won_no_alive E s' Hw Ha). intros v Hv. discriminate Hv.
Qed.

Lemma Inv_step E op s : Inv s -> Inv (step E op s).
Proof.
  intros Hi. destruct op; simpl.
  - now apply Inv_addPlayer.
  - now apply Inv_removePlayer.
  - now apply Inv_setPlayerReady.
  - now apply Inv_startGame.
  - now apply Inv_handleTurnInput.
  - now apply Inv_handleTurnSubmit.
  - now apply Inv_tick.
  - now apply Inv_returnToLobby.
  - exact Hi.
Qed.

Lemma reachable_Inv E s : reachable E s -> Inv s.
Proof.
  induction 1 as [id0 name0 hostId0 | op s _ IH];
    [apply Inv_new | now apply Inv_step].
Qed.

(** ** How each operation changes the vital part of the roster *)

Lemma vitals_addPlayer id0 name0 ws0 s :
  vitals (players (snd (addPlayer id0 name0 ws0 s))) = vitals (players s) \/
  vitals (players (snd (addPlayer id0 name0 ws0 s)))
  = JsMap.set id0 (id0, CONNECTED, DEFAULT_LIVES) (vitals (players s)).
Proof.
  unfold addPlayer.
  destruct (MAX_PLAYERS <=? JsMap.size (players s)); [now left|].
  destruct (negb (GamePhase_eqb (phase s) LOBBY)); [now left|].
  right. cbn [snd].
  destruct (Nat.eqb (JsMap.size (players s)) 0); simpl; now rewrite vitals_set.
Qed.

Lemma vitals_removePlayer E playerId s :
  vitals (players (removePlayer E playerId s)) = vitals (players s) \/
  vitals (players (removePlayer E playerId s))
  = JsMap.delete playerId (vitals (players s)).
Proof.
  unfold removePlayer.
  destruct (JsMap.get playerId (players s)) as [player|]; [right | now left].
  set (s1 := set_players (JsMap.delete playerId (players s)) s).
  set (s2 := if isHost player && (0 <? JsMap.size (players s1)) then _ else s1).
  assert (Hv2 : vitals (players s2) = JsMap.delete playerId (vitals (players s))).
  { rewrite <- vitals_delete. subst s2.
    destruct (isHost player && (0 <? JsMap.size (players s1))); [|reflexivity].
    subst s1. simpl. destruct (JsMap.delete playerId (players s)) as [|[k h] rest];
      reflexivity. }
  clearbody s2. unfold broadcastPlayerList.
  change (players (broadcast ?m ?x)) with (players x). cbv beta.
  destruct (GamePhase_eqb (phase s2) PLAYING); [|exact Hv2].
  rewrite (players_core _ _ (core_checkWinCondition E _)).
  destruct (String.eqb (currentTurnPlayerId s2) playerId);
    [rewrite vitals_advanceToNextPlayer|]; exact Hv2.
Qed.

Lemma vitals_setPlayerReady playerId ready s :
  vitals (players (setPlayerReady playerId ready s)) = vitals (players s) \/
  vitals (players (setPlayerReady playerId ready s))
  = JsMap.modify playerId
      (fun v => (fst (fst v), if ready then READY else CONNECTED, snd v))
      (vitals (players s)).
Proof.
  unfold setPlayerReady.
  destruct (JsMap.get playerId (players s)); [right | now left].
  simpl. now apply vitals_modify.
Qed.

Lemma vitals_startGame E now s :
  vitals (players (snd (startGame E now s))) = vitals (players s) \/
  vitals (players (snd (startGame E now s)))
  = JsMap.forEach readyVital (vitals (players s)).
Proof.
  destruct (fst (startGame E now s)) eqn:Hok.
  - right. destruct (startGame_success E now s Hok) as (_ & -> & _).
    apply vitals_forEach. apply vital_readyToAlive.
  - left. unfold startGame in *. destruct (canStartGame s); [discriminate | reflexivity].
Qed.

Lemma vitals_handleTurnInput playerId input s :
  vitals (players (handleTurnInput playerId input s)) = vitals (players s).
Proof.
  unfold handleTurnInput. repeat break_match; try reflexivity.
  simpl. now apply vitals_modify_same.
Qed.

Lemma vitals_handleTurnSubmit E playerId word now s :
  vitals (players (handleTurnSubmit E playerId word now s)) = vitals (players s).
Proof.
  unfold handleTurnSubmit.
  destruct (negb (GamePhase_eqb (phase s) PLAYING)); [reflexivity|].
  destruct (negb (String.eqb playerId (currentTurnPlayerId s))); [reflexivity|].
  destruct (JsMap.get playerId (players s)) as [p|]; [|reflexivity].
  destruct (negb (PlayerState_eqb (state p) ALIVE)); [reflexivity|].
  pose proof (validateWord_not_TIMEOUT E word (currentCombo s) (usedWords s)) as Hnt.
  destruct (validateWord E word (currentCombo s) (usedWords s));
    try reflexivity; [|contradiction].
  rewrite processTurnResult_finishTurn, (players_core _ _ (core_finishTurn _ _ _ _ _ _)),
    vitals_advanceToNextPlayer, vitals_bookCorrect.
  now rewrite (players_core _ _ (core_stopTurnTimer s)).
Qed.

Lemma vitals_tick E now s :
  NoDup (JsMap.keys (players s)) ->
  vitals (players (tick E now s)) = vitals (players s) \/
  vitals (players (tick E now s))
  = JsMap.modify (currentTurnPlayerId s) timeoutVital (vitals (players s)).
Proof.
  intros Hd. unfold tick. destruct (tickInterval s); [|now left].
  set (s1 := set_turnTimer (turnDuration s - elapsedSeconds now s)%Q s).
  destruct (Qle_bool (turnTimer s1) 0); [|now left].
  destruct (JsMap.get (currentTurnPlayerId s1) (players s1)) as [p|] eqn:Hg.
  - right. rewrite (players_core _ _ (handleTimeout_core E now s1 p Hd Hg)).
    rewrite vitals_advanceToNextPlayer. unfold timeoutBooked, modifyPlayer. simpl.
    apply vitals_modify. apply vital_timeoutPlayer.
  - left. unfold handleTimeout.
    rewrite (players_core _ _ (core_stopTurnTimer s1)),
      (currentTurnPlayerId_core _ _ (core_stopTurnTimer s1)), Hg.
    now rewrite (players_core _ _ (core_stopTurnTimer s1)).
Qed.

Lemma vitals_returnToLobby s :
  vitals (players (returnToLobby s))
  = JsMap.forEach (fun v => (fst (fst v), CONNECTED, DEFAULT_LIVES)) (vitals (players s)).
Proof.
  unfold returnToLobby, broadcastPlayerList, broadcast. simpl.
  rewrite (players_core _ _ (core_stopTurnTimer s)).
  now apply vitals_forEach.
Qed.

(** From one state to the next the lives stored under a key stay, are
    reset to the default, or, at a tick and for the holder of the turn only,
    go through the timeout. *)
Lemma lives_step E op s k v v' :
  Inv s ->
  JsMap.get k (vitals (players s)) = Some v ->
  JsMap.get k (vitals (players (step E op s))) = Some v' ->
  snd v' = snd v \/ snd v' = DEFAULT_LIVES \/
  ((exists now, op = OpTick now) /\ k = currentTurnPlayerId s /\ v' = timeoutVital v).
Proof.
  intros [[Hd _] _] Hv. rewrite keys_vitals in Hd.
  assert (Hsame : JsMap.get k (vitals (players s)) = Some v' ->
                  snd v' = snd v \/ snd v' = DEFAULT_LIVES \/
                  ((exists now, op = OpTick now) /\ k = currentTurnPlayerId s /\
                   v' = timeoutVital v)).
  { intros H. left. congruence. }
  destruct op; cbn [step].
  - destruct (vitals_addPlayer id0 name0 ws0 s) as [-> | ->]; [exact Hsame|].
    rewrite get_set. destruct (String.eqb k id0); [|exact Hsame].
    intros [= <-]. right. now left.
  - destruct (vitals_removePlayer E playerId s) as [-> | ->]; [exact Hsame|].
    destruct (String.eqb_spec playerId k) as [->|Hne].
    + rewrite get_delete_same. discriminate.
    + rewrite get_delete_other by exact Hne. exact Hsame.
  - destruct (vitals_setPlayerReady playerId ready s) as [-> | ->]; [exact Hsame|].
    rewrite get_modify, Hv.
    destruct (String.eqb playerId k); simpl; intros [= <-]; now left.
  - destruct (vitals_startGame E now s) as [-> | ->]; [exact Hsame|].
    rewrite get_forEach, Hv. simpl. intros [= <-].
    destruct v as [[i st] n]. unfold readyVital.
    destruct (PlayerState_eqb st READY); auto.
  - rewrite vitals_handleTurnInput. exact Hsame.
  - rewrite vitals_handleTurnSubmit. exact Hsame.
  - destruct (vitals_tick E now s Hd) as [-> | ->]; [exact Hsame|].
    rewrite get_modify, Hv.
    destruct (String.eqb_spec (currentTurnPlayerId s) k) as [Hk|Hk]; simpl;
      intros [= <-]; [|now left].
    right. right. repeat split; eauto.
  - rewrite vitals_returnToLobby, get_forEach, Hv. simpl. intros [= <-].
    right. now left.
  - exact Hsame.
Qed.

(** C9, counterexample. In the three-player match the holder of the turn,
    [p1], has declared itself ready: it is READY, not ALIVE, with three
    lives. The tick that times its turn out takes one of them. *)
Lemma timeout_takes_life_from_ready_holder :
  reachable Sample.env Sample_ready_holder /\
  phase Sample_ready_holder = PLAYING /\
  currentTurnPlayerId Sample_ready_holder = "p1"%string /\
  JsMap.get "p1"%string (players Sample_ready_holder)
  = Some (mkPlayer "p1" "Ann" READY 3 0 true "" (Sample.sock 1)) /\
  JsMap.get "p1"%string (players (step Sample.env (OpTick 10000) Sample_ready_holder))
  = Some (mkPlayer "p1" "Ann" READY 2 0 true "" (Sample.sock 1)) /\
  ~ lives_as_stated.
Proof.
  assert (Hr : reachable Sample.env Sample_ready_holder)
    by (repeat apply reachable_run; apply reachable_new).
  assert (Hph : phase Sample_ready_holder = PLAYING) by (vm_compute; reflexivity).
  assert (Hcur : currentTurnPlayerId Sample_ready_holder = "p1"%string)
    by (vm_compute; reflexivity).
  assert (Hg : JsMap.get "p1"%string (players Sample_ready_holder)
               = Some (mkPlayer "p1" "Ann" READY 3 0 true "" (Sample.sock 1)))
    by (vm_compute; reflexivity).
  assert (Hg' : JsMap.get "p1"%string
                  (players (step Sample.env (OpTick 10000) Sample_ready_holder))
                = Some (mkPlayer "p1" "Ann" READY 2 0 true "" (Sample.sock 1)))
    by (vm_compute; reflexivity).
  repeat (split; [assumption|]).
  intros H. destruct (H Sample.env Sample_ready_holder Hr) as [_ H2].
  assert (Hlt : (lives (mkPlayer "p1" "Ann" READY 2 0 true "" (Sample.sock 1))
                 < lives (mkPlayer "p1" "Ann" READY 3 0 true "" (Sample.sock 1)))%Z)
    by (cbn [lives]; lia).
  destruct (H2 (OpTick 10000) "p1"%string _ _ Hg Hg' Hlt) as (_ & _ & Hst).
  discriminate Hst.
Qed.

(** C9, amended. In every state a session reaches from its construction through
    the operations of the engine, a player whose state is ALIVE has at least
    one life and no player has a negative number of lives. From one state to
    the next the lives of a player go down only at a tick that times out,
    only for the holder of the turn and only by one, and a player whose
    lives reach 0 in that step is ELIMINATED by the same step. *)
Theorem alive_players_have_lives (E : Env) (s : GameSession) :
  reachable E s ->
  (forall k p, JsMap.get k (players s) = Some p ->
     (0 <= lives p)%Z /\ (state p = ALIVE -> (1 <= lives p)%Z)) /\
  (forall p, In p (JsMap.values (players s)) ->
     (0 <= lives p)%Z /\ (state p = ALIVE -> (1 <= lives p)%Z)) /\
  (forall op k p p',
     JsMap.get k (players s) = Some p ->
     JsMap.get k (players (step E op s)) = Some p' ->
     (lives p' < lives p)%Z ->
     (exists now, op = OpTick now) /\
     k = currentTurnPlayerId s /\
     lives p' = (lives p - 1)%Z /\
     (0 <= lives p')%Z /\
     (lives p' = 0%Z -> state p' = ELIMINATED)).
Proof.
  intros Hreach. pose proof (reachable_Inv E s Hreach) as Hinv.
  assert (Hentry : forall k p, In (k, p) (players s) ->
            (0 <= lives p <= DEFAULT_LIVES)%Z /\ (state p = ALIVE -> (1 <= lives p)%Z)).
  { intros k p Hin. destruct Hinv as [[_ Hall] _].
    assert (Hinv' : In (k, vital p) (vitals (players s))).
    { unfold vitals. apply in_map_iff. exists (k, p). auto. }
    specialize (Hall _ _ Hinv'). unfold vitalOk, vital in Hall. tauto. }
  split; [|split].
  - intros k p Hg. apply get_In in Hg. destruct (Hentry k p Hg). split; [lia | assumption].
  - intros p Hin. apply In_values_entry in Hin. destruct Hin as [k Hin].
    destruct (Hentry k p Hin). split; [lia | assumption].
  - intros op k p p' Hg Hg' Hlt.
    assert (Hv : JsMap.get k (vitals (players s)) = Some (vital p))
      by now rewrite get_vitals, Hg.
    assert (Hv' : JsMap.get k (vitals (players (step E op s))) = Some (vital p'))
      by now rewrite get_vitals, Hg'.
    pose proof (Hentry k p (get_In _ _ _ _ Hg)) as [Hb _].
    pose proof (Inv_step E op s Hinv) as Hinv2.
    assert (Hb' : (0 <= lives p')%Z).
    { destruct Hinv2 as [[_ Hall] _].
      specialize (Hall _ _ (get_In _ _ _ _ Hv')). unfold vitalOk, vital in Hall. tauto. }
    destruct (lives_step E op s k _ _ Hinv Hv Hv') as [Hs | [Hs | (Hop & Hk & Ht)]];
      unfold vital in *; simpl in *.
    + lia.
    + lia.
    + unfold timeoutVital in Ht. injection Ht as _ Hst Hl.
      repeat split; try assumption.
      intros H0. rewrite Hst. rewrite Hl in H0.
      destruct (Z.leb_spec (lives p - 1) 0); [reflexivity | lia].
Qed.

Lemma alive_players_have_lives_witness :
  reachable Sample.env Sample_after_timeout /\
  (exists p, JsMap.get "p1"%string (players Sample_after_timeout) = Some p /\
             state p = ALIVE /\ lives p = 2%Z /\ (1 <= lives p)%Z) /\
  (exists p p',
     JsMap.get "p2"%string (players Sample_after_timeout) = Some p /\
     JsMap.get "p2"%string
       (players (step Sample.env (OpTick 20000) Sample_after_timeout)) = Some p' /\
     "p2"%string = currentTurnPlayerId Sample_after_timeout /\
     lives p' = (lives p - 1)%Z).
Proof.
  assert (Hr : reachable Sample.env Sample_after_timeout)
    by (repeat apply reachable_run; apply reachable_new).
  destruct (alive_players_have_lives Sample.env Sample_after_timeout Hr)
    as (H1 & _ & H3).
  assert (Hg1 : exists p, JsMap.get "p1"%string (players Sample_after_timeout) = Some p /\
                          state p = ALIVE /\ lives p = 2%Z)
    by (vm_compute; eexists; repeat split).
  assert (Hg2 : exists p p',
            JsMap.get "p2"%string (players Sample_after_timeout) = Some p /\
            JsMap.get "p2"%string
              (players (step Sample.env (OpTick 20000) Sample_after_timeout)) = Some p' /\
            (lives p' <? lives p)%Z = true)
    by (vm_compute; eexists _, _; repeat split).
  split; [exact Hr|]. split.
  - destruct Hg1 as (p & Hg & Hs & Hl). exists p.
    repeat (split; [assumption|]). exact (proj2 (H1 _ p Hg) Hs).
  - destruct Hg2 as (p & p' & Hg & Hg' & Hlt). apply Z.ltb_lt in Hlt.
    destruct (H3 (OpTick 20000) "p2"%string p p' Hg Hg' Hlt) as (_ & Hk & Hd & _).
    exists p, p'. auto.
Defined.

(** A CORRECT submission by the holder of the turn always generates a new
    combo, and the player who gets the turn starts its round. *)
Lemma correct_submission_rotates_combo E s playerId word now p :
  phase s = PLAYING ->
  playerId = currentTurnPlayerId s ->
  JsMap.get playerId (players s) = Some p ->
  state p = ALIVE ->
  validateWord E word (currentCombo s) (usedWords s) = CORRECT ->
  let s' := handleTurnSubmit E playerId word now s in
  comboCalls s' = S (comboCalls s) /\
  currentCombo s' = generateNewCombo E (comboCalls s) /\
  roundStartPlayerId s' = currentTurnPlayerId s'.
Proof.
  intros Hph Hcur Hget Hal Hv s'. subst s'. unfold handleTurnSubmit.
  rewrite Hph, <- Hcur, String.eqb_refl, Hget, Hal, Hv. cbn [negb GamePhase_eqb PlayerState_eqb].
  rewrite processTurnResult_finishTurn.
  pose proof (core_finishTurn E playerId CORRECT word now
                (advanceToNextPlayer E true (bookCorrect E playerId word (stopTurnTimer s))))
    as Hc.
  rewrite (comboCalls_core _ _ Hc), (currentCombo_core _ _ Hc),
    (roundStartPlayerId_core _ _ Hc), (currentTurnPlayerId_core _ _ Hc).
  set (c := bookCorrect E playerId word (stopTurnTimer s)).
  pose proof (core_stopTurnTimer s) as H0.
  assert (Hcc : comboCalls c = comboCalls s)
    by (subst c; unfold bookCorrect; simpl; now apply comboCalls_core).
  assert (Hgc : exists q, JsMap.get playerId (players c) = Some q /\ state q = ALIVE).
  { subst c. unfold bookCorrect, modifyPlayer. simpl.
    rewrite (players_core _ _ H0), !get_modify, String.eqb_refl, Hget. simpl. eauto. }
  destruct Hgc as [q [Hq Hqa]].
  destruct (advanceToNextPlayer_cases E true c) as [[_ Hall] | [k [r [_ [_ Heq]]]]].
  - exfalso. exact (Hall _ _ Hq Hqa).
  - rewrite Heq.
    destruct (selectNextPlayer_spec E true k c) as (S1 & _ & S3 & S4 & S5 & _).
    cbn [orb] in S3, S4, S5. rewrite S1, S3, S4, S5, Hcc. auto.
Qed.

(** ** The word lists *)

(** X2. The verdict of [validateWord] depends on the word and on the combo
    through their upper-case forms only. *)
Theorem validateWord_case_insensitive (E : Env) (w1 w2 c1 c2 : string)
    (used : JsSet.t) :
  w1 <> ""%string -> w2 <> ""%string ->
  toUpperCase E w1 = toUpperCase E w2 ->
  toUpperCase E c1 = toUpperCase E c2 ->
  validateWord E w1 c1 used = validateWord E w2 c2 used.
Proof.
  intros H1 H2 Hw Hc. unfold validateWord.
  destruct w1; [contradiction|]. destruct w2; [contradiction|].
  simpl. now rewrite Hw, Hc.
Qed.

Lemma validateWord_case_insensitive_witness :
  validateWord Sample.env "kala" "al" [] = validateWord Sample.env "KaLa" "AL" [].
Proof.
  apply validateWord_case_insensitive; try discriminate; reflexivity.
Defined.

(** X3. After a CORRECT submission the same word, in any casing, is
    ALREADY_USED, whatever the combo then is. *)
Theorem accepted_word_is_already_used (E : Env) (s : GameSession)
    (playerId word w' c' : string) (now : Z) (p : Player) :
  phase s = PLAYING ->
  playerId = currentTurnPlayerId s ->
  JsMap.get playerId (players s) = Some p ->
  state p = ALIVE ->
  validateWord E word (currentCombo s) (usedWords s) = CORRECT ->
  w' <> ""%string ->
  toUpperCase E w' = toUpperCase E word ->
  validateWord E w' c' (usedWords (handleTurnSubmit E playerId word now s))
  = ALREADY_USED.
Proof.
  intros Hph Hcur Hget Hal Hv Hne Hup.
  assert (Hu : usedWords (handleTurnSubmit E playerId word now s)
               = JsSet.add (toUpperCase E word) (usedWords s)).
  { unfold handleTurnSubmit.
    rewrite Hph, <- Hcur, String.eqb_refl, Hget, Hal, Hv. simpl.
    now rewrite usedWords_processTurnResult. }
  rewrite Hu. unfold validateWord. destruct w'; [contradiction|].
  cbn [String.length Nat.eqb]. cbv zeta. rewrite Hup.
  assert (Hin : JsSet.has (toUpperCase E word)
                  (JsSet.add (toUpperCase E word) (usedWords s)) = true).
  { apply JsSet_has_In. apply JsSet_add_In. now left. }
  now rewrite Hin.
Qed.

Lemma accepted_word_is_already_used_witness :
  let s := Sample.playing3 in
  validateWord Sample.env "KaLa" "MA"
    (usedWords (handleTurnSubmit Sample.env "p1" "kala" 500 s)) = ALREADY_USED.
Proof.
  intros s.
  assert (Hph : phase s = PLAYING) by (vm_compute; reflexivity).
  assert (Hcur : "p1"%string = currentTurnPlayerId s) by (vm_compute; reflexivity).
  assert (Hget : JsMap.get "p1"%string (players s)
                 = Some (mkPlayer "p1" "Ann" ALIVE 3 0 true "" (Sample.sock 1)))
    by (vm_compute; reflexivity).
  assert (Hv : validateWord Sample.env "kala" (currentCombo s) (usedWords s) = CORRECT)
    by (vm_compute; reflexivity).
  apply (accepted_word_is_already_used Sample.env s "p1" "kala" "KaLa" "MA" 500 _
           Hph Hcur Hget eq_refl Hv); [discriminate | reflexivity].
Defined.

(** X4. [getValidWordsForCombo] lists exactly the dictionary words that
    [validateWord] would accept for the combo and the used words. *)
Theorem getValidWordsForCombo_spec (E : Env) (combo w : string) (used : JsSet.t) :
  dictionaryNormalised E ->
  (In w (getValidWordsForCombo E combo used) <->
   In w (wordSet E) /\ validateWord E w combo used = CORRECT).
Proof.
  intros Hdict. unfold getValidWordsForCombo. rewrite filter_In. split.
  - intros [Hin Hok]. split; [exact Hin|].
    destruct (Hdict w Hin) as [Hne Hup]. apply andb_true_iff in Hok.
    destruct Hok as [Hinc Hnot]. apply negb_true_iff in Hnot.
    unfold validateWord. destruct w; [contradiction|]. cbn [String.length Nat.eqb].
    cbv zeta. rewrite Hup, Hnot, Hinc. cbn [negb].
    apply JsSet_has_In in Hin. now rewrite Hin.
  - intros [Hin Hv]. split; [exact Hin|].
    destruct (Hdict w Hin) as [Hne Hup]. unfold validateWord in Hv.
    destruct w; [contradiction|]. cbn [String.length Nat.eqb] in Hv. cbv zeta in Hv.
    rewrite Hup in Hv.
    destruct (JsSet.has (String a w) used); [discriminate|].
    destruct (includes (toUpperCase E combo) (String a w)); [reflexivity | discriminate].
Qed.

Lemma Sample_dictionaryNormalised : dictionaryNormalised Sample.env.
Proof.
  intros w Hw. simpl in Hw.
  repeat (destruct Hw as [<- | Hw]; [split; [discriminate | reflexivity]|]).
  contradiction.
Qed.

Lemma getValidWordsForCombo_spec_witness :
  In "SALAT"%string (getValidWordsForCombo Sample.env "al" ["KALA"%string]).
Proof.
  apply (getValidWordsForCombo_spec Sample.env "al" "SALAT" ["KALA"%string]
           Sample_dictionaryNormalised).
  split; [simpl; tauto | reflexivity].
Defined.

Lemma In_firstn (A : Type) (n : nat) (l : list A) (x : A) :
  In x (firstn n l) -> In x l.
Proof.
  intros H. rewrite <- (firstn_skipn n l). apply in_or_app. now left.
Qed.

(** X5. [getRandomWordsForCombo] returns at most [count] words, all of them
    dictionary words containing the upper-cased combo and none twice when
    the dictionary has no duplicate; it returns every matching word when
    there are no more than [count] of them. *)
Theorem getRandomWordsForCombo_spec (E : Env) (combo : string) (count : nat) :
  shufflePermutes E ->
  let matching := filter (includes (toUpperCase E combo)) (wordSet E) in
  let r := getRandomWordsForCombo E combo count in
  length r = Nat.min count (length matching) /\
  (forall w, In w r ->
     In w (wordSet E) /\ includes (toUpperCase E combo) w = true) /\
  (NoDup (wordSet E) -> NoDup r) /\
  (length matching <= count -> forall w, In w matching -> In w r).
Proof.
  intros Hperm matching r. subst r. unfold getRandomWordsForCombo. fold matching.
  pose proof (Hperm matching) as Hp.
  assert (Hlen : length (random_shuffle E matching) = length matching)
    by (symmetry; now apply Permutation_length).
  split; [now rewrite length_firstn, Hlen|]. split; [|split].
  - intros w Hw. apply In_firstn in Hw.
    apply (Permutation_in _ (Permutation_sym Hp)) in Hw.
    unfold matching in Hw. now apply filter_In in Hw.
  - intros Hnd.
    assert (Hnd' : NoDup (random_shuffle E matching)).
    { apply (Permutation_NoDup Hp). unfold matching. now apply NoDup_filter. }
    rewrite <- (firstn_skipn count (random_shuffle E matching)) in Hnd'.
    now apply NoDup_app_remove_r in Hnd'.
  - intros Hle w Hw. rewrite firstn_all2 by lia. now apply (Permutation_in _ Hp).
Qed.

Lemma Sample_shufflePermutes : shufflePermutes Sample.env.
Proof. intros l. apply Permutation_refl. Qed.

Lemma getRandomWordsForCombo_spec_witness :
  length (getRandomWordsForCombo Sample.env "al" 3) = 3 /\
  length (getRandomWordsForCombo Sample.env "ma" 3) = 2.
Proof.
  split.
  - exact (proj1 (getRandomWordsForCombo_spec Sample.env "al" 3 Sample_shufflePermutes)).
  - exact (proj1 (getRandomWordsForCombo_spec Sample.env "ma" 3 Sample_shufflePermutes)).
Defined.

(** ** Delivery of the messages *)

(** X6. [broadcastToGame] is [broadcastMessage] over the sockets of the roster
    and one [sendMessage] per player, in roster order: a message goes to
    every player whose socket is open, unchanged, and to nobody else. *)
Theorem broadcastToGame_delivery (ps : JsMap.t Player) (m : ServerMessage) :
  broadcastToGame ps m = broadcastMessage (map ws (JsMap.values ps)) m /\
  broadcastToGame ps m = flat_map (fun p => sendMessage (ws p) m) (JsMap.values ps) /\
  (forall w m', In (w, m') (broadcastToGame ps m) ->
     m' = m /\ readyState w = WebSocket_OPEN) /\
  (forall k p, In (k, p) ps -> readyState (ws p) = WebSocket_OPEN ->
     In (ws p, m) (broadcastToGame ps m)) /\
  length (broadcastToGame ps m) <= JsMap.size ps.
Proof.
  unfold broadcastToGame, broadcastMessage, JsMap.size, JsMap.values.
  split; [|split; [|split; [|split]]].
  - induction ps as [|[k p] ps IH]; [reflexivity|]. simpl.
    destruct (Nat.eqb (readyState (ws p)) WebSocket_OPEN); simpl; now rewrite IH.
  - induction ps as [|[k p] ps IH]; [reflexivity|]. simpl. unfold sendMessage at 1.
    destruct (Nat.eqb (readyState (ws p)) WebSocket_OPEN); simpl; now rewrite IH.
  - intros w m' Hin. apply in_map_iff in Hin. destruct Hin as [p [Heq Hin]].
    apply filter_In in Hin. destruct Hin as [_ Hopen]. apply Nat.eqb_eq in Hopen.
    inversion Heq; subst. auto.
  - intros k p Hin Hopen. apply in_map_iff. exists p. split; [reflexivity|].
    apply filter_In. split; [|now rewrite Hopen].
    apply in_map_iff. exists (k, p). auto.
  - rewrite length_map. etransitivity; [apply filter_length_le|].
    now rewrite length_map.
Qed.

(** ** The order of the turns *)

Lemma indexOf_bounds x l : (-1 <= indexOf x l < Z.of_nat (length l))%Z.
Proof.
  induction l as [|y l IH]; simpl; [lia|].
  destruct (String.eqb x y); [lia|].
  destruct (Z.ltb_spec (indexOf x l) 0); lia.
Qed.

Lemma indexOf_absent x l : ~ In x l -> indexOf x l = (-1)%Z.
Proof.
  induction l as [|y l IH]; simpl; [reflexivity|]. intros Hn.
  destruct (String.eqb_spec x y) as [->|Hne]; [exfalso; auto|].
  rewrite IH by auto. reflexivity.
Qed.

Lemma indexOf_first x b rest :
  ~ In x b -> indexOf x (b ++ x :: rest) = Z.of_nat (length b).
Proof.
  induction b as [|y b IH]; simpl; intros Hn.
  - now rewrite String.eqb_refl.
  - destruct (String.eqb_spec x y) as [->|Hne]; [exfalso; auto|].
    rewrite IH by auto. destruct (Z.ltb_spec (Z.of_nat (length b)) 0); lia.
Qed.

Lemma find_split (A : Type) (f : A -> bool) (l : list A) (x : A) :
  find f l = Some x ->
  exists l1 l2, l = l1 ++ x :: l2 /\ f x = true /\ forall y, In y l1 -> f y = false.
Proof.
  induction l as [|a l IH]; simpl; [discriminate|].
  destruct (f a) eqn:Ha.
  - intros [= <-]. exists [], l. repeat split; [assumption | intros y []].
  - intros H. destruct (IH H) as (l1 & l2 & -> & Hx & Hall).
    exists (a :: l1), l2. repeat split; [assumption|].
    intros y [<- | Hy]; auto.
Qed.

Lemma roundRobin_holder s b rest :
  JsMap.keys (players s) = b ++ currentTurnPlayerId s :: rest ->
  ~ In (currentTurnPlayerId s) b ->
  roundRobin s = rest ++ b ++ [currentTurnPlayerId s].
Proof.
  intros Hk Hn. unfold roundRobin. rewrite Hk, (indexOf_first _ _ _ Hn).
  rewrite length_app. cbn [length].
  destruct rest as [|r rest]; cbn [length].
  - replace ((Z.of_nat (length b) + 1) mod Z.of_nat (length b + 1))%Z with 0%Z.
    + change (Z.to_nat 0) with 0. cbn [skipn firstn]. rewrite app_nil_r. reflexivity.
    + replace (Z.of_nat (length b + 1)) with (Z.of_nat (length b) + 1)%Z by lia.
      now rewrite Z.mod_same by lia.
  - rewrite Z.mod_small by (cbn [length]; lia).
    replace (Z.to_nat (Z.of_nat (length b) + 1)) with (length (b ++ [currentTurnPlayerId s]))
      by (rewrite length_app; simpl; lia).
    change (b ++ currentTurnPlayerId s :: r :: rest)
      with (b ++ [currentTurnPlayerId s] ++ r :: rest).
    rewrite app_assoc, skipn_app, firstn_app, skipn_all, firstn_all, Nat.sub_diag.
    simpl. now rewrite app_nil_r.
Qed.

Lemma roundRobin_absent s :
  ~ In (currentTurnPlayerId s) (JsMap.keys (players s)) ->
  roundRobin s = JsMap.keys (players s).
Proof.
  intros Hn. unfold roundRobin. rewrite (indexOf_absent _ _ Hn).
  destruct (JsMap.keys (players s)) as [|k l]; [reflexivity|].
  rewrite Z.mod_small by (cbn [length]; lia).
  change (Z.to_nat (-1 + 1)) with 0. cbn [skipn firstn]. apply app_nil_r.
Qed.

(** X7. [advanceToNextPlayer] reads the roster from the player after the
    holder of the turn round to the holder itself, or from its head when the
    holder is not in it, and gives the turn to the first player it finds
    ALIVE; when nobody is ALIVE the session is left as it is. *)
Theorem advanceToNextPlayer_round_robin (E : Env) (force : bool) (s : GameSession) :
  let s' := advanceToNextPlayer E force s in
  (forall b rest,
     JsMap.keys (players s) = b ++ currentTurnPlayerId s :: rest ->
     ~ In (currentTurnPlayerId s) b ->
     roundRobin s = rest ++ b ++ [currentTurnPlayerId s]) /\
  (~ In (currentTurnPlayerId s) (JsMap.keys (players s)) ->
   roundRobin s = JsMap.keys (players s)) /\
  ((forall k, In k (roundRobin s) -> aliveKey s k = false) -> s' = s) /\
  (forall l1 k l2,
     roundRobin s = l1 ++ k :: l2 ->
     (forall x, In x l1 -> aliveKey s x = false) ->
     aliveKey s k = true ->
     currentTurnPlayerId s' = k /\
     players s' = JsMap.modify k (set_currentInput ""%string) (players s) /\
     phase s' = phase s /\ sent s' = sent s).
Proof.
  intros s'. subst s'. split; [apply roundRobin_holder|].
  split; [apply roundRobin_absent|]. rewrite advanceToNextPlayer_nextAlive.
  unfold nextAlive. split.
  - intros Hall. destruct (find (aliveKey s) (roundRobin s)) as [k|] eqn:Hf;
      [|reflexivity].
    apply find_some in Hf. destruct Hf as [Hin Ha]. rewrite (Hall k Hin) in Ha.
    discriminate.
  - intros l1 k l2 Hr Hall Hk.
    assert (Hf : find (aliveKey s) (roundRobin s) = Some k).
    { rewrite Hr. clear Hr. induction l1 as [|x l1 IH]; simpl.
      - now rewrite Hk.
      - rewrite (Hall x) by now left. apply IH. intros y Hy. apply Hall. now right. }
    rewrite Hf.
    destruct (selectNextPlayer_spec E force k s)
      as (S1 & S2 & _ & _ & _ & _ & _ & S8 & S9 & _). auto.
Qed.

Lemma advanceToNextPlayer_round_robin_witness :
  currentTurnPlayerId (advanceToNextPlayer Sample.env false Sample.playing3)
  = "p2"%string.
Proof.
  pose proof (advanceToNextPlayer_round_robin Sample.env false Sample.playing3) as H.
  cbv zeta in H. destruct H as (_ & _ & _ & H).
  assert (Hr : roundRobin Sample.playing3 = [] ++ "p2"%string :: ["p3"; "p1"]%string)
    by (vm_compute; reflexivity).
  assert (Ha : aliveKey Sample.playing3 "p2" = true) by (vm_compute; reflexivity).
  exact (proj1 (H [] "p2"%string ["p3"; "p1"]%string Hr (fun x (F : In x []) =>
                  match F with end) Ha)).
Defined.

(** ** A player leaves *)

Lemma removePlayer_unfold E k s player :
  JsMap.get k (players s) = Some player ->
  removePlayer E k s =
  broadcastPlayerList
    (let s2 := handOverHost player (set_players (JsMap.delete k (players s)) s) in
     if GamePhase_eqb (phase s2) PLAYING then
       snd (checkWinCondition E
              (if String.eqb (currentTurnPlayerId s2) k
               then advanceToNextPlayer E false s2 else s2))
     else s2).
Proof. intros Hg. unfold removePlayer. rewrite Hg. reflexivity. Qed.

Lemma samePlayerButFlags_refl p : samePlayerButFlags p p.
Proof. repeat split. Qed.

Lemma sameRoster_refl m : sameRoster m m.
Proof. induction m; constructor; [split; [reflexivity | apply samePlayerButFlags_refl]|assumption]. Qed.

Lemma sameRoster_trans m1 m2 m3 : sameRoster m1 m2 -> sameRoster m2 m3 -> sameRoster m1 m3.
Proof.
  intros H12. revert m3. induction H12 as [|a b m1 m2 [Hk Hp] _ IH]; intros m3 H23.
  - inversion H23. constructor.
  - inversion H23 as [|b' c m2' m3' [Hk' Hp'] Hrest]; subst. constructor; [|now apply IH].
    split; [congruence|]. unfold samePlayerButFlags in *.
    destruct Hp as (A1 & A2 & A3 & A4 & A5 & A6).
    destruct Hp' as (B1 & B2 & B3 & B4 & B5 & B6). repeat split; congruence.
Qed.

Lemma sameRoster_modify k f m :
  (forall p, samePlayerButFlags p (f p)) -> sameRoster m (JsMap.modify k f m).
Proof.
  intros Hf. induction m as [|[k1 p1] m IH]; simpl; constructor; [|exact IH].
  destruct (String.eqb k k1); simpl; split; auto using samePlayerButFlags_refl.
Qed.

Lemma sameRoster_keys m m' : sameRoster m m' -> JsMap.keys m' = JsMap.keys m.
Proof.
  induction 1 as [|a b m m' [Hk _] _ IH]; [reflexivity|]. simpl. now rewrite Hk, IH.
Qed.

Lemma sameRoster_get m m' k p :
  sameRoster m m' -> JsMap.get k m = Some p ->
  exists p', JsMap.get k m' = Some p' /\ samePlayerButFlags p p'.
Proof.
  induction 1 as [|[k1 p1] [k2 p2] m m' [Hk Hp] _ IH]; simpl; [discriminate|].
  simpl in Hk. subst k2. destruct (String.eqb k k1).
  - intros [= <-]. eauto.
  - exact IH.
Qed.

Lemma sameRoster_get_none m m' k :
  sameRoster m m' -> JsMap.get k m = None -> JsMap.get k m' = None.
Proof.
  induction 1 as [|[k1 p1] [k2 p2] m m' [Hk Hp] _ IH]; simpl; [reflexivity|].
  simpl in Hk. subst k2. destruct (String.eqb k k1); [discriminate | exact IH].
Qed.

Lemma sameRoster_handOverHost player s1 :
  sameRoster (players s1) (players (handOverHost player s1)).
Proof.
  unfold handOverHost.
  destruct (isHost player && (0 <? JsMap.size (players s1))); [|apply sameRoster_refl].
  destruct (players s1) as [|[k h] rest] eqn:Hp.
  - rewrite Hp. constructor.
  - simpl. constructor; [split; [reflexivity | repeat split]|apply sameRoster_refl].
Qed.

Lemma sameRoster_advanceToNextPlayer E force s :
  sameRoster (players s) (players (advanceToNextPlayer E force s)).
Proof.
  rewrite advanceToNextPlayer_nextAlive.
  destruct (nextAlive s) as [k|]; [|apply sameRoster_refl].
  destruct (selectNextPlayer_spec E force k s) as (_ & -> & _).
  apply sameRoster_modify. intros p. repeat split.
Qed.

Lemma keys_delete {V} k (m : JsMap.t V) :
  JsMap.keys (JsMap.delete k m) = filter (fun k1 => negb (String.eqb k k1)) (JsMap.keys m).
Proof.
  unfold JsMap.keys, JsMap.delete.
  induction m as [|[k1 p1] m IH]; [reflexivity|]. cbn [filter map fst].
  destruct (String.eqb k k1); cbn [negb map fst]; now rewrite IH.
Qed.

(** The roster [removePlayer] leaves. *)
Lemma removePlayer_sameRoster E k s player :
  JsMap.get k (players s) = Some player ->
  sameRoster (JsMap.delete k (players s)) (players (removePlayer E k s)).
Proof.
  intros Hg. rewrite (removePlayer_unfold E k s player Hg).
  unfold broadcastPlayerList.
  change (players (broadcast ?m ?x)) with (players x). cbv zeta.
  set (s1 := set_players (JsMap.delete k (players s)) s).
  pose proof (sameRoster_handOverHost player s1) as H2.
  change (players s1) with (JsMap.delete k (players s)) in H2.
  destruct (GamePhase_eqb (phase (handOverHost player s1)) PLAYING); [|exact H2].
  rewrite (players_core _ _ (core_checkWinCondition E _)).
  destruct (String.eqb (currentTurnPlayerId (handOverHost player s1)) k); [|exact H2].
  eapply sameRoster_trans; [exact H2 | apply sameRoster_advanceToNextPlayer].
Qed.

(** X8. [removePlayer] on an id that is not in the roster does nothing, not
    even a broadcast. Otherwise the id is gone from the roster, the other
    players keep their seats in the same order and, [isHost] and
    [currentInput] apart, their records; the used words and the failed combos
    stay; and the PLAYER_LIST of the new roster is the last message sent. *)
Theorem removePlayer_roster (E : Env) (k : string) (s : GameSession) :
  let s' := removePlayer E k s in
  (JsMap.get k (players s) = None -> s' = s) /\
  (forall player, JsMap.get k (players s) = Some player ->
     sameRoster (JsMap.delete k (players s)) (players s') /\
     JsMap.keys (players s') = filter (fun k1 => negb (String.eqb k k1)) (JsMap.keys (players s)) /\
     JsMap.get k (players s') = None /\
     (forall k1 p1, k1 <> k -> JsMap.get k1 (players s) = Some p1 ->
        exists p1', JsMap.get k1 (players s') = Some p1' /\ samePlayerButFlags p1 p1') /\
     usedWords s' = usedWords s /\
     failedCombos s' = failedCombos s /\
     exists before,
       sent s' = sent s ++ before ++
                 broadcastToGame (players s')
                   (MsgPLAYER_LIST (getPlayersInfo s') (hostId s'))).
Proof.
  intros s'. subst s'. split.
  - intros Hg. unfold removePlayer. now rewrite Hg.
  - intros player Hg. pose proof (removePlayer_sameRoster E k s player Hg) as Hr.
    split; [exact Hr|]. split; [|split; [|split; [|split; [|split]]]].
    + rewrite (sameRoster_keys _ _ Hr). apply keys_delete.
    + apply (sameRoster_get_none _ _ _ Hr). apply get_delete_same.
    + intros k1 p1 Hne Hg1. apply (sameRoster_get _ _ _ _ Hr).
      rewrite get_delete_other by congruence. exact Hg1.
    + apply usedWords_removePlayer.
    + rewrite (removePlayer_unfold E k s player Hg). unfold broadcastPlayerList.
      change (failedCombos (broadcast ?m ?x)) with (failedCombos x). cbv zeta.
      set (s2 := handOverHost player _).
      assert (H2 : failedCombos s2 = failedCombos s).
      { subst s2. unfold handOverHost. repeat break_match; reflexivity. }
      destruct (GamePhase_eqb (phase s2) PLAYING); [|exact H2].
      rewrite (failedCombos_core _ _ (core_checkWinCondition E _)).
      destruct (String.eqb (currentTurnPlayerId s2) k);
        [rewrite failedCombos_advanceToNextPlayer|]; exact H2.
    + rewrite (removePlayer_unfold E k s player Hg). unfold broadcastPlayerList, broadcast.
      cbv zeta. set (s2 := handOverHost player _).
      assert (H2 : sent s2 = sent s).
      { subst s2. unfold handOverHost. repeat break_match; reflexivity. }
      set (s3 := if GamePhase_eqb (phase s2) PLAYING then _ else s2).
      assert (H3 : exists before, sent s3 = sent s ++ before).
      { subst s3. destruct (GamePhase_eqb (phase s2) PLAYING);
          [|exists []; now rewrite app_nil_r].
        set (x := if String.eqb (currentTurnPlayerId s2) k then _ else s2).
        assert (Hx : sent x = sent s).
        { subst x. destruct (String.eqb (currentTurnPlayerId s2) k); [|exact H2].
          rewrite advanceToNextPlayer_nextAlive. destruct (nextAlive s2) as [k'|];
            [|exact H2].
          now destruct (selectNextPlayer_spec E false k' s2)
            as (_ & _ & _ & _ & _ & _ & _ & _ & -> & _). }
        unfold checkWinCondition. repeat break_match; cbn [snd];
          try (exists []; now rewrite app_nil_r);
          unfold endGame, broadcast; simpl; rewrite sent_stopTurnTimer, Hx; eauto. }
      destruct H3 as [before H3]. exists before. simpl. rewrite H3.
      now rewrite app_assoc.
Qed.

Lemma removePlayer_roster_witness :
  JsMap.keys (players (removePlayer Sample.env "p2" Sample.playing3))
  = filter (fun k1 => negb (String.eqb "p2" k1)) (JsMap.keys (players Sample.playing3)).
Proof.
  assert (Hg : exists player, JsMap.get "p2"%string (players Sample.playing3) = Some player)
    by (vm_compute; eexists; reflexivity).
  destruct Hg as [player Hg].
  pose proof (removePlayer_roster Sample.env "p2" Sample.playing3) as H.
  cbv zeta in H. destruct H as [_ H].
  exact (proj1 (proj2 (H player Hg))).
Defined.

Lemma removePlayer_tail E k s player :
  JsMap.get k (players s) = Some player ->
  removePlayer E k s =
  removePlayer_tail_state E k
    (handOverHost player (set_players (JsMap.delete k (players s)) s)).
Proof. intros Hg. unfold removePlayer. rewrite Hg. reflexivity. Qed.

Lemma hostId_core s s' : core s = core s' -> hostId s = hostId s'.
Proof. intros H. now core_fields H. Qed.

Lemma hostId_handOverHost_tail E k player s1 :
  hostId (removePlayer_tail_state E k (handOverHost player s1)) = hostId (handOverHost player s1).
Proof.
  unfold removePlayer_tail_state, broadcastPlayerList.
  change (hostId (broadcast ?m ?x)) with (hostId x).
  destruct (GamePhase_eqb (phase (handOverHost player s1)) PLAYING); [|reflexivity].
  rewrite (hostId_core _ _ (core_checkWinCondition E _)).
  destruct (String.eqb (currentTurnPlayerId (handOverHost player s1)) k); [|reflexivity].
  rewrite advanceToNextPlayer_nextAlive.
  destruct (nextAlive (handOverHost player s1)) as [k'|]; [|reflexivity].
  now destruct (selectNextPlayer_spec E false k' (handOverHost player s1))
    as (_ & _ & _ & _ & _ & _ & _ & _ & _ & _ & ->).
Qed.

(** X9. When the player who leaves carries the host flag and somebody stays,
    the first remaining player of the roster becomes the host: [hostId] is
    its id and its [isHost] flag is set. When the player who leaves does not
    carry the flag, or nobody stays, [hostId] is left as it was. *)
Theorem removePlayer_host_handover (E : Env) (k : string) (s : GameSession)
    (player : Player) :
  JsMap.get k (players s) = Some player ->
  let s' := removePlayer E k s in
  (isHost player = false -> hostId s' = hostId s) /\
  (JsMap.delete k (players s) = [] -> hostId s' = hostId s /\ players s' = []) /\
  (forall k1 h rest, isHost player = true ->
     JsMap.delete k (players s) = (k1, h) :: rest ->
     hostId s' = id h /\
     exists h' rest', players s' = (k1, h') :: rest' /\ isHost h' = true /\
                      samePlayerButFlags h h').
Proof.
  intros Hg s'. subst s'.
  pose proof (removePlayer_sameRoster E k s player Hg) as Hr.
  rewrite (removePlayer_tail E k s player Hg) in *.
  rewrite hostId_handOverHost_tail.
  split; [|split].
  - intros Hh. unfold handOverHost. rewrite Hh. reflexivity.
  - intros Hd. split.
    + unfold handOverHost. cbn [players set_players]. rewrite Hd.
      now rewrite andb_false_r.
    + assert (Hn : forall m, sameRoster [] m -> m = []) by (intros m Hm; now inversion Hm).
      apply Hn. rewrite <- Hd. exact Hr.
  - intros k1 h rest Hh Hd. split.
    + unfold handOverHost. cbn [players set_players]. rewrite Hd, Hh. reflexivity.
    + revert Hr. unfold removePlayer_tail_state, broadcastPlayerList.
      change (players (broadcast ?m ?x)) with (players x).
      set (s2 := handOverHost player _).
      assert (H2 : players s2 = (k1, set_isHost true h) :: rest).
      { subst s2. unfold handOverHost. cbn [players set_players]. rewrite Hd, Hh.
        reflexivity. }
      assert (Hx : exists h' rest',
                 players (if String.eqb (currentTurnPlayerId s2) k
                          then advanceToNextPlayer E false s2 else s2)
                 = (k1, h') :: rest'
                 /\ isHost h' = true /\ samePlayerButFlags h h').
      { destruct (String.eqb (currentTurnPlayerId s2) k).
        - rewrite advanceToNextPlayer_nextAlive. destruct (nextAlive s2) as [k'|].
          + destruct (selectNextPlayer_spec E false k' s2) as (_ & -> & _).
            rewrite H2. unfold JsMap.modify. cbn [map fst snd].
            destruct (String.eqb k' k1); eexists _, _; split;
              try reflexivity; split; try reflexivity; repeat split.
          + rewrite H2. eexists _, _; split; [reflexivity|].
            split; [reflexivity|repeat split].
        - rewrite H2. eexists _, _; split; [reflexivity|].
          split; [reflexivity|repeat split]. }
      intros _. destruct (GamePhase_eqb (phase s2) PLAYING).
      * rewrite (players_core _ _ (core_checkWinCondition E _)).
        exact Hx.
      * rewrite H2. eexists _, _. split; [reflexivity|]. split; [reflexivity|repeat split].
Qed.

Lemma removePlayer_host_handover_witness :
  hostId (removePlayer Sample.env "p1" Sample.playing3) = "p2"%string.
Proof.
  assert (Hg : exists player, JsMap.get "p1"%string (players Sample.playing3) = Some player
                              /\ isHost player = true)
    by (vm_compute; eexists; split; reflexivity).
  assert (Hd : exists h rest,
             JsMap.delete "p1"%string (players Sample.playing3) = ("p2"%string, h) :: rest
             /\ id h = "p2"%string)
    by (vm_compute; eexists _, _; split; reflexivity).
  destruct Hg as (player & Hg & Hh). destruct Hd as (h & rest & Hd & Hid).
  pose proof (removePlayer_host_handover Sample.env "p1" Sample.playing3 player Hg) as H.
  cbv zeta in H. destruct H as (_ & _ & H).
  destruct (H _ _ _ Hh Hd) as [H1 _]. rewrite H1. exact Hid.
Defined.

Lemma firstAlive_sameRoster m m' :
  sameRoster m m' ->
  option_map fst (firstAlive m') = option_map fst (firstAlive m).
Proof.
  unfold firstAlive.
  induction 1 as [|[k1 p1] [k2 p2] m m' [Hk Hp] _ IH]; [reflexivity|].
  cbn [find snd]. destruct Hp as (_ & _ & Hst & _). cbn [snd] in Hst. rewrite Hst.
  cbn [fst] in Hk. subst k2.
  destruct (PlayerState_eqb (state p1) ALIVE); [reflexivity | exact IH].
Qed.

Lemma find_aliveKey_keys (m : JsMap.t Player) :
  NoDup (JsMap.keys m) ->
  find (fun k => match JsMap.get k m with
                 | Some p => PlayerState_eqb (state p) ALIVE
                 | None => false
                 end) (JsMap.keys m)
  = option_map fst (firstAlive m).
Proof.
  unfold firstAlive.
  induction m as [|[k1 p1] m IH]; intros Hnd; [reflexivity|].
  cbn [JsMap.keys map fst] in *. inversion Hnd as [|? ? Hni Hnd']; subst.
  cbn [find snd JsMap.get]. rewrite String.eqb_refl.
  destruct (PlayerState_eqb (state p1) ALIVE); [reflexivity|].
  rewrite <- (IH Hnd'). apply find_ext_in_keys. intros k Hk.
  destruct (String.eqb k k1) eqn:He; [|reflexivity].
  apply String.eqb_eq in He. subst. contradiction.
Qed.

Lemma clock_selectNextPlayer E force k s :
  turnStartTime (selectNextPlayer E force k s) = turnStartTime s.
Proof. unfold selectNextPlayer. repeat break_match; reflexivity. Qed.

Lemma clock_advanceToNextPlayer E force s :
  turnStartTime (advanceToNextPlayer E force s) = turnStartTime s.
Proof.
  rewrite advanceToNextPlayer_nextAlive. destruct (nextAlive s);
    [apply clock_selectNextPlayer | reflexivity].
Qed.

Lemma clock_checkWinCondition E s :
  turnStartTime (snd (checkWinCondition E s)) = turnStartTime s.
Proof.
  unfold checkWinCondition, endGame, broadcast, stopTurnTimer.
  repeat break_match; reflexivity.
Qed.

Lemma clock_handOverHost player s1 :
  turnStartTime (handOverHost player s1) = turnStartTime s1 /\
  phase (handOverHost player s1) = phase s1 /\
  currentTurnPlayerId (handOverHost player s1) = currentTurnPlayerId s1 /\
  currentCombo (handOverHost player s1) = currentCombo s1 /\
  comboCalls (handOverHost player s1) = comboCalls s1.
Proof. unfold handOverHost. repeat break_match; repeat split; reflexivity. Qed.

(** X10. A player leaves a match that is being played. When it is not the
    holder of the turn, the turn and the combo stay. When it is the holder,
    the turn goes to the first ALIVE player counted from the head of the
    roster (not from the seat of the player who left), and stays on the id
    that left when nobody is ALIVE. In both cases the start of the
    countdown is not moved. *)
Theorem removePlayer_turn_holder (E : Env) (k : string) (s : GameSession)
    (player : Player) :
  phase s = PLAYING ->
  JsMap.get k (players s) = Some player ->
  NoDup (JsMap.keys (players s)) ->
  let s' := removePlayer E k s in
  (currentTurnPlayerId s <> k ->
     currentTurnPlayerId s' = currentTurnPlayerId s /\
     currentCombo s' = currentCombo s /\ comboCalls s' = comboCalls s) /\
  (currentTurnPlayerId s = k ->
     currentTurnPlayerId s' =
     match firstAlive (JsMap.delete k (players s)) with
     | Some (k', _) => k'
     | None => k
     end) /\
  turnStartTime s' = turnStartTime s.
Proof.
  intros Hph Hg Hnd s'. subst s'. rewrite (removePlayer_tail E k s player Hg).
  set (s1 := set_players (JsMap.delete k (players s)) s).
  destruct (clock_handOverHost player s1) as (C1 & C3 & C4 & C5 & C6).
  change (turnStartTime s1) with (turnStartTime s) in C1.
  change (phase s1) with (phase s) in C3.
  change (currentTurnPlayerId s1) with (currentTurnPlayerId s) in C4.
  change (currentCombo s1) with (currentCombo s) in C5.
  change (comboCalls s1) with (comboCalls s) in C6.
  pose proof (sameRoster_handOverHost player s1) as Hr.
  change (players s1) with (JsMap.delete k (players s)) in Hr.
  set (s2 := handOverHost player s1) in *.
  unfold removePlayer_tail_state, broadcastPlayerList.
  change (currentTurnPlayerId (broadcast ?m ?x)) with (currentTurnPlayerId x).
  change (currentCombo (broadcast ?m ?x)) with (currentCombo x).
  change (comboCalls (broadcast ?m ?x)) with (comboCalls x).
  change (turnStartTime (broadcast ?m ?x)) with (turnStartTime x).
  rewrite C3, Hph. cbn [GamePhase_eqb].
  set (x := if String.eqb (currentTurnPlayerId s2) k then _ else s2).
  rewrite (currentTurnPlayerId_core _ _ (core_checkWinCondition E x)).
  rewrite (currentCombo_core _ _ (core_checkWinCondition E x)).
  rewrite (comboCalls_core _ _ (core_checkWinCondition E x)).
  rewrite (clock_checkWinCondition E x).
  split; [|split].
  - intros Hne. subst x. rewrite C4.
    destruct (String.eqb (currentTurnPlayerId s) k) eqn:He;
      [apply String.eqb_eq in He; contradiction|]. now rewrite C4, C5, C6.
  - intros He. subst x. rewrite C4, He, String.eqb_refl.
    rewrite advanceToNextPlayer_nextAlive.
    assert (Hk : JsMap.keys (players s2)
                 = filter (fun k1 => negb (String.eqb k k1)) (JsMap.keys (players s)))
      by (rewrite (sameRoster_keys _ _ Hr); apply keys_delete).
    assert (Hn : nextAlive s2 = option_map fst (firstAlive (JsMap.delete k (players s)))).
    { unfold nextAlive. rewrite roundRobin_absent.
      - unfold aliveKey. rewrite find_aliveKey_keys.
        + apply firstAlive_sameRoster, Hr.
        + rewrite Hk. now apply NoDup_filter.
      - rewrite C4, He, Hk. intros Hin. apply filter_In in Hin as [_ Hin].
        now rewrite String.eqb_refl in Hin. }
    rewrite Hn. destruct (firstAlive (JsMap.delete k (players s))) as [[k' p']|];
      cbn [option_map fst].
    + now destruct (selectNextPlayer_spec E false k' s2) as (-> & _).
    + now rewrite C4.
  - subst x. destruct (String.eqb (currentTurnPlayerId s2) k).
    + now rewrite (clock_advanceToNextPlayer E false s2).
    + exact C1.
Qed.

Lemma removePlayer_turn_holder_witness :
  currentTurnPlayerId (removePlayer Sample.env "p2" 
     (handleTurnSubmit Sample.env "p1" "kala" 5 Sample.playing3)) = "p1"%string.
Proof.
  set (s := handleTurnSubmit Sample.env "p1" "kala" 5 Sample.playing3).
  assert (Hph : phase s = PLAYING) by (vm_compute; reflexivity).
  assert (Hg : exists player, JsMap.get "p2"%string (players s) = Some player)
    by (vm_compute; eexists; reflexivity).
  assert (Hnd : NoDup (JsMap.keys (players s))).
  { assert (Hk : JsMap.keys (players s) = ["p1"; "p2"; "p3"]%string)
      by (vm_compute; reflexivity).
    rewrite Hk. repeat constructor; simpl; intuition discriminate. }
  assert (Hc : currentTurnPlayerId s = "p2"%string) by (vm_compute; reflexivity).
  assert (Hf : exists p', firstAlive (JsMap.delete "p2"%string (players s))
                          = Some ("p1"%string, p'))
    by (vm_compute; eexists; reflexivity).
  destruct Hg as [player Hg]. destruct Hf as [p' Hf].
  pose proof (removePlayer_turn_holder Sample.env "p2" s player Hph Hg Hnd) as H.
  cbv zeta in H. destruct H as (_ & H & _).
  rewrite (H Hc), Hf. reflexivity.
Defined.

(** ** The opening of a match *)

Lemma find_readyToAlive l :
  find (fun p => PlayerState_eqb (state p) ALIVE) (map readyToAlive l)
  = option_map readyToAlive
      (find (fun p => PlayerState_eqb (state p) READY
                      || PlayerState_eqb (state p) ALIVE) l).
Proof.
  induction l as [|p l IH]; [reflexivity|]. cbn [map find]. unfold readyToAlive at 1 3.
  destruct (state p) eqn:Hs; cbn; rewrite ?Hs; cbn; try exact IH; reflexivity.
Qed.

Lemma id_readyToAlive p : id (readyToAlive p) = id p.
Proof. unfold readyToAlive. now destruct (PlayerState_eqb (state p) READY). Qed.

(** X11. [startGame] with at least [MIN_PLAYERS] READY players succeeds, in
    whatever phase it is called. The first player of the roster that was
    READY or ALIVE at the call holds the turn and starts the round, the
    combo is a fresh draw, the countdown starts at the time of the call with
    the full duration, and GAME_START followed by TURN_START go to the
    roster. *)
Theorem startGame_opening (E : Env) (now : Z) (s : GameSession) :
  canStartGame s = true ->
  let s' := snd (startGame E now s) in
  fst (startGame E now s) = true /\
  (exists p,
     find (fun p => PlayerState_eqb (state p) READY || PlayerState_eqb (state p) ALIVE)
          (JsMap.values (players s)) = Some p /\
     currentTurnPlayerId s' = id p /\ roundStartPlayerId s' = id p) /\
  currentCombo s' = generateNewCombo E (comboCalls s) /\
  comboCalls s' = S (comboCalls s) /\
  turnStartTime s' = now /\ turnTimer s' = turnDuration s /\ tickInterval s' = true /\
  sent s' = sent s
            ++ broadcastToGame (players s')
                 (MsgGAME_START (currentTurnPlayerId s') (turnDuration s) (currentCombo s'))
            ++ broadcastToGame (players s')
                 (MsgTURN_START (currentTurnPlayerId s') (turnDuration s)).
Proof.
  intros Hc s'. subst s'. unfold startGame. rewrite Hc. cbn [negb fst snd].
  split; [reflexivity|].
  match goal with
  | |- context [startTurnTimer now (broadcast _ ?x)] => set (s7 := x)
  end.
  destruct (canStartGame_some_ready s Hc) as (q & Hq & Hqs).
  destruct (find (fun p => PlayerState_eqb (state p) READY || PlayerState_eqb (state p) ALIVE)
                 (JsMap.values (players s))) as [p|] eqn:Hf.
  2:{ pose proof (find_none _ _ Hf q Hq) as Hn. cbn beta in Hn. rewrite Hqs in Hn.
      discriminate. }
  assert (H7 : s7 = set_roundStartPlayerId (id p)
                      (set_currentTurnPlayerId (id p)
                         (set_turnTimer (turnDuration s)
                            (set_comboCalls (S (comboCalls s))
                               (set_currentCombo (generateNewCombo E (comboCalls s))
                                  (set_phase PLAYING
                                     (set_failedCombos []
                                        (set_usedWords []
                                           (set_players (JsMap.forEach readyToAlive (players s))
                                              s))))))))).
  { subst s7. cbn [players set_players set_usedWords set_failedCombos set_phase
                   set_comboCalls set_currentCombo set_turnTimer].
    rewrite values_forEach, find_readyToAlive, Hf. cbn [option_map].
    rewrite id_readyToAlive. reflexivity. }
  clearbody s7. subst s7.
  unfold startTurnTimer, stopTurnTimer, broadcast.
  split; [exists p; split; [reflexivity|]; split; break_match; reflexivity|].
  repeat split; try (break_match; reflexivity).
  break_match; cbn; now rewrite <- app_assoc.
Qed.

Lemma startGame_opening_witness :
  fst (startGame Sample.env 0 Sample_two_ready) = true.
Proof.
  assert (Hc : canStartGame Sample_two_ready = true) by (vm_compute; reflexivity).
  pose proof (startGame_opening Sample.env 0 Sample_two_ready Hc) as H.
  cbv zeta in H. exact (proj1 H).
Defined.

(** ** A correct answer *)

Lemma nextAlive_vitals s1 s2 :
  vitals (players s1) = vitals (players s2) ->
  currentTurnPlayerId s1 = currentTurnPlayerId s2 ->
  nextAlive s1 = nextAlive s2.
Proof.
  intros Hv Hc. unfold nextAlive, roundRobin. rewrite Hc.
  rewrite <- (keys_vitals (players s1)), <- (keys_vitals (players s2)), Hv.
  apply find_ext_in_keys. intros k _. unfold aliveKey.
  pose proof (get_vitals k (players s1)) as H1.
  pose proof (get_vitals k (players s2)) as H2.
  rewrite Hv, H2 in H1.
  destruct (JsMap.get k (players s1)), (JsMap.get k (players s2));
    simpl in H1; try discriminate; [|reflexivity].
  injection H1 as H1. unfold vital in H1. congruence.
Qed.

Lemma In_roundRobin s k :
  In k (JsMap.keys (players s)) -> In k (roundRobin s).
Proof.
  intros Hin. unfold roundRobin. cbv zeta.
  set (i := Z.to_nat _). rewrite <- (firstn_skipn i) in Hin.
  apply in_app_or in Hin. apply in_or_app. tauto.
Qed.

Lemma nextAlive_exists s k p :
  JsMap.get k (players s) = Some p -> state p = ALIVE ->
  exists k', nextAlive s = Some k'.
Proof.
  intros Hg Hs. unfold nextAlive.
  destruct (find (aliveKey s) (roundRobin s)) as [k'|] eqn:Hf; [eauto|].
  pose proof (find_none _ _ Hf k (In_roundRobin s k (get_In_keys _ _ _ _ Hg))) as Hn.
  unfold aliveKey in Hn. rewrite Hg, Hs in Hn. discriminate.
Qed.

(** What [processTurnResult] does once the result is booked and the turn
    has moved. *)
Lemma finishTurn_outcome E k result word now a pa :
  JsMap.get k (players a) = Some pa ->
  let s' := finishTurn E k result word now a in
  exists rest,
    sent s' = sent a
      ++ broadcastToGame (players a)
           (MsgPLAYER_UPDATE (id pa) (lives pa) (score pa) (state pa))
      ++ broadcastToGame (players a)
           (MsgTURN_RESULT (id pa) result (currentTurnPlayerId a) (currentCombo a)
              word None)
      ++ rest /\
    ((fst (checkWinCondition E a) = true /\
      phase s' = GAME_OVER /\ tickInterval s' = false /\
      exists w, rest = broadcastToGame (players a)
                         (MsgGAME_OVER w (failedCombosWithWords E a))) \/
     (fst (checkWinCondition E a) = false /\
      phase s' = phase a /\ tickInterval s' = true /\ turnStartTime s' = now /\
      turnTimer s' = turnDuration a /\
      rest = broadcastToGame (players a)
               (MsgTURN_START (currentTurnPlayerId a) (turnDuration a)))).
Proof.
  intros Hg s'. subst s'. unfold finishTurn. rewrite Hg.
  change (players (broadcast ?m ?x)) with (players x). rewrite Hg.
  match goal with
  | |- context [checkWinCondition E ?x] => set (s3 := x)
  end.
  assert (H3 : exists l, s3 = set_sent l a /\ l = sent a
      ++ broadcastToGame (players a)
           (MsgPLAYER_UPDATE (id pa) (lives pa) (score pa) (state pa))
      ++ broadcastToGame (players a)
           (MsgTURN_RESULT (id pa) result (currentTurnPlayerId a) (currentCombo a)
              word None)).
  { eexists. split; [|reflexivity]. subst s3. unfold broadcast.
    cbn [players sent set_sent currentTurnPlayerId currentCombo].
    rewrite <- app_assoc. now destruct a. }
  destruct H3 as (l & H3 & Hl). clearbody s3. subst s3.
  unfold checkWinCondition, aliveCount, lastAlivePlayer.
  cbn [players set_sent].
  destruct (Nat.eqb (JsMap.size (players a)) 1 && _).
  - eexists. split.
    + unfold endGame, broadcast. cbn [sent set_sent set_phase players].
      rewrite sent_stopTurnTimer. cbn [sent set_sent]. rewrite Hl, <- !app_assoc.
      reflexivity.
    + left. cbn [fst]. split; [reflexivity|]. split; [reflexivity|].
      split; [apply tickInterval_stopTurnTimer|].
      eexists. unfold failedCombosWithWords, stopTurnTimer.
      destruct (tickInterval _); reflexivity.
  - destruct ((1 <? JsMap.size (players a)) && _).
    + eexists. split.
      * unfold endGame, broadcast. cbn [sent set_sent set_phase players].
        rewrite sent_stopTurnTimer. cbn [sent set_sent]. rewrite Hl, <- !app_assoc.
        reflexivity.
      * left. cbn [fst]. split; [reflexivity|]. split; [reflexivity|].
        split; [apply tickInterval_stopTurnTimer|].
        eexists. unfold failedCombosWithWords, stopTurnTimer.
        destruct (tickInterval _); reflexivity.
    + eexists. split.
      * unfold startTurnTimer, broadcast. cbn [sent set_sent set_tickInterval].
        unfold stopTurnTimer. destruct (tickInterval _); cbn; rewrite Hl, <- !app_assoc;
          reflexivity.
      * right. cbn [fst]. split; [reflexivity|].
        unfold startTurnTimer, broadcast, stopTurnTimer.
        destruct (tickInterval _); cbn; repeat split; reflexivity.
Qed.

(** X12. A CORRECT submission by the holder of the turn gives that player one
    point and clears its input; lives and states are not touched, nor are the
    failed combos; the turn goes to the next ALIVE player after the holder in
    roster order (the holder itself when it is the only one), who also starts
    the round, and a fresh combo is drawn. PLAYER_UPDATE and TURN_RESULT,
    carrying the word as typed, the new holder and the new combo, go to the
    roster; then either the win condition holds and GAME_OVER follows with the
    timer off, or the countdown restarts at the time of the call and
    TURN_START follows. *)
Theorem handleTurnSubmit_correct (E : Env) (s : GameSession)
    (playerId word : string) (now : Z) (p : Player) :
  phase s = PLAYING ->
  playerId = currentTurnPlayerId s ->
  JsMap.get playerId (players s) = Some p ->
  state p = ALIVE ->
  validateWord E word (currentCombo s) (usedWords s) = CORRECT ->
  let s' := handleTurnSubmit E playerId word now s in
  (exists k, nextAlive s = Some k /\
     currentTurnPlayerId s' = k /\ roundStartPlayerId s' = k /\
     players s' = JsMap.modify k (set_currentInput ""%string)
                    (JsMap.modify playerId awardPoint (players s))) /\
  currentCombo s' = generateNewCombo E (comboCalls s) /\
  comboCalls s' = S (comboCalls s) /\
  failedCombos s' = failedCombos s /\
  exists rest,
    sent s' = sent s
      ++ broadcastToGame (players s')
           (MsgPLAYER_UPDATE (id p) (lives p) (score p + 1)%Z ALIVE)
      ++ broadcastToGame (players s')
           (MsgTURN_RESULT (id p) CORRECT (currentTurnPlayerId s') (currentCombo s')
              word None)
      ++ rest /\
    ((phase s' = GAME_OVER /\ tickInterval s' = false /\
      exists w, rest = broadcastToGame (players s')
                         (MsgGAME_OVER w (failedCombosWithWords E s))) \/
     (phase s' = PLAYING /\ tickInterval s' = true /\ turnStartTime s' = now /\
      turnTimer s' = turnDuration s /\
      rest = broadcastToGame (players s')
               (MsgTURN_START (currentTurnPlayerId s') (turnDuration s)))).
Proof.
  intros Hph Hcur Hget Hal Hv s'. subst s'. unfold handleTurnSubmit.
  rewrite Hph, <- Hcur, String.eqb_refl, Hget, Hal, Hv.
  cbn [negb GamePhase_eqb PlayerState_eqb].
  rewrite processTurnResult_finishTurn.
  set (c := bookCorrect E playerId word (stopTurnTimer s)).
  set (a := advanceToNextPlayer E true c).
  pose proof (core_finishTurn E playerId CORRECT word now a) as Hc.
  rewrite (currentTurnPlayerId_core _ _ Hc), (roundStartPlayerId_core _ _ Hc),
    (players_core _ _ Hc), (currentCombo_core _ _ Hc), (comboCalls_core _ _ Hc),
    (failedCombos_core _ _ Hc).
  pose proof (core_stopTurnTimer s) as H0.
  assert (Hpc : players c = JsMap.modify playerId awardPoint (players s)).
  { subst c. unfold bookCorrect, modifyPlayer. cbn [players set_players set_usedWords].
    rewrite modify_modify, (players_core _ _ H0). reflexivity. }
  assert (Hcc : currentTurnPlayerId c = currentTurnPlayerId s /\
                comboCalls c = comboCalls s /\ failedCombos c = failedCombos s /\
                phase c = phase s /\ sent c = sent s /\ turnDuration c = turnDuration s).
  { subst c. unfold bookCorrect, modifyPlayer. cbn.
    rewrite phase_stopTurnTimer, sent_stopTurnTimer. core_fields H0.
    repeat split; assumption. }
  destruct Hcc as (Hc1 & Hc2 & Hc3 & Hc4 & Hc5 & Hc6).
  assert (Hn : nextAlive c = nextAlive s).
  { apply nextAlive_vitals; [|exact Hc1]. subst c. rewrite vitals_bookCorrect.
    now rewrite (players_core _ _ H0). }
  destruct (nextAlive_exists s playerId p Hget Hal) as [k Hk].
  assert (Ha : a = selectNextPlayer E true k c).
  { subst a. now rewrite advanceToNextPlayer_nextAlive, Hn, Hk. }
  destruct (selectNextPlayer_spec E true k c)
    as (S1 & S2 & S3 & S4 & S5 & _ & S7 & S8 & S9 & _).
  cbn [orb] in S3, S4, S5. rewrite <- Ha in *.
  assert (Hga : exists pa, JsMap.get playerId (players a) = Some pa /\
                           id pa = id p /\ lives pa = lives p /\
                           score pa = (score p + 1)%Z /\ state pa = ALIVE).
  { rewrite S2, Hpc, !get_modify, String.eqb_refl, Hget. cbn [option_map].
    destruct (String.eqb k playerId); eexists; (split; [reflexivity|]);
      cbn; repeat split; assumption. }
  destruct Hga as (pa & Hga & I1 & I2 & I3 & I4).
  split; [exists k; rewrite S1, S5, S2, Hpc; repeat split; [exact Hk]|].
  split; [now rewrite S4, Hc2|]. split; [now rewrite S3, Hc2|].
  split; [now rewrite S7, Hc3|].
  destruct (finishTurn_outcome E playerId CORRECT word now a pa Hga)
    as (rest & Hs & Hd).
  exists rest. rewrite Hs, S9, Hc5, I1, I2, I3, I4. split; [reflexivity|].
  assert (Hdur : turnDuration a = turnDuration s).
  { rewrite Ha. unfold selectNextPlayer, modifyPlayer. repeat break_match; cbn; exact Hc6. }
  assert (Hfw : failedCombosWithWords E a = failedCombosWithWords E s).
  { unfold failedCombosWithWords. now rewrite S7, Hc3. }
  destruct Hd as [(_ & D1 & D2 & D3) | (_ & D1 & D2 & D3 & D4 & D5)].
  - left. rewrite <- Hfw. auto.
  - right. rewrite D1, S8, Hc4, Hph, D4, D5, Hdur. auto.
Qed.

Lemma handleTurnSubmit_correct_witness :
  let s := Sample.playing3 in
  let s' := handleTurnSubmit Sample.env "p1" "kala" 500 s in
  currentCombo s' = generateNewCombo Sample.env (comboCalls s) /\
  comboCalls s' = S (comboCalls s) /\
  failedCombos s' = failedCombos s.
Proof.
  intros s.
  assert (Hph : phase s = PLAYING) by (vm_compute; reflexivity).
  assert (Hcur : "p1"%string = currentTurnPlayerId s) by (vm_compute; reflexivity).
  assert (Hget : exists p, JsMap.get "p1"%string (players s) = Some p /\ state p = ALIVE)
    by (vm_compute; eexists; split; reflexivity).
  assert (Hv : validateWord Sample.env "kala" (currentCombo s) (usedWords s) = CORRECT)
    by (vm_compute; reflexivity).
  destruct Hget as (p & Hget & Hal).
  pose proof (handleTurnSubmit_correct Sample.env s "p1" "kala" 500 p
                Hph Hcur Hget Hal Hv) as H.
  cbv zeta in H. destruct H as (_ & H1 & H2 & H3 & _).
  cbv zeta. exact (conj H1 (conj H2 H3)).
Defined.

(** ** Invariants of a session *)

Lemma status_finishTurn E k result word now a :
  let s' := finishTurn E k result word now a in
  (phase s' = GAME_OVER /\ tickInterval s' = false) \/
  (phase s' = phase a /\ tickInterval s' = true).
Proof.
  cbv zeta. unfold finishTurn.
  set (s2 := match JsMap.get k (players a) with Some _ => _ | None => _ end).
  set (s3 := match JsMap.get k (players s2) with Some _ => _ | None => _ end).
  assert (H2 : phase s2 = phase a) by (subst s2; now destruct (JsMap.get k (players a))).
  assert (H3 : phase s3 = phase a)
    by (subst s3; destruct (JsMap.get k (players s2)); exact H2).
  clearbody s3. unfold checkWinCondition.
  destruct (Nat.eqb (JsMap.size (players s3)) 1 && Nat.eqb (aliveCount s3) 0).
  - left. split; [reflexivity | apply tickInterval_endGame].
  - destruct ((1 <? JsMap.size (players s3)) && (aliveCount s3 <=? 1)).
    + left. split; [reflexivity | apply tickInterval_endGame].
    + right. unfold startTurnTimer. cbn. split; [|reflexivity].
      now rewrite phase_stopTurnTimer.
Qed.

Lemma phase_bookTimeout k s0 : phase (bookTimeout k s0) = phase s0.
Proof. unfold bookTimeout, modifyPlayer. repeat break_match; reflexivity. Qed.

Lemma status_processTurnResult E k result word now s :
  let s' := processTurnResult E k result word now s in
  (phase s' = GAME_OVER /\ tickInterval s' = false) \/
  (phase s' = phase s /\ tickInterval s' = true).
Proof.
  cbv zeta. rewrite processTurnResult_finishTurn.
  match goal with
  | |- context [finishTurn E k result word now ?x] =>
      assert (Hp : phase x = phase s); [|destruct (status_finishTurn E k result word now x)
                                           as [H | [H1 H2]]; [left; exact H | right]]
  end.
  - destruct result; rewrite ?phase_advanceToNextPlayer, ?phase_bookTimeout;
      unfold bookCorrect, modifyPlayer; cbn [phase set_players set_usedWords];
      apply phase_stopTurnTimer.
  - split; [congruence | exact H2].
Qed.

Lemma status_handleTurnSubmit E playerId word now s :
  statusOutcome s (handleTurnSubmit E playerId word now s).
Proof.
  unfold handleTurnSubmit, statusOutcome.
  destruct (GamePhase_eqb (phase s) PLAYING) eqn:Hph; cbn [negb]; [|now left].
  apply GamePhase_eqb_eq in Hph.
  destruct (negb (String.eqb playerId (currentTurnPlayerId s))); [now left|].
  destruct (JsMap.get playerId (players s)) as [p|]; [|now left].
  destruct (negb (PlayerState_eqb (state p) ALIVE)); [now left|].
  destruct (validateWord E word (currentCombo s) (usedWords s)); try (now left);
    match goal with
    | |- context [processTurnResult E ?k ?r ?w ?n ?x] =>
        destruct (status_processTurnResult E k r w n x) as [[H1 H2] | [H1 H2]]
    end; cbv zeta in *; rewrite H1, H2; [right; left | right; right | right; left | right; right];
    auto.
Qed.

Lemma status_tick E now s : statusOutcome s (tick E now s).
Proof.
  unfold tick, statusOutcome. destruct (tickInterval s) eqn:Ht; [|now left].
  set (s1 := set_turnTimer _ s).
  destruct (Qle_bool (turnTimer s1) 0); [|left; split; [reflexivity | exact Ht]].
  unfold handleTimeout.
  destruct (JsMap.get _ _) as [p|].
  - match goal with
    | |- context [processTurnResult E ?k ?r ?w ?n ?x] =>
        destruct (status_processTurnResult E k r w n x) as [[H1 H2] | [H1 H2]]
    end; cbv zeta in *; rewrite H1, H2.
    + right; left. auto.
    + left. rewrite phase_stopTurnTimer. auto.
  - right; left. rewrite phase_stopTurnTimer, tickInterval_stopTurnTimer. auto.
Qed.

Lemma status_handOverHost player s1 :
  phase (handOverHost player s1) = phase s1 /\
  tickInterval (handOverHost player s1) = tickInterval s1.
Proof. unfold handOverHost. repeat break_match; split; reflexivity. Qed.

Lemma status_removePlayer E k s : statusOutcome s (removePlayer E k s).
Proof.
  unfold statusOutcome.
  destruct (JsMap.get k (players s)) as [player|] eqn:Hg.
  2:{ left. unfold removePlayer. now rewrite Hg. }
  rewrite (removePlayer_tail E k s player Hg).
  set (s1 := set_players (JsMap.delete k (players s)) s).
  destruct (status_handOverHost player s1) as [H1 H2].
  change (phase s1) with (phase s) in H1.
  change (tickInterval s1) with (tickInterval s) in H2.
  set (s2 := handOverHost player s1) in *.
  unfold removePlayer_tail_state, broadcastPlayerList.
  change (phase (broadcast ?m ?x)) with (phase x).
  change (tickInterval (broadcast ?m ?x)) with (tickInterval x).
  destruct (GamePhase_eqb (phase s2) PLAYING); [|left; auto].
  set (x := if String.eqb (currentTurnPlayerId s2) k then _ else s2).
  assert (Hx : phase x = phase s /\ tickInterval x = tickInterval s).
  { subst x. destruct (String.eqb (currentTurnPlayerId s2) k);
      rewrite ?phase_advanceToNextPlayer, ?tickInterval_advanceToNextPlayer; auto. }
  destruct Hx as [Hx1 Hx2]. unfold checkWinCondition.
  destruct (Nat.eqb (JsMap.size (players x)) 1 && Nat.eqb (aliveCount x) 0);
    [right; left; cbn [snd]; rewrite tickInterval_endGame; auto|].
  destruct ((1 <? JsMap.size (players x)) && (aliveCount x <=? 1));
    [right; left; cbn [snd]; rewrite tickInterval_endGame; auto|].
  left. auto.
Qed.

Lemma status_step E op s :
  op <> OpReturnToLobby -> statusOutcome s (step E op s).
Proof.
  intros Hop. destruct op; cbn [step].
  - left. unfold addPlayer. repeat break_match; split; reflexivity.
  - apply status_removePlayer.
  - left. unfold setPlayerReady. break_match; split; reflexivity.
  - destruct (fst (startGame E now s)) eqn:Hok.
    + destruct (startGame_success E now s Hok) as (_ & _ & _ & _ & H1 & H2).
      right; right. auto.
    + left. unfold startGame in *. destruct (negb (canStartGame s)); [split; reflexivity|].
      discriminate.
  - left. unfold handleTurnInput. repeat break_match; split; reflexivity.
  - apply status_handleTurnSubmit.
  - apply status_tick.
  - contradiction.
  - left. split; reflexivity.
Qed.

Lemma Op_eq_returnToLobby op : op = OpReturnToLobby \/ op <> OpReturnToLobby.
Proof. destruct op; (now left) || (right; discriminate). Qed.

Lemma tidy_returnToLobby s p :
  In p (JsMap.values (players (returnToLobby s))) -> tidyPlayer p.
Proof.
  unfold returnToLobby, broadcastPlayerList, broadcast.
  cbn [players set_players set_sent]. rewrite values_forEach, in_map_iff.
  intros (q & <- & _). unfold tidyPlayer, resetPlayer. cbn. auto.
Qed.

Lemma tidy_sameRoster m m' :
  sameRoster m m' ->
  (forall k q, In (k, q) m' -> currentInput q = ""%string \/
                               exists q0, In (k, q0) m /\ currentInput q = currentInput q0) ->
  (forall p, In p (JsMap.values m) -> tidyPlayer p) ->
  forall p, In p (JsMap.values m') -> tidyPlayer p.
Proof.
  intros Hr Hin Hm p Hp. apply In_values_entry in Hp as [k Hp].
  assert (Hq : exists q0, In (k, q0) m /\ samePlayerButFlags q0 p).
  { clear Hin Hm. induction Hr as [|[k1 a] [k2 b] m m' [Hk Hs] _ IH]; [destruct Hp|].
    cbn [fst snd] in Hk, Hs. destruct Hp as [Hp | Hp].
    - injection Hp as -> ->. exists a. split; [left; congruence | exact Hs].
    - destruct (IH Hp) as (q0 & Hq0 & Hs0). exists q0. split; [now right | exact Hs0]. }
  destruct Hq as (q0 & Hq0 & (_ & _ & S3 & S4 & S5 & _)).
  destruct (Hm q0 (In_entry_values _ _ _ _ Hq0)) as (T1 & T2 & T3 & T4).
  unfold tidyPlayer. rewrite S3, S4, S5. repeat split; try assumption.
  destruct (Hin k p Hp) as [Hc | (q1 & Hq1 & Hc)]; [exact Hc|].
  rewrite Hc. now destruct (Hm q1 (In_entry_values _ _ _ _ Hq1)) as (_ & _ & _ & ?).
Qed.

(** The two facts are proved together: the timer runs only in a PLAYING
    session, and the players of a session in the lobby are tidy. *)
Lemma reachable_status E s :
  reachable E s ->
  (tickInterval s = true -> phase s = PLAYING) /\
  (phase s = LOBBY -> forall p, In p (JsMap.values (players s)) -> tidyPlayer p).
Proof.
  induction 1 as [id0 name0 hostId0 | op s _ [IHt IHl]].
  - split; [discriminate | intros _ p []].
  - destruct (Op_eq_returnToLobby op) as [-> | Hop].
    { split; [|intros _; apply tidy_returnToLobby].
      cbn [step]. unfold returnToLobby, broadcastPlayerList, broadcast.
      cbn [tickInterval set_sent set_players set_roundStartPlayerId
           set_currentTurnPlayerId set_currentCombo set_usedWords set_phase].
      rewrite tickInterval_stopTurnTimer. discriminate. }
    pose proof (status_step E op s Hop) as Hst. split.
    + intros Ht. destruct Hst as [[H1 H2] | [[H1 _] | [H1 _]]];
        [rewrite H1; apply IHt; congruence | congruence | exact H1].
    + intros Hl.
      assert (Hl0 : phase s = LOBBY).
      { destruct Hst as [[H1 _] | [[_ [H1 | H1]] | [H1 _]]]; congruence. }
      specialize (IHl Hl0).
      destruct op; cbn [step] in *.
      * unfold addPlayer. repeat break_match; cbn [snd players set_players set_hostId];
          try exact IHl;
          intros p Hp; apply In_values_entry in Hp as [k Hp];
          apply In_set in Hp as [[_ ->] | Hp];
          try (apply IHl; eapply In_entry_values; exact Hp);
          unfold tidyPlayer, createPlayer; cbn; auto.
      * destruct (JsMap.get playerId (players s)) as [player|] eqn:Hg.
        2:{ unfold removePlayer. rewrite Hg. exact IHl. }
        apply (tidy_sameRoster _ _ (removePlayer_sameRoster E playerId s player Hg)).
        -- intros k q Hq. rewrite (removePlayer_tail E playerId s player Hg) in Hq.
           unfold removePlayer_tail_state, broadcastPlayerList in Hq.
           change (players (broadcast ?m ?x)) with (players x) in Hq.
           destruct (status_handOverHost player
                       (set_players (JsMap.delete playerId (players s)) s)) as [Hh _].
           cbn [phase set_players] in Hh. rewrite Hh, Hl0 in Hq. cbn [GamePhase_eqb] in Hq.
           right. unfold handOverHost in Hq. cbn [players set_players] in Hq.
           destruct (isHost player && _); [|eauto].
           destruct (JsMap.delete playerId (players s)) as [|[k1 h] rest]; [destruct Hq|].
           cbn [players set_players set_hostId] in Hq. destruct Hq as [Hq | Hq].
           ++ injection Hq as <- <-. exists h. split; [now left | reflexivity].
           ++ exists q. split; [now right | reflexivity].
        -- intros p Hp. apply In_values_entry in Hp as [k Hp].
           apply In_delete in Hp as [Hp _]. apply IHl. eapply In_entry_values; exact Hp.
      * unfold setPlayerReady. destruct (JsMap.get playerId (players s)) as [pl|];
          [|exact IHl].
        unfold broadcastPlayerList, broadcast, modifyPlayer. cbn [players set_players set_sent].
        intros q Hp. apply In_values_entry in Hp as [k Hp].
        apply In_modify in Hp as (v0 & Hv0 & ->).
        pose proof (IHl v0 (In_entry_values _ _ _ _ Hv0)) as (T1 & T2 & T3 & T4).
        destruct (String.eqb playerId k); [|repeat split; assumption].
        unfold tidyPlayer. cbn. destruct ready; auto.
      * destruct (fst (startGame E now s)) eqn:Hok.
        -- destruct (startGame_success E now s Hok) as (_ & _ & _ & _ & H1 & _). congruence.
        -- unfold startGame in *. destruct (negb (canStartGame s)); [exact IHl | discriminate].
      * unfold handleTurnInput. rewrite Hl0. exact IHl.
      * unfold handleTurnSubmit. rewrite Hl0. exact IHl.
      * unfold tick. destruct (tickInterval s) eqn:Ht; [|exact IHl].
        specialize (IHt eq_refl). congruence.
      * contradiction.
      * exact IHl.
Qed.

(** X13. In every state a session can reach, the countdown is armed only
    while the session is PLAYING; so the timer callback never takes a life in
    the lobby or after the match is over. *)
Theorem countdown_only_in_match (E : Env) (s : GameSession) :
  reachable E s ->
  (tickInterval s = true -> phase s = PLAYING) /\
  (phase s <> PLAYING -> forall now, tick E now s = s).
Proof.
  intros Hr. destruct (reachable_status E s Hr) as [Ht _]. split; [exact Ht|].
  intros Hn now. unfold tick. destruct (tickInterval s); [|reflexivity].
  elim Hn. now apply Ht.
Qed.

Lemma countdown_only_in_match_witness :
  tick Sample.env 99999 Sample.lobby3 = Sample.lobby3.
Proof.
  assert (Hr : reachable Sample.env Sample.lobby3)
    by (repeat apply reachable_run; apply reachable_new).
  assert (Hn : phase Sample.lobby3 <> PLAYING) by (vm_compute; discriminate).
  exact (proj2 (countdown_only_in_match Sample.env Sample.lobby3 Hr) Hn 99999%Z).
Defined.

(** X14. In every state a session can reach in the LOBBY phase, each player is
    CONNECTED or READY, has the default lives, score 0 and no transient
    input: nothing of an earlier match is left on the roster. *)
Theorem lobby_roster_is_fresh (E : Env) (s : GameSession) (p : Player) :
  reachable E s ->
  phase s = LOBBY ->
  In p (JsMap.values (players s)) ->
  (state p = CONNECTED \/ state p = READY) /\ lives p = DEFAULT_LIVES /\
  score p = 0%Z /\ currentInput p = ""%string.
Proof.
  intros Hr Hl Hp. destruct (reachable_status E s Hr) as [_ H]. exact (H Hl p Hp).
Qed.

Lemma lobby_roster_is_fresh_witness :
  exists p, In p (JsMap.values (players Sample_two_ready)) /\
            state p = READY /\ lives p = DEFAULT_LIVES /\ score p = 0%Z.
Proof.
  assert (Hr : reachable Sample.env Sample_two_ready)
    by (repeat apply reachable_run; apply reachable_new).
  assert (Hl : phase Sample_two_ready = LOBBY) by (vm_compute; reflexivity).
  assert (Hp : exists p, In p (JsMap.values (players Sample_two_ready)) /\ state p = READY)
    by (vm_compute; eexists; split; [left; reflexivity | reflexivity]).
  destruct Hp as (p & Hp & Hs). exists p.
  destruct (lobby_roster_is_fresh Sample.env Sample_two_ready p Hr Hl Hp)
    as (_ & H2 & H3 & _).
  exact (conj Hp (conj Hs (conj H2 H3))).
Defined.

Lemma size_vitals m : JsMap.size (vitals m) = JsMap.size m.
Proof. unfold JsMap.size, vitals. apply length_map. Qed.

Lemma size_set_le {V} k (v : V) m : JsMap.size (JsMap.set k v m) <= S (JsMap.size m).
Proof.
  unfold JsMap.size. induction m as [|[k1 v1] m IH]; cbn [JsMap.set length]; [lia|].
  destruct (String.eqb k k1); cbn [length]; lia.
Qed.

Lemma size_step E op s :
  Inv s -> JsMap.size (players s) <= MAX_PLAYERS ->
  JsMap.size (players (step E op s)) <= MAX_PLAYERS.
Proof.
  intros Hi Hs. rewrite <- size_vitals in *.
  assert (Hm : forall k f (m : JsMap.t Vital), JsMap.size (JsMap.modify k f m) = JsMap.size m)
    by (intros; unfold JsMap.size, JsMap.modify; apply length_map).
  assert (Hf : forall f (m : JsMap.t Vital), JsMap.size (JsMap.forEach f m) = JsMap.size m)
    by (intros; unfold JsMap.size, JsMap.forEach; apply length_map).
  destruct op; cbn [step].
  - unfold addPlayer. destruct (MAX_PLAYERS <=? JsMap.size (players s)) eqn:Hc;
      [exact Hs|]. apply Nat.leb_gt in Hc.
    destruct (negb (GamePhase_eqb (phase s) LOBBY)); [exact Hs|].
    rewrite size_vitals. cbn [snd]. 
    assert (Hp : forall x, players (if Nat.eqb (JsMap.size (players s)) 0
                                    then set_hostId id0 x else x) = players x)
      by (intros; now destruct (Nat.eqb _ _)).
    rewrite Hp. cbn [players set_players].
    pose proof (size_set_le id0 (createPlayer id0 name0 ws0
                  (Nat.eqb (JsMap.size (players s)) 0)) (players s)). lia.
  - destruct (vitals_removePlayer E playerId s) as [-> | ->]; [exact Hs|].
    unfold JsMap.size, JsMap.delete in *.
    etransitivity; [apply filter_length_le | exact Hs].
  - destruct (vitals_setPlayerReady playerId ready s) as [-> | ->];
      [exact Hs | now rewrite Hm].
  - destruct (vitals_startGame E now s) as [-> | ->]; [exact Hs | now rewrite Hf].
  - now rewrite vitals_handleTurnInput.
  - now rewrite vitals_handleTurnSubmit.
  - destruct Hi as [[Hd _] _]. rewrite keys_vitals in Hd.
    destruct (vitals_tick E now s Hd) as [-> | ->]; [exact Hs | now rewrite Hm].
  - rewrite vitals_returnToLobby. now rewrite Hf.
  - exact Hs.
Qed.

(** X15. In every state a session can reach, the roster holds at most
    [MAX_PLAYERS] players. *)
Theorem roster_never_exceeds_max (E : Env) (s : GameSession) :
  reachable E s -> playerCount s <= MAX_PLAYERS.
Proof.
  unfold playerCount.
  induction 1 as [id0 name0 hostId0 | op s Hr IH].
  - cbn. unfold MAX_PLAYERS. lia.
  - apply size_step; [exact (reachable_Inv E s Hr) | exact IH].
Qed.

Lemma roster_never_exceeds_max_witness :
  playerCount Sample.playing3 <= MAX_PLAYERS.
Proof.
  apply (roster_never_exceeds_max Sample.env).
  repeat apply reachable_run; apply reachable_new.
Defined.

Lemma validateWord_CORRECT_dictionary E word combo used :
  validateWord E word combo used = CORRECT ->
  In (toUpperCase E word) (wordSet E).
Proof.
  unfold validateWord. cbv zeta. intros H. apply JsSet_has_In.
  destruct (Nat.eqb (String.length word) 0); [discriminate|].
  destruct (JsSet.has (toUpperCase E word) used); [discriminate|].
  destruct (negb (includes _ _)); [discriminate|].
  destruct (JsSet.has (toUpperCase E word) (wordSet E)); [reflexivity | discriminate].
Qed.

Lemma usedWords_step_dictionary E op s :
  incl (usedWords s) (wordSet E) -> incl (usedWords (step E op s)) (wordSet E).
Proof.
  intros Hi. destruct op; cbn [step].
  - unfold addPlayer. repeat break_match; exact Hi.
  - now rewrite usedWords_removePlayer.
  - unfold setPlayerReady. break_match; exact Hi.
  - destruct (fst (startGame E now s)) eqn:Hok.
    + destruct (startGame_success E now s Hok) as (_ & _ & -> & _). intros w [].
    + unfold startGame in *. destruct (negb (canStartGame s)); [exact Hi | discriminate].
  - unfold handleTurnInput. repeat break_match; exact Hi.
  - unfold handleTurnSubmit.
    destruct (negb (GamePhase_eqb (phase s) PLAYING)); [exact Hi|].
    destruct (negb (String.eqb playerId (currentTurnPlayerId s))); [exact Hi|].
    destruct (JsMap.get playerId (players s)) as [p|]; [|exact Hi].
    destruct (negb (PlayerState_eqb (state p) ALIVE)); [exact Hi|].
    destruct (validateWord E word (currentCombo s) (usedWords s)) eqn:Hv;
      try exact Hi; rewrite usedWords_processTurnResult; [|exact Hi].
    intros w Hw. apply JsSet_add_In in Hw as [-> | Hw]; [|now apply Hi].
    exact (validateWord_CORRECT_dictionary E word _ _ Hv).
  - now rewrite usedWords_tick.
  - intros w [].
  - exact Hi.
Qed.

(** X16. In every state a session can reach, every used word is a word of the
    dictionary, stored as the dictionary spells it. *)
Theorem used_words_are_dictionary_words (E : Env) (s : GameSession) (w : string) :
  reachable E s -> In w (usedWords s) -> In w (wordSet E).
Proof.
  intros Hr. revert w. change (incl (usedWords s) (wordSet E)).
  induction Hr as [id0 name0 hostId0 | op s Hr IH].
  - intros w [].
  - now apply usedWords_step_dictionary.
Qed.

Lemma used_words_are_dictionary_words_witness :
  In "KALA"%string (wordSet Sample.env).
Proof.
  set (s := step Sample.env (OpHandleTurnSubmit "p1" "kala" 500) Sample.playing3).
  assert (Hr : reachable Sample.env s)
    by (apply reachable_step; repeat apply reachable_run; apply reachable_new).
  assert (Hin : In "KALA"%string (usedWords s)) by (vm_compute; left; reflexivity).
  exact (used_words_are_dictionary_words Sample.env s "KALA" Hr Hin).
Defined.

(** ** The registry of sessions *)

Lemma fixedPart_selectNextPlayer E force k s :
  fixedPart (selectNextPlayer E force k s) = fixedPart s.
Proof. unfold selectNextPlayer. repeat break_match; reflexivity. Qed.

Lemma fixedPart_advanceToNextPlayer E force s :
  fixedPart (advanceToNextPlayer E force s) = fixedPart s.
Proof.
  rewrite advanceToNextPlayer_nextAlive. destruct (nextAlive s);
    [apply fixedPart_selectNextPlayer | reflexivity].
Qed.

Lemma fixedPart_stopTurnTimer s : fixedPart (stopTurnTimer s) = fixedPart s.
Proof. unfold stopTurnTimer. now destruct (tickInterval s). Qed.

Lemma fixedPart_checkWinCondition E s : fixedPart (snd (checkWinCondition E s)) = fixedPart s.
Proof.
  unfold checkWinCondition, endGame, broadcast, stopTurnTimer.
  repeat break_match; reflexivity.
Qed.

Lemma fixedPart_finishTurn E k result word now a :
  fixedPart (finishTurn E k result word now a) = fixedPart a.
Proof.
  unfold finishTurn.
  set (s2 := match JsMap.get k (players a) with Some _ => _ | None => _ end).
  set (s3 := match JsMap.get k (players s2) with Some _ => _ | None => _ end).
  assert (H2 : fixedPart s2 = fixedPart a) by (subst s2; now destruct (JsMap.get k (players a))).
  assert (H3 : fixedPart s3 = fixedPart a)
    by (subst s3; destruct (JsMap.get k (players s2)); exact H2).
  clearbody s3. pose proof (fixedPart_checkWinCondition E s3) as H4.
  destruct (checkWinCondition E s3) as [won s4]. cbn [snd] in H4.
  destruct won; [congruence|]. rewrite <- H3, <- H4.
  unfold startTurnTimer, broadcast, stopTurnTimer. destruct (tickInterval s4); reflexivity.
Qed.

Lemma fixedPart_processTurnResult E k result word now s :
  fixedPart (processTurnResult E k result word now s) = fixedPart s.
Proof.
  rewrite processTurnResult_finishTurn, fixedPart_finishTurn.
  destruct result; rewrite ?fixedPart_advanceToNextPlayer;
    unfold bookCorrect, bookTimeout, modifyPlayer, broadcast, stopTurnTimer;
    repeat break_match; reflexivity.
Qed.

Lemma fixedPart_removePlayer E k s : fixedPart (removePlayer E k s) = fixedPart s.
Proof.
  destruct (JsMap.get k (players s)) as [player|] eqn:Hg.
  2:{ unfold removePlayer. now rewrite Hg. }
  rewrite (removePlayer_tail E k s player Hg).
  set (s1 := set_players (JsMap.delete k (players s)) s).
  assert (H2 : fixedPart (handOverHost player s1) = fixedPart s)
    by (unfold handOverHost; repeat break_match; reflexivity).
  set (s2 := handOverHost player s1) in *.
  unfold removePlayer_tail_state, broadcastPlayerList.
  change (fixedPart (broadcast ?m ?x)) with (fixedPart x).
  destruct (GamePhase_eqb (phase s2) PLAYING); [|exact H2].
  rewrite fixedPart_checkWinCondition.
  destruct (String.eqb (currentTurnPlayerId s2) k);
    rewrite ?fixedPart_advanceToNextPlayer; exact H2.
Qed.

Lemma fixedPart_step E op s : fixedPart (step E op s) = fixedPart s.
Proof.
  destruct op; cbn [step].
  - unfold addPlayer. repeat break_match; reflexivity.
  - apply fixedPart_removePlayer.
  - unfold setPlayerReady. break_match; reflexivity.
  - unfold startGame. destruct (negb (canStartGame s)); [reflexivity|].
    cbn [snd]. unfold startTurnTimer, broadcast, stopTurnTimer.
    repeat break_match; reflexivity.
  - unfold handleTurnInput. repeat break_match; reflexivity.
  - unfold handleTurnSubmit.
    destruct (negb (GamePhase_eqb (phase s) PLAYING)); [reflexivity|].
    destruct (negb (String.eqb playerId (currentTurnPlayerId s))); [reflexivity|].
    destruct (JsMap.get playerId (players s)) as [p|]; [|reflexivity].
    destruct (negb (PlayerState_eqb (state p) ALIVE)); [reflexivity|].
    destruct (validateWord E word (currentCombo s) (usedWords s));
      try reflexivity; apply fixedPart_processTurnResult.
  - unfold tick. destruct (tickInterval s); [|reflexivity].
    destruct (Qle_bool _ _); [|reflexivity].
    unfold handleTimeout. destruct (JsMap.get _ _);
      rewrite ?fixedPart_processTurnResult, fixedPart_stopTurnTimer; reflexivity.
  - unfold returnToLobby, broadcastPlayerList, broadcast, stopTurnTimer.
    destruct (tickInterval s); reflexivity.
  - reflexivity.
Qed.

Lemma game_id_step E op s : game_id (step E op s) = game_id s.
Proof. pose proof (fixedPart_step E op s) as H. unfold fixedPart in H. congruence. Qed.

Lemma game_id_removePlayer E k s : game_id (removePlayer E k s) = game_id s.
Proof. exact (game_id_step E (OpRemovePlayer k) s). Qed.

Lemma turnDuration_step E op s : turnDuration (step E op s) = turnDuration s.
Proof. pose proof (fixedPart_step E op s) as H. unfold fixedPart in H. congruence. Qed.

Lemma reachable_turnDuration E s : reachable E s -> turnDuration s = DEFAULT_TURN_DURATION.
Proof.
  induction 1 as [id0 name0 hostId0 | op s _ IH]; [reflexivity|].
  now rewrite turnDuration_step.
Qed.

Lemma keys_step_kept E op s :
  Inv s -> (forall k, op <> OpRemovePlayer k) ->
  incl (JsMap.keys (players s)) (JsMap.keys (players (step E op s))).
Proof.
  intros Hi Hop. rewrite <- !keys_vitals.
  assert (Hm : forall k f (m : JsMap.t Vital), JsMap.keys (JsMap.modify k f m) = JsMap.keys m).
  { intros. unfold JsMap.keys, JsMap.modify. rewrite map_map. apply map_ext.
    intros [k1 v1]. cbn. now destruct (String.eqb k k1). }
  assert (Hf : forall f (m : JsMap.t Vital), JsMap.keys (JsMap.forEach f m) = JsMap.keys m).
  { intros. unfold JsMap.keys, JsMap.forEach. rewrite map_map. reflexivity. }
  destruct op; cbn [step].
  - destruct (vitals_addPlayer id0 name0 ws0 s) as [-> | ->]; [apply incl_refl|].
    intros k Hk. apply In_keys_get in Hk as [v Hv].
    destruct (String.eqb k id0) eqn:He.
    + apply String.eqb_eq in He. subst.
      eapply get_In_keys. rewrite get_set, String.eqb_refl. reflexivity.
    + eapply get_In_keys. rewrite get_set, He. exact Hv.
  - elim (Hop playerId). reflexivity.
  - destruct (vitals_setPlayerReady playerId ready s) as [-> | ->];
      [|rewrite Hm]; apply incl_refl.
  - destruct (vitals_startGame E now s) as [-> | ->]; [|rewrite Hf]; apply incl_refl.
  - rewrite vitals_handleTurnInput. apply incl_refl.
  - rewrite vitals_handleTurnSubmit. apply incl_refl.
  - destruct Hi as [[Hd _] _]. rewrite keys_vitals in Hd.
    destruct (vitals_tick E now s Hd) as [-> | ->]; [|rewrite Hm]; apply incl_refl.
  - rewrite vitals_returnToLobby, Hf. apply incl_refl.
  - apply incl_refl.
Qed.

Lemma isEmpty_false_keys s k :
  In k (JsMap.keys (players s)) -> isEmpty s = false.
Proof.
  unfold isEmpty, JsMap.size, JsMap.keys. destruct (players s); [intros []|reflexivity].
Qed.

Lemma isEmpty_step E op s :
  reachable E s -> (forall k, op <> OpRemovePlayer k) ->
  isEmpty s = false -> isEmpty (step E op s) = false.
Proof.
  intros Hr Hop He.
  destruct (players s) as [|[k p] rest] eqn:Hp;
    [unfold isEmpty in He; rewrite Hp in He; discriminate|].
  apply (isEmpty_false_keys _ k).
  apply (keys_step_kept E op s (reachable_Inv E s Hr) Hop).
  rewrite Hp. now left.
Qed.

Lemma registryOk_set E gid g' (m : LobbyManager) cs :
  registryOk E m -> reachable E g' -> game_id g' = gid -> isEmpty g' = false ->
  registryOk E (mkLobbyManager (JsMap.set gid g' (games m)) cs).
Proof.
  intros [Hd Hall] Hr Hid He. split; cbn [games].
  - now apply NoDup_keys_set.
  - intros gid1 g1 Hin. apply In_set in Hin as [[-> ->] | Hin]; [auto | now apply Hall].
Qed.

Lemma registryOk_store E op gid g (m : LobbyManager) :
  registryOk E m -> JsMap.get gid (games m) = Some g ->
  (forall k, op <> OpRemovePlayer k) ->
  registryOk E (storeGame gid (step E op g) m).
Proof.
  intros Hok Hg Hop. destruct (proj2 Hok gid g (get_In _ _ _ _ Hg)) as (Hr & Hid & He).
  apply registryOk_set; [exact Hok | now constructor | now rewrite game_id_step |
                         now apply isEmpty_step].
Qed.

Lemma registryOk_removeFromGame E gid pid (m : LobbyManager) cs :
  registryOk E m ->
  registryOk E (mkLobbyManager (removeFromGame E gid pid (games m)) cs).
Proof.
  intros Hok. unfold removeFromGame.
  destruct (JsMap.get gid (games m)) as [g|] eqn:Hg; [|exact Hok].
  destruct (proj2 Hok gid g (get_In _ _ _ _ Hg)) as (Hr & Hid & He).
  destruct (isEmpty (removePlayer E pid g)) eqn:Hem.
  - destruct Hok as [Hd Hall]. split; cbn [games].
    + now apply NoDup_keys_delete.
    + intros gid1 g1 Hin. apply In_delete in Hin as [Hin _]. now apply Hall.
  - apply registryOk_set; [exact Hok | | now rewrite game_id_removePlayer | exact Hem].
    exact (reachable_step E (OpRemovePlayer pid) g Hr).
Qed.

Lemma clientGame_get w m c gid g :
  clientGame w m = Some (c, gid, g) -> JsMap.get gid (games m) = Some g.
Proof.
  unfold clientGame. destruct (clients_get w (clients m)); [|discriminate].
  destruct (truthyGameId _); [|discriminate].
  destruct (JsMap.get _ _) eqn:Hg; [|discriminate]. now intros [= _ <- <-].
Qed.

Lemma registryOk_step E op m : registryOk E m -> registryOk E (lobbyStep E op m).
Proof.
  intros Hok. destruct op; cbn [lobbyStep].
  - exact Hok.
  - unfold unregisterClient. destruct (clients_get w (clients m)) as [c|]; [|exact Hok].
    destruct (truthyGameId (client_gameId c)); [now apply registryOk_removeFromGame|].
    exact Hok.
  - unfold createGame. destruct (clients_get w (clients m)) as [c|]; [|exact Hok].
    destruct (addPlayer _ _ _ _) as [[pl|] g'] eqn:Ha; [|exact Hok]. cbn [snd].
    assert (Hg' : g' = step E (OpAddPlayer (client_playerId c) hostName w)
                         (newGameSession gameId0 gameName (client_playerId c)))
      by (cbn [step]; now rewrite Ha).
    apply registryOk_set; [exact Hok | | | ].
    + rewrite Hg'. constructor. constructor.
    + rewrite Hg', game_id_step. reflexivity.
    + rewrite Hg'. reflexivity.
  - unfold joinGame. destruct (clients_get w (clients m)) as [c|]; [|exact Hok].
    destruct (JsMap.get gameId0 (games m)) as [g|] eqn:Hg; [|exact Hok].
    destruct (negb (GamePhase_eqb (phase g) LOBBY)); [exact Hok|].
    destruct (MAX_PLAYERS <=? playerCount g); [exact Hok|].
    destruct (addPlayer _ _ _ _) as [[pl|] g'] eqn:Ha; [|exact Hok]. cbn [snd].
    assert (Hg' : g' = step E (OpAddPlayer (client_playerId c) playerName w) g)
      by (cbn [step]; now rewrite Ha).
    rewrite Hg'. apply (registryOk_store E _ gameId0 g m Hok Hg). discriminate.
  - unfold leaveGame. destruct (clients_get w (clients m)) as [c|]; [|exact Hok].
    destruct (truthyGameId (client_gameId c)); [now apply registryOk_removeFromGame|].
    exact Hok.
  - unfold managerStartGame. destruct (clients_get w (clients m)) as [c|]; [|exact Hok].
    destruct (truthyGameId (client_gameId c)) as [gid|]; [|exact Hok].
    destruct (JsMap.get gid (games m)) as [g|] eqn:Hg; [|exact Hok].
    destruct (negb (isHostOf (client_playerId c) g)); [exact Hok|]. cbn [snd].
    apply (registryOk_store E (OpStartGame now) gid g m Hok Hg). discriminate.
  - unfold handlePlayerReady. destruct (clientGame w m) as [[[c gid] g]|] eqn:Hc;
      [|exact Hok].
    apply (registryOk_store E (OpSetPlayerReady (client_playerId c) ready) gid g m Hok
             (clientGame_get _ _ _ _ _ Hc)). discriminate.
  - unfold handleStartGame. destruct (clientGame w m) as [[[c gid] g]|] eqn:Hc;
      [|exact Hok].
    destruct (negb (isHostOf (client_playerId c) g)); [exact Hok|].
    destruct (canStartGame g); [|exact Hok].
    apply (registryOk_store E (OpStartGame now) gid g m Hok
             (clientGame_get _ _ _ _ _ Hc)). discriminate.
  - unfold handleReturnToLobby. destruct (clientGame w m) as [[[c gid] g]|] eqn:Hc;
      [|exact Hok].
    destruct (negb (GamePhase_eqb (phase g) GAME_OVER)); [exact Hok|].
    apply (registryOk_store E OpReturnToLobby gid g m Hok
             (clientGame_get _ _ _ _ _ Hc)). discriminate.
  - unfold gatewayTurnInput. destruct (clientGame w m) as [[[c gid] g]|] eqn:Hc;
      [|exact Hok].
    apply (registryOk_store E (OpHandleTurnInput (client_playerId c) input) gid g m Hok
             (clientGame_get _ _ _ _ _ Hc)). discriminate.
  - unfold gatewayTurnSubmit. destruct (clientGame w m) as [[[c gid] g]|] eqn:Hc;
      [|exact Hok].
    apply (registryOk_store E (OpHandleTurnSubmit (client_playerId c) word now) gid g m Hok
             (clientGame_get _ _ _ _ _ Hc)). discriminate.
  - unfold gatewayTick. destruct (JsMap.get gid (games m)) as [g|] eqn:Hg; [|exact Hok].
    apply (registryOk_store E (OpTick now) gid g m Hok Hg). discriminate.
Qed.

Lemma lobbyReachable_registryOk E m : lobbyReachable E m -> registryOk E m.
Proof.
  induction 1 as [|op m _ IH]; [|now apply registryOk_step].
  split; [constructor | intros gid g []].
Qed.

(** X17. Whatever the clients do, every session the registry holds is stored
    under its own id, has at least one player (a session whose last player
    left is dropped), and is in a state that the operations of a session
    reach from its construction: what holds of every reachable session holds
    of every game of the server. *)
Theorem registry_holds_reachable_sessions (E : Env) (m : LobbyManager)
    (gid : string) (g : GameSession) :
  lobbyReachable E m ->
  getGame gid m = Some g ->
  reachable E g /\ game_id g = gid /\ isEmpty g = false.
Proof.
  intros Hr Hg. apply (proj2 (lobbyReachable_registryOk E m Hr)).
  apply get_In. exact Hg.
Qed.

Lemma lobbyReachable_run E ops m : lobbyReachable E m -> lobbyReachable E (lobbyRun E ops m).
Proof.
  revert m. induction ops as [|op ops IH]; intros m Hm; [exact Hm|].
  cbn. apply IH. now constructor.
Qed.

Lemma registry_holds_reachable_sessions_witness :
  exists g, getGame "g1" Sample_server = Some g /\
            reachable Sample.env g /\ game_id g = "g1"%string /\ isEmpty g = false.
Proof.
  assert (Hr : lobbyReachable Sample.env Sample_server)
    by (apply lobbyReachable_run; constructor).
  assert (Hg : exists g, getGame "g1" Sample_server = Some g)
    by (vm_compute; eexists; reflexivity).
  destruct Hg as [g Hg]. exists g. split; [exact Hg|].
  exact (registry_holds_reachable_sessions Sample.env Sample_server "g1" g Hr Hg).
Defined.

Lemma clients_get_set w w' c cs :
  clients_get w' (clients_set w c cs)
  = if Nat.eqb (wsId w') (wsId w) then Some c else clients_get w' cs.
Proof.
  induction cs as [|[k c1] cs IH]; cbn [clients_set clients_get].
  - destruct (Nat.eqb (wsId w') (wsId w)); reflexivity.
  - destruct (Nat.eqb (wsId w) k) eqn:H1; cbn [clients_get].
    + apply Nat.eqb_eq in H1. subst k.
      destruct (Nat.eqb (wsId w') (wsId w)); reflexivity.
    + rewrite IH. destruct (Nat.eqb (wsId w') k) eqn:H2; [|reflexivity].
      apply Nat.eqb_eq in H2. subst k.
      destruct (Nat.eqb (wsId w') (wsId w)) eqn:H3; [|reflexivity].
      apply Nat.eqb_eq in H3. rewrite H3, Nat.eqb_refl in H1. discriminate.
Qed.

Lemma clients_get_delete w w' cs :
  clients_get w' (clients_delete w cs)
  = if Nat.eqb (wsId w') (wsId w) then None else clients_get w' cs.
Proof.
  induction cs as [|[k c1] cs IH]; cbn [clients_delete filter clients_get fst].
  - destruct (Nat.eqb (wsId w') (wsId w)); reflexivity.
  - destruct (Nat.eqb (wsId w) k) eqn:H1; cbn [negb clients_get].
    + fold (clients_delete w cs). rewrite IH. apply Nat.eqb_eq in H1. subst k.
      destruct (Nat.eqb (wsId w') (wsId w)); reflexivity.
    + fold (clients_delete w cs). rewrite IH.
      destruct (Nat.eqb (wsId w') k) eqn:H2; [|reflexivity].
      apply Nat.eqb_eq in H2. subst k.
      destruct (Nat.eqb (wsId w') (wsId w)) eqn:H3; [|reflexivity].
      apply Nat.eqb_eq in H3. rewrite H3, Nat.eqb_refl in H1. discriminate.
Qed.

Lemma get_set_other {V} k k1 (v : V) m :
  k1 <> k -> JsMap.get k1 (JsMap.set k v m) = JsMap.get k1 m.
Proof.
  intros Hne. rewrite get_set. destruct (String.eqb k1 k) eqn:He; [|reflexivity].
  apply String.eqb_eq in He. contradiction.
Qed.

Lemma get_removeFromGame_other E gid pid gs gid1 :
  gid1 <> gid -> JsMap.get gid1 (removeFromGame E gid pid gs) = JsMap.get gid1 gs.
Proof.
  intros Hne. unfold removeFromGame. destruct (JsMap.get gid gs); [|reflexivity].
  destruct (isEmpty _); [apply get_delete_other; congruence | now apply get_set_other].
Qed.

Lemma clients_get_set_other w w' c cs :
  wsId w' <> wsId w -> clients_get w' (clients_set w c cs) = clients_get w' cs.
Proof.
  intros Hne. rewrite clients_get_set.
  destruct (Nat.eqb (wsId w') (wsId w)) eqn:He; [|reflexivity].
  apply Nat.eqb_eq in He. contradiction.
Qed.

(** X18. An operation of the registry changes at most the game it addresses
    and at most the record of the client it comes from: every other game and
    every other client is left exactly as it was. *)
Theorem lobbyStep_touches_one_game (E : Env) (op : LobbyOp) (m : LobbyManager) :
  (forall gid, addressedGame op m <> Some gid ->
     getGame gid (lobbyStep E op m) = getGame gid m) /\
  (forall w', (forall w, senderOf op = Some w -> wsId w' <> wsId w) ->
     getClientInfo w' (lobbyStep E op m) = getClientInfo w' m).
Proof.
  unfold getGame, getClientInfo. split.
  - intros gid Hne. destruct op; cbn [lobbyStep addressedGame] in *.
    + reflexivity.
    + unfold unregisterClient. destruct (clients_get w (clients m)) as [c|]; [|reflexivity].
      cbn [games]. destruct (truthyGameId (client_gameId c)) as [g0|]; [|reflexivity].
      apply get_removeFromGame_other. congruence.
    + unfold createGame. destruct (clients_get w (clients m)) as [c|]; [|reflexivity].
      destruct (addPlayer _ _ _ _) as [[pl|] g']; [|reflexivity]. cbn [snd games].
      apply get_set_other. congruence.
    + unfold joinGame. destruct (clients_get w (clients m)) as [c|]; [|reflexivity].
      destruct (JsMap.get gameId0 (games m)) as [g|]; [|reflexivity].
      destruct (negb (GamePhase_eqb (phase g) LOBBY)); [reflexivity|].
      destruct (MAX_PLAYERS <=? playerCount g); [reflexivity|].
      destruct (addPlayer _ _ _ _) as [[pl|] g']; [|reflexivity]. cbn [snd games].
      apply get_set_other. congruence.
    + unfold leaveGame. destruct (clients_get w (clients m)) as [c|]; [|reflexivity].
      destruct (truthyGameId (client_gameId c)) as [g0|]; [|reflexivity]. cbn [games].
      apply get_removeFromGame_other. congruence.
    + unfold managerStartGame. destruct (clients_get w (clients m)) as [c|]; [|reflexivity].
      destruct (truthyGameId (client_gameId c)) as [g0|]; [|reflexivity].
      destruct (JsMap.get g0 (games m)) as [g|]; [|reflexivity].
      destruct (negb (isHostOf (client_playerId c) g)); [reflexivity|]. cbn [snd games].
      apply get_set_other. congruence.
    + unfold handlePlayerReady, clientGame.
      destruct (clients_get w (clients m)) as [c|]; [|reflexivity].
      destruct (truthyGameId (client_gameId c)) as [g0|]; [|reflexivity].
      destruct (JsMap.get g0 (games m)) as [g|]; [|reflexivity]. cbn [storeGame games].
      apply get_set_other. congruence.
    + unfold handleStartGame, clientGame.
      destruct (clients_get w (clients m)) as [c|]; [|reflexivity].
      destruct (truthyGameId (client_gameId c)) as [g0|]; [|reflexivity].
      destruct (JsMap.get g0 (games m)) as [g|]; [|reflexivity].
      destruct (negb (isHostOf (client_playerId c) g)); [reflexivity|].
      destruct (canStartGame g); [|reflexivity]. cbn [storeGame games].
      apply get_set_other. congruence.
    + unfold handleReturnToLobby, clientGame.
      destruct (clients_get w (clients m)) as [c|]; [|reflexivity].
      destruct (truthyGameId (client_gameId c)) as [g0|]; [|reflexivity].
      destruct (JsMap.get g0 (games m)) as [g|]; [|reflexivity].
      destruct (negb (GamePhase_eqb (phase g) GAME_OVER)); [reflexivity|].
      cbn [storeGame games]. apply get_set_other. congruence.
    + unfold gatewayTurnInput, clientGame.
      destruct (clients_get w (clients m)) as [c|]; [|reflexivity].
      destruct (truthyGameId (client_gameId c)) as [g0|]; [|reflexivity].
      destruct (JsMap.get g0 (games m)) as [g|]; [|reflexivity]. cbn [storeGame games].
      apply get_set_other. congruence.
    + unfold gatewayTurnSubmit, clientGame.
      destruct (clients_get w (clients m)) as [c|]; [|reflexivity].
      destruct (truthyGameId (client_gameId c)) as [g0|]; [|reflexivity].
      destruct (JsMap.get g0 (games m)) as [g|]; [|reflexivity]. cbn [storeGame games].
      apply get_set_other. congruence.
    + unfold gatewayTick. destruct (JsMap.get gid0 (games m)) as [g|]; [|reflexivity].
      cbn [storeGame games]. apply get_set_other. congruence.
  - intros w' Hw. destruct op; cbn [lobbyStep senderOf] in *;
      try specialize (Hw w eq_refl).
    + cbn [registerClient snd clients]. now apply clients_get_set_other.
    + unfold unregisterClient. destruct (clients_get w (clients m)) as [c|]; [|reflexivity].
      cbn [clients]. rewrite clients_get_delete.
      destruct (Nat.eqb (wsId w') (wsId w)) eqn:He; [|reflexivity].
      apply Nat.eqb_eq in He. contradiction.
    + unfold createGame. destruct (clients_get w (clients m)) as [c|]; [|reflexivity].
      destruct (addPlayer _ _ _ _) as [[pl|] g']; [|reflexivity]. cbn [snd clients].
      now apply clients_get_set_other.
    + unfold joinGame. destruct (clients_get w (clients m)) as [c|]; [|reflexivity].
      destruct (JsMap.get gameId0 (games m)) as [g|]; [|reflexivity].
      destruct (negb (GamePhase_eqb (phase g) LOBBY)); [reflexivity|].
      destruct (MAX_PLAYERS <=? playerCount g); [reflexivity|].
      destruct (addPlayer _ _ _ _) as [[pl|] g']; [|reflexivity]. cbn [snd clients].
      now apply clients_get_set_other.
    + unfold leaveGame. destruct (clients_get w (clients m)) as [c|]; [|reflexivity].
      destruct (truthyGameId (client_gameId c)) as [g0|]; [|reflexivity]. cbn [clients].
      now apply clients_get_set_other.
    + unfold managerStartGame. repeat break_match; reflexivity.
    + unfold handlePlayerReady. repeat break_match; reflexivity.
    + unfold handleStartGame. repeat break_match; reflexivity.
    + unfold handleReturnToLobby. repeat break_match; reflexivity.
    + unfold gatewayTurnInput. repeat break_match; reflexivity.
    + unfold gatewayTurnSubmit. repeat break_match; reflexivity.
    + unfold gatewayTick. repeat break_match; reflexivity.
Qed.

Lemma lobbyStep_touches_one_game_witness :
  getGame "g1" (lobbyStep Sample.env (LCreate "g2" (Sample.sock 2) "Bob" "other")
                  Sample_server)
  = getGame "g1" Sample_server.
Proof.
  apply (proj1 (lobbyStep_touches_one_game Sample.env
                  (LCreate "g2" (Sample.sock 2) "Bob" "other") Sample_server)).
  cbn [addressedGame]. discriminate.
Defined.

(** X19. [createGame] by an unregistered socket does nothing. By a registered
    client it stores, under the id drawn, a session in LOBBY whose only
    player is the client, CONNECTED and host; the session is the one returned
    and the one [getGame] finds; the client's record points to it; and the
    games of other ids are as they were, a game the client was in before
    included. *)
Theorem createGame_round_trip (gameId0 : string) (w : WebSocket)
    (hostName gameName : string) (m : LobbyManager) :
  let r := createGame gameId0 w hostName gameName m in
  (getClientInfo w m = None -> r = (None, m)) /\
  (forall c, getClientInfo w m = Some c ->
     exists g,
       fst r = Some g /\ getGame gameId0 (snd r) = Some g /\
       game_id g = gameId0 /\ game_name g = gameName /\ phase g = LOBBY /\
       hostId g = client_playerId c /\
       players g = [(client_playerId c,
                     createPlayer (client_playerId c) hostName w true)] /\
       sent g = [] /\
       getClientInfo w (snd r)
       = Some (mkClientInfo (client_ws c) (client_playerId c) (Some gameId0)) /\
       forall gid, gid <> gameId0 -> getGame gid (snd r) = getGame gid m).
Proof.
  intros r. subst r. unfold getClientInfo, getGame, createGame. split.
  - intros ->. reflexivity.
  - intros c ->.
    assert (Ha : addPlayer (client_playerId c) hostName w
                   (newGameSession gameId0 gameName (client_playerId c))
                 = (Some (createPlayer (client_playerId c) hostName w true),
                    set_hostId (client_playerId c)
                      (set_players [(client_playerId c,
                                     createPlayer (client_playerId c) hostName w true)]
                         (newGameSession gameId0 gameName (client_playerId c)))))
      by reflexivity.
    rewrite Ha. eexists. cbn [fst snd games clients].
    split; [reflexivity|]. split; [now rewrite get_set, String.eqb_refl|].
    repeat split.
    + now rewrite clients_get_set, Nat.eqb_refl.
    + intros gid Hne. now apply get_set_other.
Qed.

Lemma createGame_round_trip_witness :
  exists g, getGame "g2" (snd (createGame "g2" (Sample.sock 2) "Bob" "other" Sample_server))
            = Some g /\ phase g = LOBBY.
Proof.
  assert (Hc : exists c, getClientInfo (Sample.sock 2) Sample_server = Some c)
    by (vm_compute; eexists; reflexivity).
  destruct Hc as [c Hc].
  pose proof (createGame_round_trip "g2" (Sample.sock 2) "Bob" "other" Sample_server) as H.
  cbv zeta in H. destruct H as [_ H].
  destruct (H c Hc) as (g & _ & H2 & _ & _ & H5 & _). exists g. exact (conj H2 H5).
Defined.

(** X20. A registered client that joins a game in LOBBY with a free seat is
    admitted: the session stored under the id holds a fresh CONNECTED player
    under the client's id, at the end of the roster or, when that id was on
    the roster already, in place of the old record; phase, host and the other
    players stay; the session itself sends nothing; and the client's record
    points to the game. *)
Theorem joinGame_admits (w : WebSocket) (gameId0 playerName : string)
    (m : LobbyManager) (c : ClientInfo) (g : GameSession) :
  getClientInfo w m = Some c ->
  getGame gameId0 m = Some g ->
  phase g = LOBBY ->
  0 < playerCount g < MAX_PLAYERS ->
  let r := joinGame w gameId0 playerName m in
  let fresh := createPlayer (client_playerId c) playerName w false in
  fst r = mkJoinResult true None /\
  getGame gameId0 (snd r)
  = Some (set_players (JsMap.set (client_playerId c) fresh (players g)) g) /\
  (forall g', getGame gameId0 (snd r) = Some g' ->
     getPlayer (client_playerId c) g' = Some fresh /\
     (forall k, k <> client_playerId c -> getPlayer k g' = getPlayer k g) /\
     phase g' = LOBBY /\ hostId g' = hostId g /\ sent g' = sent g) /\
  getClientInfo w (snd r)
  = Some (mkClientInfo (client_ws c) (client_playerId c) (Some gameId0)).
Proof.
  intros Hc Hg Hph [Hpos Hfree]. cbv zeta.
  unfold getClientInfo, getGame, getPlayer, playerCount in *. unfold joinGame, playerCount.
  rewrite Hc, Hg, Hph. cbn [GamePhase_eqb negb].
  destruct (Nat.leb_spec MAX_PLAYERS (JsMap.size (players g))) as [Hle|_]; [lia|].
  unfold addPlayer.
  destruct (Nat.leb_spec MAX_PLAYERS (JsMap.size (players g))) as [Hle|_]; [lia|].
  rewrite Hph. cbn [GamePhase_eqb negb].
  destruct (Nat.eqb_spec (JsMap.size (players g)) 0) as [H0|_]; [lia|].
  cbn [fst snd games clients].
  split; [reflexivity|]. split; [now rewrite get_set, String.eqb_refl|].
  split.
  - intros g'. rewrite get_set, String.eqb_refl. intros [= <-].
    cbn [players set_players phase hostId sent].
    split; [now rewrite get_set, String.eqb_refl|].
    split; [intros k Hne; now apply get_set_other|]. auto.
  - now rewrite clients_get_set, Nat.eqb_refl.
Qed.

Lemma joinGame_admits_witness :
  fst (joinGame (Sample.sock 3) "g1" "Cid"
         (snd (registerClient "p3" (Sample.sock 3) Sample_server)))
  = mkJoinResult true None.
Proof.
  set (m := snd (registerClient "p3" (Sample.sock 3) Sample_server)).
  assert (Hc : exists c, getClientInfo (Sample.sock 3) m = Some c)
    by (vm_compute; eexists; reflexivity).
  assert (Hg : exists g, getGame "g1" m = Some g /\ phase g = LOBBY /\
                         0 < playerCount g < MAX_PLAYERS)
    by (vm_compute; eexists; repeat split; lia).
  destruct Hc as [c Hc]. destruct Hg as (g & Hg & Hph & Hsz).
  exact (proj1 (joinGame_admits (Sample.sock 3) "g1" "Cid" m c g Hc Hg Hph Hsz)).
Defined.

Lemma get_removeFromGame_same E gid pid gs g :
  JsMap.get gid gs = Some g ->
  JsMap.get gid (removeFromGame E gid pid gs)
  = if isEmpty (removePlayer E pid g) then None else Some (removePlayer E pid g).
Proof.
  intros Hg. unfold removeFromGame. rewrite Hg.
  destruct (isEmpty (removePlayer E pid g));
    [apply get_delete_same | now rewrite get_set, String.eqb_refl].
Qed.

Lemma removePlayer_last E pid g p :
  players g = [(pid, p)] -> isEmpty (removePlayer E pid g) = true.
Proof.
  intros Hp.
  assert (Hg : JsMap.get pid (players g) = Some p)
    by (rewrite Hp; cbn; now rewrite String.eqb_refl).
  pose proof (removePlayer_sameRoster E pid g p Hg) as Hr.
  rewrite Hp in Hr. cbn [JsMap.delete filter fst] in Hr.
  rewrite String.eqb_refl in Hr. cbn [negb] in Hr.
  unfold isEmpty. inversion Hr. reflexivity.
Qed.

(** X21. A client that disconnects, or leaves, is taken off the roster of the
    game its record points to, by [removePlayer]; the game is dropped from the
    registry when that leaves it without players, as it does when the client
    was the only one on the roster. After [unregisterClient] the socket is
    unknown; after [leaveGame] it is still registered, under the same player
    id, and in no game. A socket that is unknown, or in no game, changes
    nothing by leaving. *)
Theorem departure_effects (E : Env) (w : WebSocket) (m : LobbyManager) :
  (getClientInfo w m = None ->
     unregisterClient E w m = m /\ leaveGame E w m = m) /\
  (forall c, getClientInfo w m = Some c ->
     getClientInfo w (unregisterClient E w m) = None /\
     (truthyGameId (client_gameId c) = None ->
        games (unregisterClient E w m) = games m /\ leaveGame E w m = m) /\
     (forall gid, truthyGameId (client_gameId c) = Some gid ->
        getClientInfo w (leaveGame E w m)
        = Some (mkClientInfo (client_ws c) (client_playerId c) None) /\
        getGameForClient w (leaveGame E w m) = None /\
        games (leaveGame E w m) = games (unregisterClient E w m) /\
        (getGame gid m = None -> games (leaveGame E w m) = games m) /\
        forall g, getGame gid m = Some g ->
          let g' := removePlayer E (client_playerId c) g in
          getGame gid (leaveGame E w m) = (if isEmpty g' then None else Some g') /\
          (forall p, players g = [(client_playerId c, p)] ->
             getGame gid (leaveGame E w m) = None))).
Proof.
  unfold getClientInfo, getGame, getGameForClient, unregisterClient, leaveGame. split.
  - intros ->. split; reflexivity.
  - intros c Hc. rewrite Hc. cbn [clients games]. split.
    { rewrite clients_get_delete, Nat.eqb_refl. reflexivity. }
    split.
    { intros ->. split; reflexivity. }
    intros gid ->. cbn [clients games].
    rewrite clients_get_set, Nat.eqb_refl. cbn [client_gameId truthyGameId].
    split; [reflexivity|]. split; [reflexivity|]. split; [reflexivity|].
    split.
    + intros Hg. unfold removeFromGame. now rewrite Hg.
    + intros g Hg. cbv zeta. rewrite (get_removeFromGame_same E gid _ _ g Hg).
      split; [reflexivity|]. intros p Hp. now rewrite (removePlayer_last E _ g p Hp).
Qed.

Lemma departure_effects_witness :
  getGame "g1" (leaveGame Sample.env (Sample.sock 2) Sample_server)
  = Some (removePlayer Sample.env "p2"
            (snd (addPlayer "p2" "Bob" (Sample.sock 2)
                    (snd (addPlayer "p1" "Ann" (Sample.sock 1)
                            (newGameSession "g1" "game" "p1")))))).
Proof.
  set (gx := snd (addPlayer "p2" "Bob" (Sample.sock 2)
                    (snd (addPlayer "p1" "Ann" (Sample.sock 1)
                            (newGameSession "g1" "game" "p1"))))).
  assert (Hc : getClientInfo (Sample.sock 2) Sample_server
               = Some (mkClientInfo (Sample.sock 2) "p2" (Some "g1"%string)))
    by (vm_compute; reflexivity).
  assert (Hg : getGame "g1" Sample_server = Some gx) by (vm_compute; reflexivity).
  assert (He : isEmpty (removePlayer Sample.env "p2" gx) = false)
    by (vm_compute; reflexivity).
  destruct (departure_effects Sample.env (Sample.sock 2) Sample_server) as [_ H].
  destruct (H _ Hc) as (_ & _ & H3).
  destruct (H3 "g1"%string eq_refl) as (_ & _ & _ & _ & H4).
  destruct (H4 gx Hg) as [H5 _]. cbv zeta in H5. cbn [client_playerId] in H5.
  rewrite He in H5. exact H5.
Defined.

Lemma In_listGames m gi :
  In gi (listGames m) <->
  exists g, In g (JsMap.values (games m)) /\ phase g = LOBBY /\ gi = toGameInfo g.
Proof.
  unfold listGames. rewrite in_map_iff. split.
  - intros (g & <- & Hin). apply filter_In in Hin as [Hin Hph].
    apply GamePhase_eqb_eq in Hph. eauto.
  - intros (g & Hin & Hph & ->). exists g. split; [reflexivity|].
    apply filter_In. split; [exact Hin|]. rewrite Hph. reflexivity.
Qed.

Lemma In_listGames_get E m :
  registryOk E m ->
  forall gi, In gi (listGames m) <->
    exists g, JsMap.get (gi_id gi) (games m) = Some g /\ phase g = LOBBY /\
              gi = toGameInfo g.
Proof.
  intros [Hd Hall] gi. rewrite In_listGames. split.
  - intros (g & Hin & Hph & ->). exists g. split; [|auto].
    apply In_values_entry in Hin as [gid Hin].
    destruct (Hall gid g Hin) as (_ & Hid & _).
    cbn [toGameInfo gi_id]. rewrite Hid. now apply NoDup_In_get.
  - intros (g & Hg & Hph & ->). exists g. split; [|auto].
    eapply get_In_values. exact Hg.
Qed.

(** X22. On a server in any state its clients can bring about, [listGames]
    lists exactly the sessions in LOBBY, each under the id it is stored
    under and with its number of players; and every listed game that shows a
    free seat admits any registered client that asks to join it. *)
Theorem listGames_lists_open_sessions (E : Env) (m : LobbyManager) :
  lobbyReachable E m ->
  (forall gi, In gi (listGames m) <->
     exists g, getGame (gi_id gi) m = Some g /\ phase g = LOBBY /\
               gi = toGameInfo g) /\
  (forall gi g, In gi (listGames m) -> getGame (gi_id gi) m = Some g ->
     gi_playerCount gi = playerCount g /\ gi_maxPlayers gi = MAX_PLAYERS) /\
  (forall gi w c playerName,
     In gi (listGames m) -> gi_playerCount gi < gi_maxPlayers gi ->
     getClientInfo w m = Some c ->
     success (fst (joinGame w (gi_id gi) playerName m)) = true).
Proof.
  intros Hr. destruct (lobbyReachable_registryOk E m Hr) as [Hd Hall].
  unfold getGame, getClientInfo.
  pose proof (In_listGames_get E m (conj Hd Hall)) as Hiff.
  split; [exact Hiff|]. split.
  - intros gi g Hin Hg. apply Hiff in Hin as (g0 & Hg0 & _ & ->).
    rewrite Hg in Hg0. injection Hg0 as <-. split; reflexivity.
  - intros gi w c playerName Hin Hfree Hc.
    apply Hiff in Hin as (g & Hg & Hph & ->).
    cbn [toGameInfo gi_playerCount gi_maxPlayers gi_id] in *.
    unfold joinGame. rewrite Hc, Hg, Hph. cbn [GamePhase_eqb negb].
    destruct (Nat.leb_spec MAX_PLAYERS (playerCount g)) as [Hle|_]; [lia|].
    destruct (addPlayer_accepts (client_playerId c) playerName w g Hph Hfree)
      as (p & g' & ->). reflexivity.
Qed.

Lemma listGames_lists_open_sessions_witness :
  success (fst (joinGame (Sample.sock 2) "g1" "Bob" Sample_server)) = true.
Proof.
  assert (Hr : lobbyReachable Sample.env Sample_server)
    by (apply lobbyReachable_run; constructor).
  assert (Hl : exists gi, In gi (listGames Sample_server) /\ gi_id gi = "g1"%string /\
                          gi_playerCount gi < gi_maxPlayers gi)
    by (vm_compute; eexists; split; [left; reflexivity | split; [reflexivity | lia]]).
  assert (Hc : exists c, getClientInfo (Sample.sock 2) Sample_server = Some c)
    by (vm_compute; eexists; reflexivity).
  destruct Hl as (gi & Hin & Hid & Hfree). destruct Hc as [c Hc].
  destruct (listGames_lists_open_sessions Sample.env Sample_server Hr) as (_ & _ & H).
  rewrite <- Hid. exact (H gi (Sample.sock 2) c "Bob"%string Hin Hfree Hc).
Defined.

(** ** The handlers of the gateway *)

Lemma clientGame_Some w m c gid g :
  clientGame w m = Some (c, gid, g) ->
  getClientInfo w m = Some c /\ truthyGameId (client_gameId c) = Some gid /\
  getGame gid m = Some g.
Proof.
  unfold clientGame, getClientInfo, getGame.
  destruct (clients_get w (clients m)) as [c0|]; [|discriminate].
  destruct (truthyGameId (client_gameId c0)) as [g0|] eqn:Ht; [|discriminate].
  destruct (JsMap.get g0 (games m)) as [g1|] eqn:Hg; [|discriminate].
  intros [= <- <- <-]. auto.
Qed.



(** X24. [returnToLobby] puts the session back in LOBBY with the countdown off:
    every player is CONNECTED with the default lives, score 0 and no input,
    and keeps its seat, name, host flag and socket; the host, the used words
    (emptied) and the turn (cleared) are reset as the lobby needs them, while
    the failed combos of the match are kept; the new roster is announced; and
    since nobody is READY, [startGame] is refused until players are ready
    again. *)
Theorem returnToLobby_resets_match (E : Env) (s : GameSession) :
  let s' := returnToLobby s in
  phase s' = LOBBY /\ tickInterval s' = false /\
  players s' = JsMap.forEach resetPlayer (players s) /\
  (forall p', In p' (JsMap.values (players s')) ->
     state p' = CONNECTED /\ lives p' = DEFAULT_LIVES /\ score p' = 0%Z /\
     currentInput p' = ""%string) /\
  JsMap.keys (players s') = JsMap.keys (players s) /\
  hostId s' = hostId s /\ usedWords s' = [] /\
  currentCombo s' = ""%string /\ currentTurnPlayerId s' = ""%string /\
  roundStartPlayerId s' = ""%string /\
  failedCombos s' = failedCombos s /\
  sent s' = sent s ++ broadcastToGame (players s')
                        (MsgPLAYER_LIST (getPlayersInfo s') (hostId s)) /\
  canStartGame s' = false /\
  forall now, startGame E now s' = (false, s').
Proof.
  cbv zeta.
  assert (Hp : players (returnToLobby s) = JsMap.forEach resetPlayer (players s)).
  { unfold returnToLobby, broadcastPlayerList, broadcast, stopTurnTimer.
    destruct (tickInterval s); reflexivity. }
  assert (Hc : canStartGame (returnToLobby s) = false).
  { unfold canStartGame. rewrite Hp, values_forEach.
    assert (Hf : forall l, filter (fun p => PlayerState_eqb (state p) READY)
                             (map resetPlayer l) = []).
    { induction l as [|p l IH]; [reflexivity | exact IH]. }
    rewrite Hf. reflexivity. }
  split; [reflexivity|]. split.
  { unfold returnToLobby, broadcastPlayerList, broadcast. cbn. apply tickInterval_stopTurnTimer. }
  split; [exact Hp|]. split.
  { intros p'. rewrite Hp, values_forEach, in_map_iff. intros (q & <- & _).
    repeat split. }
  split.
  { rewrite Hp. unfold JsMap.keys, JsMap.forEach. rewrite map_map. reflexivity. }
  pose proof (core_stopTurnTimer s) as H0.
  split.
  { unfold returnToLobby, broadcastPlayerList, broadcast. cbn. now apply hostId_core. }
  split; [reflexivity|]. split; [reflexivity|]. split; [reflexivity|].
  split; [reflexivity|]. split.
  { unfold returnToLobby, broadcastPlayerList, broadcast. cbn. now apply failedCombos_core. }
  split.
  { unfold returnToLobby, broadcastPlayerList, broadcast, stopTurnTimer.
    destruct (tickInterval s); reflexivity. }
  split; [exact Hc|]. intros now. now apply startGame_failure.
Qed.

(** ** The countdown *)

Lemma restart_finishTurn E k result word now a :
  let s' := finishTurn E k result word now a in
  tickInterval s' = true -> turnStartTime s' = now /\ turnTimer s' = turnDuration a.
Proof.
  cbv zeta. unfold finishTurn.
  set (s2 := match JsMap.get k (players a) with Some _ => _ | None => _ end).
  set (s3 := match JsMap.get k (players s2) with Some _ => _ | None => _ end).
  assert (H2 : turnDuration s2 = turnDuration a)
    by (subst s2; now destruct (JsMap.get k (players a))).
  assert (H3 : turnDuration s3 = turnDuration a)
    by (subst s3; destruct (JsMap.get k (players s2)); exact H2).
  clearbody s3. unfold checkWinCondition.
  destruct (Nat.eqb (JsMap.size (players s3)) 1 && Nat.eqb (aliveCount s3) 0).
  - rewrite tickInterval_endGame. discriminate.
  - destruct ((1 <? JsMap.size (players s3)) && (aliveCount s3 <=? 1)).
    + rewrite tickInterval_endGame. discriminate.
    + intros _. unfold startTurnTimer, broadcast, stopTurnTimer.
      destruct (tickInterval s3); cbn; auto.
Qed.

Lemma restart_handleTimeout E now s :
  let s' := handleTimeout E now s in
  tickInterval s' = true -> turnStartTime s' = now /\ turnTimer s' = turnDuration s.
Proof.
  cbv zeta. unfold handleTimeout.
  destruct (JsMap.get _ _) as [p|].
  - rewrite processTurnResult_finishTurn. intros Ht.
    destruct (restart_finishTurn E _ _ _ _ _ Ht) as [H1 H2]. split; [exact H1|].
    rewrite H2.
    match goal with
    | |- turnDuration ?x = _ =>
        pose proof (f_equal snd (fixedPart_advanceToNextPlayer E false
                                   (bookTimeout (currentTurnPlayerId (stopTurnTimer s))
                                      (stopTurnTimer (stopTurnTimer s))))) as Hd
    end.
    unfold fixedPart in Hd. cbn [snd] in Hd. rewrite Hd.
    unfold bookTimeout, modifyPlayer, broadcast, stopTurnTimer.
    repeat break_match; reflexivity.
  - rewrite tickInterval_stopTurnTimer. discriminate.
Qed.

(** X26. While the countdown of a reachable session is armed, a tick earlier
    than ten seconds after the start of the turn only refreshes the time
    shown; the first tick at ten seconds or later processes the timeout, after
    which either the countdown is off or a new one has started at the time of
    that tick with the full duration. *)
Theorem turn_expires_after_turn_duration (E : Env) (s : GameSession) (now : Z) :
  reachable E s ->
  tickInterval s = true ->
  let s1 := set_turnTimer (turnDuration s - elapsedSeconds now s)%Q s in
  ((now - turnStartTime s < 10000)%Z -> tick E now s = s1) /\
  ((10000 <= now - turnStartTime s)%Z ->
     tick E now s = handleTimeout E now s1 /\
     (tickInterval (tick E now s) = true ->
        turnStartTime (tick E now s) = now /\
        turnTimer (tick E now s) = DEFAULT_TURN_DURATION)).
Proof.
  intros Hr Ht s1. pose proof (reachable_turnDuration E s Hr) as Hd.
  unfold tick. rewrite Ht. fold s1.
  assert (Hq : Qle_bool (turnTimer s1) 0 = true <-> (10000 <= now - turnStartTime s)%Z).
  { rewrite Qle_bool_iff. subst s1. cbn [turnTimer set_turnTimer]. rewrite Hd.
    unfold elapsedSeconds, DEFAULT_TURN_DURATION, Qle, Qminus, Qplus, Qopp.
    cbn [Qnum Qden]. lia. }
  split.
  - intros Hlt. destruct (Qle_bool (turnTimer s1) 0); [|reflexivity].
    assert (10000 <= now - turnStartTime s)%Z by now apply Hq. lia.
  - intros Hge. apply Hq in Hge. rewrite Hge. split; [reflexivity|].
    intros Ht'. destruct (restart_handleTimeout E now s1 Ht') as [H1 H2].
    split; [exact H1|]. rewrite H2. exact Hd.
Qed.

Lemma turn_expires_after_turn_duration_witness :
  tick Sample.env 9999 Sample.playing3
  = set_turnTimer (turnDuration Sample.playing3 - elapsedSeconds 9999 Sample.playing3)%Q
      Sample.playing3.
Proof.
  assert (Hr : reachable Sample.env Sample.playing3)
    by (repeat apply reachable_run; apply reachable_new).
  assert (Ht : tickInterval Sample.playing3 = true) by (vm_compute; reflexivity).
  assert (Hlt : (9999 - turnStartTime Sample.playing3 < 10000)%Z)
    by (vm_compute; reflexivity).
  pose proof (turn_expires_after_turn_duration Sample.env Sample.playing3 9999 Hr Ht) as H.
  cbv zeta in H. exact (proj1 H Hlt).
Defined.

(** ** Readiness outside the lobby *)

(** X27. [setPlayerReady] does nothing for an id that is not on the roster.
    For a player on the roster it sets the state to READY or CONNECTED in
    whatever phase the session is, touches no other player, and announces the
    roster. As the player is then not ALIVE, its input and its submissions
    are dropped: a holder of the turn who toggles readiness during a match
    cannot answer any more. *)
Theorem setPlayerReady_has_no_phase_guard (s : GameSession) (k : string)
    (ready : bool) :
  let s' := setPlayerReady k ready s in
  (getPlayer k s = None -> s' = s) /\
  (forall p, getPlayer k s = Some p ->
     phase s' = phase s /\
     getPlayer k s' = Some (set_state (if ready then READY else CONNECTED) p) /\
     (forall k', k' <> k -> getPlayer k' s' = getPlayer k' s) /\
     currentTurnPlayerId s' = currentTurnPlayerId s /\
     tickInterval s' = tickInterval s /\
     sent s' = sent s ++ broadcastToGame (players s')
                           (MsgPLAYER_LIST (getPlayersInfo s') (hostId s)) /\
     (forall input, handleTurnInput k input s' = s') /\
     (forall E word now, handleTurnSubmit E k word now s' = s')).
Proof.
  cbv zeta. unfold getPlayer, setPlayerReady. split; [now intros ->|].
  intros p Hg. rewrite Hg.
  set (s' := broadcastPlayerList _).
  assert (Hk : JsMap.get k (players s')
               = Some (set_state (if ready then READY else CONNECTED) p)).
  { subst s'. unfold broadcastPlayerList, broadcast, modifyPlayer.
    cbn [players set_players set_sent]. now rewrite get_modify, String.eqb_refl, Hg. }
  assert (Hna : forall q, JsMap.get k (players s') = Some q ->
                          PlayerState_eqb (state q) ALIVE = false).
  { intros q. rewrite Hk. intros [= <-]. now destruct ready. }
  split; [reflexivity|]. split; [exact Hk|]. split.
  { intros k' Hne. subst s'. unfold broadcastPlayerList, broadcast, modifyPlayer.
    cbn [players set_players set_sent]. rewrite get_modify.
    destruct (String.eqb k k') eqn:He; [|reflexivity].
    apply String.eqb_eq in He. congruence. }
  split; [reflexivity|]. split; [reflexivity|]. split; [reflexivity|]. split.
  - intros input. unfold handleTurnInput.
    destruct (negb (GamePhase_eqb (phase s') PLAYING)); [reflexivity|].
    destruct (negb (String.eqb k (currentTurnPlayerId s'))); [reflexivity|].
    rewrite Hk, (Hna _ Hk). reflexivity.
  - intros E word now. unfold handleTurnSubmit.
    destruct (negb (GamePhase_eqb (phase s') PLAYING)); [reflexivity|].
    destruct (negb (String.eqb k (currentTurnPlayerId s'))); [reflexivity|].
    rewrite Hk, (Hna _ Hk). reflexivity.
Qed.

Lemma setPlayerReady_has_no_phase_guard_witness :
  let s' := setPlayerReady "p1" true Sample.playing3 in
  phase s' = PLAYING /\ currentTurnPlayerId s' = "p1"%string /\
  handleTurnSubmit Sample.env "p1" "kala" 500 s' = s'.
Proof.
  assert (Hg : exists p, getPlayer "p1" Sample.playing3 = Some p)
    by (vm_compute; eexists; reflexivity).
  assert (Hph : phase Sample.playing3 = PLAYING) by (vm_compute; reflexivity).
  assert (Hcur : currentTurnPlayerId Sample.playing3 = "p1"%string)
    by (vm_compute; reflexivity).
  destruct Hg as [p Hg].
  pose proof (setPlayerReady_has_no_phase_guard Sample.playing3 "p1" true) as H.
  cbv zeta in H. destruct H as [_ H].
  destruct (H p Hg) as (H1 & _ & _ & H4 & _ & _ & _ & H8).
  cbv zeta. rewrite H1, H4. exact (conj Hph (conj Hcur (H8 Sample.env _ _))).
Defined.

Lemma set_get_same {V} k (v : V) m : JsMap.get k m = Some v -> JsMap.set k v m = m.
Proof.
  induction m as [|[k1 v1] m IH]; cbn [JsMap.get JsMap.set]; [discriminate|].
  destruct (String.eqb k k1) eqn:He.
  - intros [= ->]. apply String.eqb_eq in He. now subst.
  - intros H. now rewrite IH.
Qed.

(** X28. [LobbyManager.startGame] and the START_GAME_REQUEST handler of the
    gateway leave the server in the same state; the former returns [true]
    exactly when the sender is in a stored game, is its host, and at least
    [MIN_PLAYERS] players are READY. *)
Theorem managerStartGame_agrees_with_handler (E : Env) (w : WebSocket) (now : Z)
    (m : LobbyManager) :
  snd (managerStartGame E w now m) = handleStartGame E w now m /\
  (fst (managerStartGame E w now m) = true <->
   exists c gid g, clientGame w m = Some (c, gid, g) /\
                   hostId g = client_playerId c /\ canStartGame g = true).
Proof.
  unfold managerStartGame, handleStartGame, clientGame, isHostOf.
  destruct (clients_get w (clients m)) as [c|];
    [|split; [reflexivity | split; [discriminate | intros (? & ? & ? & [=] & _)]]].
  destruct (truthyGameId (client_gameId c)) as [gid|];
    [|split; [reflexivity | split; [discriminate | intros (? & ? & ? & [=] & _)]]].
  destruct (JsMap.get gid (games m)) as [g|] eqn:Hg;
    [|split; [reflexivity | split; [discriminate | intros (? & ? & ? & [=] & _)]]].
  destruct (String.eqb_spec (hostId g) (client_playerId c)) as [Hh|Hh]; cbn [negb].
  - destruct (canStartGame g) eqn:Hcan.
    + split; [reflexivity|]. cbn [fst]. split.
      * intros _. exists c, gid, g. auto.
      * intros _. unfold startGame. rewrite Hcan. reflexivity.
    + rewrite (startGame_failure E now g Hcan). cbn [fst snd]. split.
      * rewrite (set_get_same gid g (games m) Hg). now destruct m.
      * split; [discriminate|]. intros (c0 & gid0 & g0 & [= <- <- <-] & _ & Hc).
        congruence.
  - split; [reflexivity|]. split; [discriminate|].
    intros (c0 & gid0 & g0 & [= <- <- <-] & Hc & _). contradiction.
Qed.

Lemma managerStartGame_agrees_with_handler_witness :
  fst (managerStartGame Sample.env (Sample.sock 1) 0 Sample_server_ready) = true.
Proof.
  apply (proj2 (managerStartGame_agrees_with_handler Sample.env (Sample.sock 1) 0
                  Sample_server_ready)).
  vm_compute. eexists _, _, _. repeat split.
Defined.
